(** * HAP accessory core: sessions, pairings, characteristics, store

    A shallow embedding of the Go sources of the accessory-side HomeKit
    Accessory Protocol implementation:

    - [session.go]: the session registry and the framed AEAD transport
      ([Session.Encrypt], [Session.Decrypt], [packetsWithSizeFromBytes]);
    - the store ([fsStore.Set], [fsStore.Get], [storer]);
    - the pair-setup entry point ([Server.pairSetup]);
    - pairings administration ([Server.Pairings]);
    - characteristic access ([Server.GetCharacteristics],
      [Server.PutCharacteristics], [Server.findC]).

    Go values are modelled as follows.  A [uint64]/[uint16] is a [Z] with its
    wrap-around written out; a byte is a [Byte.byte]; a [[]byte] read from
    or written to a stream is a [list byte]; a Go map is a [gmap]; a pointer
    to a mutable object is either threaded as explicit state or, where several
    places share the object, a location in a heap. *)

From Stdlib Require Import ZArith Lia List Bool Ascii String.
From stdpp Require Import base option list gmap strings fin_maps.

Local Open Scope Z_scope.

(** ** Bytes and little-endian integers *)

Abbreviation byte := Byte.byte.

#[global] Instance byte_eq_dec : EqDecision byte := Byte.byte_eq_dec.

Definition byte_of_Z (z : Z) : byte :=
  match Byte.of_N (Z.to_N (z mod 256)) with
  | Some b => b
  | None => Byte.x00
  end.

Definition Z_of_byte (b : byte) : Z := Z.of_N (Byte.to_N b).

(** [uint64(x)], [uint16(x)]: Go's wrapping conversions and arithmetic. *)
Definition wrap64 (z : Z) : Z := z mod 2 ^ 64.
Definition wrap16 (z : Z) : Z := z mod 2 ^ 16.

(** [c++] on a [uint64]. *)
Definition incr64 (c : Z) : Z := wrap64 (c + 1).

(** [binary.LittleEndian.PutUint64] / [PutUint16]: the [n] low bytes of [z],
    least significant first. *)
Fixpoint le_bytes (n : nat) (z : Z) : list byte :=
  match n with
  | O => []
  | S n' => byte_of_Z z :: le_bytes n' (z / 256)
  end.

Definition PutUint64 (z : Z) : list byte := le_bytes 8 z.
Definition PutUint16 (z : Z) : list byte := le_bytes 2 z.

(** [binary.LittleEndian.Uint16]. *)
Fixpoint le_value (bs : list byte) : Z :=
  match bs with
  | [] => 0
  | b :: bs' => Z_of_byte b + 256 * le_value bs'
  end.

Definition Uint16 (bs : list byte) : Z := wrap16 (le_value bs).

(** ** Errors and results *)

Inductive error : Type :=
  | ErrEOF                (* io.EOF *)
  | ErrUnexpectedEOF      (* io.ErrUnexpectedEOF *)
  | ErrSeal               (* error returned by chacha20poly1305.EncryptAndSeal *)
  | ErrAEAD               (* "Data encryption failed ..." : DecryptAndVerify refused *)
  | ErrNotExist           (* the file of a key does not exist *)
  | ErrFuel.              (* the loop bound of the model was reached (never, see below) *)

Inductive result (A : Type) : Type :=
  | Ok (a : A)
  | Err (e : error).
Arguments Ok {A} a.
Arguments Err {A} e.

Definition is_Ok {A} (r : result A) : bool :=
  match r with Ok _ => true | Err _ => false end.

#[global] Instance error_eq_dec : EqDecision error.
Proof. solve_decision. Defined.

(** ** In-memory readers

    [Encrypt] and [Decrypt] take an [io.Reader].  The model is the reader
    over a byte buffer ([bytes.Buffer], [bytes.Reader]): the state is the list
    of the bytes not read yet. *)

Module Reader.

(** [n, err := r.Read(value)] with [len(value) = size]: the bytes read, the
    reader afterwards, and whether [err] is [io.EOF].  A buffer returns
    [0, io.EOF] only when it is empty (and [0, nil] for an empty [value]),
    and otherwise as many bytes as fit, with a nil error. *)
Definition Read (r : list byte) (size : nat) : list byte * list byte * bool :=
  match r with
  | [] => ([], [], negb (Nat.eqb size 0))
  | _ => (take size r, drop size r, false)
  end.

(** [io.ReadFull(r, buf)] with [len(buf) = size], as [binary.Read] calls it:
    [io.EOF] when no byte could be read, [io.ErrUnexpectedEOF] when some but
    not all were; reading zero bytes always succeeds. *)
Definition ReadFull (r : list byte) (size : nat) : result (list byte * list byte) :=
  if Nat.eqb size 0 then Ok ([], r)
  else match r with
       | [] => Err ErrEOF
       | _ => if Nat.ltb (length r) size then Err ErrUnexpectedEOF
              else Ok (take size r, drop size r)
       end.

End Reader.

(** ** Pairings (the [Pairing] struct of the store)

    A [[]byte] field keeps Go's distinction between a nil slice ([None]) and
    an empty one ([Some []]): [reflect.DeepEqual] tells them apart. *)

Record Pairing : Type := mkPairing {
  Name : string;
  PublicKey : option (list byte);
  Permission : byte;
}.

#[global] Instance Pairing_eq_dec : EqDecision Pairing.
Proof. solve_decision. Defined.

(** ** session.go: packets *)

Module Transport.

(** [PacketLengthMax = 0x400] *)
Definition PacketLengthMax : Z := 0x400.

(** [type packet struct { length int; value []byte }] *)
Record packet : Type := mkPacket { p_length : Z; p_value : list byte }.

(** [packetsWithSizeFromBytes(length, r)].  Each turn of the [for] loop reads
    at most [size] bytes; it stops on an empty read, and after a read that is
    short or came with [io.EOF].  [Read] never returns more than it was
    asked for, so the [panic("Invalid length")] branch is dead.  The loop
    consumes at least one byte per turn: [fuel] bounds the turns. *)
Fixpoint packets_loop (fuel : nat) (size : nat) (r : list byte) : list packet :=
  match fuel with
  | O => []
  | S fuel' =>
      let '(value, r', eof) := Reader.Read r size in
      let n := length value in
      if Nat.eqb n 0 then []
      else
        mkPacket (Z.of_nat n) value ::
          (if Nat.ltb n size || eof then [] else packets_loop fuel' size r')
  end.

Definition packetsWithSizeFromBytes (size : Z) (r : list byte) : list packet :=
  packets_loop (S (length r)) (Z.to_nat size) r.

(** [packetsFromBytes(r)] *)
Definition packetsFromBytes (r : list byte) : list packet :=
  packetsWithSizeFromBytes PacketLengthMax r.

(** *** Session

    [type Session struct { Pairing; encryptKey, decryptKey [32]byte;
    encryptCount, decryptCount uint64 }].  The methods have a pointer
    receiver and update the counters in place: the model returns the
    session afterwards, also when the method returns an error. *)
Record Session : Type := mkSession {
  s_Pairing : Pairing;
  encryptKey : list byte;
  decryptKey : list byte;
  encryptCount : Z;
  decryptCount : Z;
}.

Definition set_encryptCount (s : Session) (c : Z) : Session :=
  mkSession (s_Pairing s) (encryptKey s) (decryptKey s) c (decryptCount s).

Definition set_decryptCount (s : Session) (c : Z) : Session :=
  mkSession (s_Pairing s) (encryptKey s) (decryptKey s) (encryptCount s) c.

(** [s.encryptCount++] and [s.decryptCount++] as session updates. *)
Definition stepE (s : Session) : Session := set_encryptCount s (incr64 (encryptCount s)).
Definition stepD (s : Session) : Session := set_decryptCount s (incr64 (decryptCount s)).

(** The shape of the packets of a message: every packet records the length of
    its value, is non-empty and at most 0x400 bytes, and only the last one may
    be shorter than 0x400. *)
Fixpoint chunked (ps : list packet) : Prop :=
  match ps with
  | [] => True
  | p :: ps' =>
      p_length p = Z.of_nat (length (p_value p)) /\
      0 < p_length p <= PacketLengthMax /\
      (ps' <> [] -> p_length p = PacketLengthMax) /\
      chunked ps'
  end.

(** One frame read off the stream by [Decrypt] (lines 178-194): the
    little-endian [uint16] length, [length] bytes, and the 16-byte tag.
    Only an [io.EOF] on the length field ends the loop quietly. *)
Inductive frame_read : Type :=
  | FrameEOF
  | FrameErr (e : error)
  | Frame (length : Z) (b mac rest : list byte).

Definition readFrame (r : list byte) : frame_read :=
  match Reader.ReadFull r 2 with
  | Err ErrEOF => FrameEOF
  | Err e => FrameErr e
  | Ok (lenb, r1) =>
      let length := Uint16 lenb in
      match Reader.ReadFull r1 (Z.to_nat length) with
      | Err e => FrameErr e
      | Ok (b, r2) =>
          match Reader.ReadFull r2 16 with
          | Err e => FrameErr e
          | Ok (mac, r3) => Frame length b mac r3
          end
      end
  end.

Section WithAEAD.

(** The package [chacha20poly1305] is used through its two functions
    ([key], [nonce], [message], [add] in that order; the tag is 16 bytes). *)
Variable EncryptAndSeal :
  list byte -> list byte -> list byte -> list byte -> result (list byte * list byte).
Variable DecryptAndVerify :
  list byte -> list byte -> list byte -> list byte -> list byte -> result (list byte).

(** The body of the loop of [Encrypt] (lines 154-168): the frame of one
    packet.  The counter is bumped before the packet is sealed. *)
Definition encryptPacket (s : Session) (p : packet) : result (list byte) * Session :=
  let nonce := PutUint64 (encryptCount s) in
  let s := stepE s in
  let bLength := PutUint16 (wrap16 (p_length p)) in
  match EncryptAndSeal (encryptKey s) nonce (p_value p) bLength with
  | Err e => (Err e, s)
  | Ok (encrypted, mac) => (Ok (bLength ++ encrypted ++ mac), s)
  end.

Fixpoint Encrypt_loop (s : Session) (packets : list packet) (buf : list byte)
  : result (list byte) * Session :=
  match packets with
  | [] => (Ok buf, s)
  | p :: packets' =>
      match encryptPacket s p with
      | (Err e, s') => (Err e, s')
      | (Ok frame, s') => Encrypt_loop s' packets' (buf ++ frame)
      end
  end.

(** [func (s *Session) Encrypt(r io.Reader) (io.Reader, error)] *)
Definition Encrypt (s : Session) (r : list byte) : result (list byte) * Session :=
  Encrypt_loop s (packetsFromBytes r) [].

(** The loop of [Decrypt].  [consumed] is a ghost counter of the frames
    read in full (length, ciphertext and tag); the source has no such
    variable.  Every turn that goes on reads at least 18 bytes. *)
Fixpoint Decrypt_loop (fuel : nat) (s : Session) (r buf : list byte) (consumed : nat)
  : result (list byte) * Session * nat :=
  match fuel with
  | O => (Err ErrFuel, s, consumed)
  | S fuel' =>
      match readFrame r with
      | FrameEOF => (Ok buf, s, consumed)
      | FrameErr e => (Err e, s, consumed)
      | Frame length b mac rest =>
          let nonce := PutUint64 (decryptCount s) in
          let s := stepD s in
          let lengthBytes := PutUint16 (wrap16 length) in
          match DecryptAndVerify (decryptKey s) nonce b mac lengthBytes with
          | Err _ => (Err ErrAEAD, s, S consumed)
          | Ok decrypted =>
              let buf := buf ++ decrypted in
              if length <? PacketLengthMax then (Ok buf, s, S consumed)
              else Decrypt_loop fuel' s rest buf (S consumed)
          end
      end
  end.

(** [func (s *Session) Decrypt(r io.Reader) (io.Reader, error)] *)
Definition Decrypt_counted (s : Session) (r : list byte)
  : result (list byte) * Session * nat :=
  Decrypt_loop (S (length r)) s r [] 0.

Definition Decrypt (s : Session) (r : list byte) : result (list byte) * Session :=
  fst (Decrypt_counted s r).

(** The frames [Encrypt] writes for a list of packets, one per packet, as a
    list (the source only keeps their concatenation in [buf]). *)
Fixpoint frames_from (s : Session) (packets : list packet) : list (list byte) :=
  match packets with
  | [] => []
  | p :: packets' =>
      match encryptPacket s p with
      | (Ok frame, s') => frame :: frames_from s' packets'
      | (Err _, _) => []
      end
  end.

End WithAEAD.

(** A stand-in AEAD for running the definitions on examples: the message is
    left in clear and the tag is the nonce padded with zero bytes to 16 bytes;
    opening checks the tag against the nonce.  It has the three properties of
    an AEAD the theorems below assume (it offers no secrecy, which they do not
    need). *)
Definition toy_tag (nonce : list byte) : list byte :=
  take 16 (nonce ++ replicate 16 Byte.x00).

Definition toy_seal (key nonce message add : list byte) : result (list byte * list byte) :=
  Ok (message, toy_tag nonce).

Definition toy_open (key nonce message mac add : list byte) : result (list byte) :=
  if decide (mac = toy_tag nonce) then Ok message else Err ErrAEAD.

(** Two sessions as [NewSession] makes them on the two ends of a connection:
    the accessory's and a controller's, with mirrored keys and zeroed counters. *)
Definition example_pairing : Pairing :=
  mkPairing "controller" (Some (replicate 32 Byte.x07)) Byte.x01.

Definition example_session : Session :=
  mkSession example_pairing (replicate 32 Byte.x01) (replicate 32 Byte.x02) 0 0.

Definition example_peer : Session :=
  mkSession example_pairing (replicate 32 Byte.x02) (replicate 32 Byte.x01) 0 0.

End Transport.

(** ** The file system store

    [fsStore] keeps the value of a key in the file
    [filepath.Join(fs.Path, sanitizeFilename(key))].  The state of the file
    system is a map from paths to file contents.  Failures of the operating
    system other than a missing file are outside the model. *)

Module FsStore.

(** The files of the file system, each under the path by which the process
    opens it.  Two different cleaned paths are taken to be two different
    files: there are no links, and no relative path leaves the working
    directory to come back to it.  Directories are not modelled, and opening
    a file fails only when the file is missing. *)
Abbreviation files := (gmap string (list byte)).

(** [sanitizeFilename]: [strings.Replace(filename, ":", "", -1)] *)
Fixpoint sanitizeFilename (filename : string) : string :=
  match filename with
  | EmptyString => EmptyString
  | String c rest =>
      if Ascii.eqb c ":"%char then sanitizeFilename rest
      else String c (sanitizeFilename rest)
  end.

(** [path/filepath] of the Go library, for the separator [/].  The elements
    of a path: what stands between its separators. *)
Fixpoint path_elements (path : string) : list string :=
  match path with
  | EmptyString => [EmptyString]
  | String c rest =>
      if Ascii.eqb c "/"%char then EmptyString :: path_elements rest
      else match path_elements rest with
           | [] => [String c EmptyString]
           | e :: es => String c e :: es
           end
  end.

(** One element in the loop of [filepath.Clean]; [out] holds the elements
    written so far, the last one first.  An empty element and a [.] element
    are dropped.  A [..] element removes the element written last; when there
    is none, or it is a [..] itself, the [..] is written on a path that is
    not rooted and dropped on a rooted one.  Any other element is written. *)
Definition clean_step (rooted : bool) (out : list string) (e : string) : list string :=
  if bool_decide (e = EmptyString) || bool_decide (e = ".") then out
  else if bool_decide (e = "..") then
    match out with
    | top :: out' =>
        if bool_decide (top = "..") then (if rooted then out else e :: out) else out'
    | [] => if rooted then out else [e]
    end
  else e :: out.

(** The elements with a separator between them. *)
Fixpoint join_elements (es : list string) : string :=
  match es with
  | [] => EmptyString
  | e :: es' =>
      match es' with
      | [] => e
      | _ :: _ => String.append e (String "/" (join_elements es'))
      end
  end.

(** [filepath.Clean]: the empty path is [.]; a rooted path keeps its leading
    separator; a path that is not rooted and has no element left is [.]. *)
Definition filepath_Clean (path : string) : string :=
  match path with
  | EmptyString => "."
  | String c _ =>
      let rooted := Ascii.eqb c "/"%char in
      let out := rev (fold_left (clean_step rooted) (path_elements path) []) in
      if rooted then String "/" (join_elements out)
      else match out with
           | [] => "."
           | _ :: _ => join_elements out
           end
  end.

(** [filepath.Join(dir, name)]: the elements from the first one that is not
    empty, joined by a separator and cleaned; the empty string when both are
    empty. *)
Definition filepath_Join (dir name : string) : string :=
  if bool_decide (dir = EmptyString) then
    if bool_decide (name = EmptyString) then EmptyString else filepath_Clean name
  else filepath_Clean (String.append dir (String "/" name)).

Section WithPath.

(** [type fsStore struct { Path string }]: the directory of the store. *)
Variable Path : string.

(** [filePathToFile]: [filepath.Join(fs.Path, sanitizeFilename(file))] *)
Definition filePathToFile (file : string) : string :=
  filepath_Join Path (sanitizeFilename file).

(** [file.Write(value)] on a file opened with [O_WRONLY|O_CREATE] and neither
    [O_TRUNC] nor [O_APPEND]: the bytes go to offset 0 and what the file held
    beyond them stays. *)
Definition write_at_start (old value : list byte) : list byte :=
  value ++ drop (length value) old.

(** [func (fs *fsStore) Set(key string, value []byte) error]; [O_CREATE]
    makes a missing file, empty. *)
Definition fsStore_Set (fs : files) (key : string) (value : list byte) : files :=
  let path := filePathToFile key in
  let old := default [] (fs !! path) in
  <[path := write_at_start old value]> fs.

(** The loop of [Get]: [file.Read] into a 32-byte buffer until it reads
    nothing.  [file] is what is left of the file; every turn that goes on
    consumes at least one byte. *)
Fixpoint Get_loop (fuel : nat) (file b : list byte) : list byte :=
  match fuel with
  | O => b
  | S fuel' =>
      let buffer := take 32 file in
      let n := length buffer in
      if Nat.ltb 0 n then Get_loop fuel' (drop 32 file) (b ++ buffer) else b
  end.

(** [func (fs *fsStore) Get(key string) ([]byte, error)] *)
Definition fsStore_Get (fs : files) (key : string) : result (list byte) :=
  match fs !! filePathToFile key with
  | None => Err ErrNotExist
  | Some content => Ok (Get_loop (S (length content)) content [])
  end.

(** [func (fs *fsStore) Delete(key string) error]: [os.Remove]. *)
Definition fsStore_Delete (fs : files) (key : string) : result files :=
  match fs !! filePathToFile key with
  | None => Err ErrNotExist
  | Some _ => Ok (delete (filePathToFile key) fs)
  end.

End WithPath.

End FsStore.

(** ** The store of pairings

    [storer] wraps a [Store] (an interface: [Set], [Get], [Delete],
    [KeysWithSuffix]) and keeps each [Pairing] as a JSON blob under the key
    [keyForPairingName(name)], the hex encoding of the name followed by
    [.pairing].  The model is a store that honours that contract (a [Get]
    returns what the last [Set] of the key stored) with [json.Marshal] and
    [json.Unmarshal] inverse to each other: a map from pairing names to
    pairings, the key of a name being determined by the name and conversely. *)

Module Storer.

Abbreviation storer := (gmap string Pairing).

(** [func (st *storer) Pairing(name string) (Pairing, error)] *)
Definition st_Pairing (st : storer) (name : string) : result Pairing :=
  match st !! name with
  | Some p => Ok p
  | None => Err ErrNotExist
  end.

(** [func (st *storer) SavePairing(p Pairing) error]: writes the key of
    [p.Name]. *)
Definition SavePairing (st : storer) (p : Pairing) : result storer :=
  Ok (<[Name p := p]> st).

(** [func (st *storer) DeletePairing(name string) error] *)
Definition DeletePairing (st : storer) (name : string) : result storer :=
  match st !! name with
  | Some _ => Ok (delete name st)
  | None => Err ErrNotExist
  end.

(** [func (st *storer) Pairings() []Pairing] *)
Definition Pairings (st : storer) : list Pairing := (map_to_list st).*2.

(** Modelled from the spec: the permission byte of a [Pairing], "0=user,
    1=admin" (the constants [PermissionUser], [PermissionAdmin] are not in the
    sources at hand). *)
Definition PermissionUser : byte := Byte.x00.
Definition PermissionAdmin : byte := Byte.x01.

(** Modelled from the spec: [Server.isPaired], "the accessory already has any
    pairing". *)
Definition isPaired (st : storer) : bool :=
  negb (Nat.eqb (length (Pairings st)) 0).

(** Modelled from the spec: [Server.pairedWithAdmin], whether an "admin
    Pairing remains" in the store. *)
Definition pairedWithAdmin (st : storer) : bool :=
  existsb (fun p => bool_decide (Permission p = PermissionAdmin)) (Pairings st).

(** Modelled from the spec: [Server.savePairing] and [Server.deletePairing]
    persist through the store ("Persist new Pairing", "remove the Pairing"). *)
Definition savePairing (st : storer) (p : Pairing) : result storer := SavePairing st p.
Definition deletePairing (st : storer) (p : Pairing) : result storer :=
  DeletePairing st (Name p).

(** Every pairing is stored under the key of its own name: so [SavePairing]
    leaves a store, starting from the empty one. *)
Definition store_wf (st : storer) : Prop :=
  forall (k : string) (p : Pairing), st !! k = Some p -> Name p = k.

End Storer.

(** ** session.go: the registry of sessions and connections *)

Module Registry.

(** [type PairSetupSession struct] (pair-setup-session.go); the SRP server
    session it embeds is kept by the SRP library and is not part of the model. *)
Record PairSetupSession : Type := mkPairSetupSession {
  ps_Identifier : list byte;
  ps_Salt : list byte;
  ps_PublicKey : list byte;
  ps_PrivateKey : list byte;
  ps_EncryptionKey : list byte;
}.

(** Modelled from the spec: [PairVerifySession] (its file is not in the
    sources at hand): "server ephemeral Curve25519 keypair, controller
    Curve25519 public, derived 32-B shared secret, derived 32-B session
    encryption key". *)
Record PairVerifySession : Type := mkPairVerifySession {
  pv_PublicKey : list byte;
  pv_PrivateKey : list byte;
  pv_OtherPublicKey : list byte;
  pv_SharedKey : list byte;
  pv_EncryptionKey : list byte;
}.

(** The values of [var sessions = make(map[string]interface{})], by dynamic type. *)
Inductive session_value : Type :=
  | SetupSession (s : PairSetupSession)
  | VerifySession (s : PairVerifySession)
  | EstablishedSession (s : Transport.Session).

(** Modelled from the spec: [Conn], "underlying byte-stream, reference to
    current Session"; only whether [Close] was called matters here. *)
Record Conn : Type := mkConn { closed : bool }.

Definition Close (c : Conn) : Conn := mkConn true.

(** The two global maps, [sessions] and [conns], keyed by remote address. *)
Record registry : Type := mkRegistry {
  sessions : gmap string session_value;
  conns : gmap string Conn;
}.

(** [GetSession(addr string)], returning a [Session] pointer or an error *)
Definition GetSession (reg : registry) (addr : string) : option Transport.Session :=
  match sessions reg !! addr with
  | Some (EstablishedSession s) => Some s
  | _ => None
  end.

(** [GetPairSetupSession(addr string)], returning a [PairSetupSession] pointer or an error *)
Definition GetPairSetupSession (reg : registry) (addr : string) : option PairSetupSession :=
  match sessions reg !! addr with
  | Some (SetupSession s) => Some s
  | _ => None
  end.

(** [func SetSession(addr string, sess interface{})] *)
Definition SetSession (reg : registry) (addr : string) (sess : session_value) : registry :=
  mkRegistry (<[addr := sess]> (sessions reg)) (conns reg).

(** [func Sessions() map[string]interface{}] and [func Conns() map[string]*Conn]
    return copies of the maps. *)
Definition Sessions (reg : registry) : gmap string session_value := sessions reg.
Definition Conns (reg : registry) : gmap string Conn := conns reg.

End Registry.

(** ** TLV8 replies

    Modelled from the spec: the error codes, "1=Unknown, 2=Authentication, ...
    6=Unavailable, 7=Busy, 2=InvalidRequest", and the step bytes of the source. *)

Module Tlv.

Definition TlvErrorUnknown : byte := Byte.x01.
Definition TlvErrorAuthentication : byte := Byte.x02.
Definition TlvErrorInvalidRequest : byte := Byte.x02.
Definition TlvErrorUnavailable : byte := Byte.x06.
Definition TlvErrorBusy : byte := Byte.x07.

(** Modelled from the spec: the method bytes ("Method byte (only Pair accepted;
    MFi returns InvalidRequest)", AddPairing, DeletePairing, ListPairings),
    with the values of the HAP specification; the handlers only compare them. *)
Definition MethodPair : byte := Byte.x00.
Definition MethodPairMFi : byte := Byte.x01.
Definition MethodAddPairing : byte := Byte.x03.
Definition MethodDeletePairing : byte := Byte.x04.
Definition MethodListPairings : byte := Byte.x05.

Definition Step1 : byte := Byte.x01.
Definition Step2 : byte := Byte.x02.
Definition Step3 : byte := Byte.x03.
Definition Step4 : byte := Byte.x04.
Definition Step5 : byte := Byte.x05.
Definition Step6 : byte := Byte.x06.

(** [type PairingPayload struct] (pairings.go) *)
Record PairingPayload : Type := mkPairingPayload {
  pp_Identifier : string;
  pp_PublicKey : option (list byte);
  pp_Permission : byte;
}.

(** What a handler writes with [tlv8Error(res, state, err)] or
    [tlv8OK(res, payload)], by payload type. *)
Inductive tlv_body : Type :=
  | TlvError (state err : byte)
  | TlvState (state : byte)
  | TlvStep2 (salt publicKey : list byte)
  | TlvStep4 (proof : list byte)
  | TlvStep6 (encryptedData : list byte)
  | TlvPairings (ps : list PairingPayload).

(** A reply: the status passed to [res.WriteHeader], if it was called, and the
    body; [JsonError] is [jsonError(res, status)]; [NoReply] stands for a
    handler that returns without writing, and [Panicked] for one that panics. *)
Inductive reply : Type :=
  | TlvReply (header : option Z) (body : tlv_body)
  | JsonErrorReply (status : Z)
  | NoReply
  | Panicked.

Definition StatusBadRequest : Z := 400.
Definition StatusInternalServerError : Z := 500.

End Tlv.

(** JSON status codes of the characteristic protocol (from the spec:
    "-70401=InsufficientPrivileges, -70402=ServiceCommunicationFailure,
    -70406=NotificationNotSupported, -70410=InvalidValueInRequest"). *)
Definition JsonStatusInsufficientPrivileges : Z := -70401.
Definition JsonStatusServiceCommunicationFailure : Z := -70402.
Definition JsonStatusNotificationNotSupported : Z := -70406.
Definition JsonStatusInvalidValueInRequest : Z := -70410.

(** ** Pair setup: the entry point and its three steps *)

Module PairSetup.
Import Storer Registry Tlv.

(** [type pairSetupPayload struct]: the fields the handlers read. *)
Record pairSetupPayload : Type := mkPairSetupPayload {
  Method : byte;
  PublicKey : list byte;
  Proof : list byte;
  EncryptedData : list byte;
  State : byte;
}.

(** The inner TLV8 record of step 5: [Identifier], [PublicKey], [Signature]. *)
Record step5Data : Type := mkStep5Data {
  enc_Identifier : string;
  enc_PublicKey : list byte;
  enc_Signature : list byte;
}.

(** The cryptographic and encoding functions the steps call, taken as given:
    [NewPairSetupSession(srv.uuid, srv.fmtPin())]; the SRP server session's
    [ComputeKey], [VerifyClientAuthenticator], [ComputeAuthenticator];
    [hkdf.Sha512]; [chacha20poly1305]; [ed25519]; [tlv8]; and the accessory's
    long-term key pair. *)
Record crypto : Type := mkCrypto {
  newPairSetupSession : result PairSetupSession;
  srp_ComputeKey : PairSetupSession -> list byte -> result (list byte);
  srp_VerifyClientAuthenticator : PairSetupSession -> list byte -> bool;
  srp_ComputeAuthenticator : PairSetupSession -> list byte -> list byte;
  hkdf_Sha512 : list byte -> list byte -> list byte -> result (list byte);
  chacha_DecryptAndVerify :
    list byte -> list byte -> list byte -> list byte -> list byte -> result (list byte);
  chacha_EncryptAndSeal :
    list byte -> list byte -> list byte -> list byte -> result (list byte * list byte);
  tlv8_Unmarshal : list byte -> result step5Data;
  tlv8_Marshal : list byte -> list byte -> list byte -> result (list byte);
  ed25519_ValidateSignature : list byte -> list byte -> list byte -> bool;
  ed25519_Signature : list byte -> list byte -> result (list byte);
  Key_Public : list byte;
  Key_Private : list byte;
}.

(** [data.State+1] on a byte. *)
Definition next_state (state : byte) : byte := byte_of_Z (Z_of_byte state + 1).

Definition set_PrivateKey (p : PairSetupSession) (key : list byte) : PairSetupSession :=
  mkPairSetupSession (ps_Identifier p) (ps_Salt p) (ps_PublicKey p) key (ps_EncryptionKey p).

Definition set_EncryptionKey (p : PairSetupSession) (key : list byte) : PairSetupSession :=
  mkPairSetupSession (ps_Identifier p) (ps_Salt p) (ps_PublicKey p) (ps_PrivateKey p) key.

Section WithCrypto.

Variable cr : crypto.

(** [ProofFromClientProof] (pair-setup-session.go) *)
Definition ProofFromClientProof (p : PairSetupSession) (clientProof : list byte)
  : result (list byte) :=
  if negb (srp_VerifyClientAuthenticator cr p clientProof) then Err ErrAEAD
  else Ok (srp_ComputeAuthenticator cr p clientProof).

(** [SetupPrivateKeyFromClientPublicKey]: sets [p.PrivateKey] on success. *)
Definition SetupPrivateKeyFromClientPublicKey (p : PairSetupSession) (key : list byte)
  : result PairSetupSession :=
  match srp_ComputeKey cr p key with
  | Ok k => Ok (set_PrivateKey p k)
  | Err e => Err e
  end.

(** [SetupEncryptionKey]: sets [p.EncryptionKey] on success. *)
Definition SetupEncryptionKey (p : PairSetupSession) (salt info : list byte)
  : result PairSetupSession :=
  match hkdf_Sha512 cr (ps_PrivateKey p) salt info with
  | Ok hash => Ok (set_EncryptionKey p hash)
  | Err e => Err e
  end.

(** [pairSetupStep1] *)
Definition pairSetupStep1 (reg : registry) (remote : string) (data : pairSetupPayload)
  : reply * registry :=
  match newPairSetupSession cr with
  | Err _ =>
      (TlvReply (Some StatusInternalServerError)
                (TlvError (next_state (State data)) TlvErrorUnknown), reg)
  | Ok ss =>
      (TlvReply None (TlvStep2 (ps_Salt ss) (ps_PublicKey ss)),
       SetSession reg remote (SetupSession ss))
  end.

(** [pairSetupStep3]; the session is a pointer into the registry, so what the
    calls set on it shows in the registry. *)
Definition pairSetupStep3 (reg : registry) (remote : string) (data : pairSetupPayload)
  : reply * registry :=
  match GetPairSetupSession reg remote with
  | None => (TlvReply (Some StatusInternalServerError) (TlvError Step2 TlvErrorUnknown), reg)
  | Some ses =>
      match SetupPrivateKeyFromClientPublicKey ses (PublicKey data) with
      | Err _ => (TlvReply None (TlvError (next_state (State data)) TlvErrorInvalidRequest), reg)
      | Ok ses1 =>
          let reg1 := SetSession reg remote (SetupSession ses1) in
          match ProofFromClientProof ses1 (Proof data) with
          | Err _ =>
              (TlvReply None (TlvError (next_state (State data)) TlvErrorInvalidRequest), reg1)
          | Ok proof =>
              match SetupEncryptionKey ses1
                      (String.list_byte_of_string "Pair-Setup-Encrypt-Salt")
                      (String.list_byte_of_string "Pair-Setup-Encrypt-Info") with
              | Err _ =>
                  (TlvReply None (TlvError (next_state (State data)) TlvErrorInvalidRequest),
                   reg1)
              | Ok ses2 =>
                  (TlvReply None (TlvStep4 proof), SetSession reg remote (SetupSession ses2))
              end
          end
      end
  end.

(** The value of a [[32]byte] or [[]byte] result whose error is dropped. *)
Definition or_zero (n : nat) (r : result (list byte)) : list byte :=
  match r with Ok b => b | Err _ => replicate n Byte.x00 end.

(** [pairSetupStep5].  Slicing [data.EncryptedData] 16 bytes before its end
    panics on a shorter slice; the errors of the first [hkdf.Sha512], of
    [EncryptAndSeal] and of [srv.savePairing] are dropped by the source. *)
Definition pairSetupStep5 (st : storer) (reg : registry) (remote : string)
  (data : pairSetupPayload) : reply * storer :=
  match GetPairSetupSession reg remote with
  | None => (TlvReply (Some StatusInternalServerError) (TlvError Step6 TlvErrorUnknown), st)
  | Some ses =>
      if Nat.ltb (length (EncryptedData data)) 16 then (Panicked, st)
      else
        let msg := take (length (EncryptedData data) - 16) (EncryptedData data) in
        let mac := drop (length msg) (EncryptedData data) in
        match chacha_DecryptAndVerify cr (ps_EncryptionKey ses)
                (String.list_byte_of_string "PS-Msg05") msg mac [] with
        | Err _ =>
            (TlvReply (Some StatusInternalServerError) (TlvError Step6 TlvErrorUnknown), st)
        | Ok decrypted =>
            match tlv8_Unmarshal cr decrypted with
            | Err _ => (TlvReply (Some StatusBadRequest) (TlvError Step6 TlvErrorUnknown), st)
            | Ok encData =>
                let hash := or_zero 32 (hkdf_Sha512 cr (ps_PrivateKey ses)
                              (String.list_byte_of_string "Pair-Setup-Controller-Sign-Salt")
                              (String.list_byte_of_string "Pair-Setup-Controller-Sign-Info")) in
                let buf := hash ++ String.list_byte_of_string (enc_Identifier encData)
                                ++ enc_PublicKey encData in
                if negb (ed25519_ValidateSignature cr (enc_PublicKey encData) buf
                           (enc_Signature encData))
                then (TlvReply None (TlvError Step6 TlvErrorInvalidRequest), st)
                else
                  match hkdf_Sha512 cr (ps_PrivateKey ses)
                          (String.list_byte_of_string "Pair-Setup-Accessory-Sign-Salt")
                          (String.list_byte_of_string "Pair-Setup-Accessory-Sign-Info") with
                  | Err _ => (TlvReply None (TlvError Step6 TlvErrorInvalidRequest), st)
                  | Ok hash2 =>
                      let buf2 := hash2 ++ ps_Identifier ses ++ Key_Public cr in
                      match ed25519_Signature cr (Key_Private cr) buf2 with
                      | Err _ => (TlvReply None (TlvError Step6 TlvErrorInvalidRequest), st)
                      | Ok signature =>
                          match tlv8_Marshal cr (ps_Identifier ses) (Key_Public cr) signature with
                          | Err _ => (TlvReply None (TlvError Step6 TlvErrorInvalidRequest), st)
                          | Ok b =>
                              let '(encrypted, mac6) :=
                                match chacha_EncryptAndSeal cr (ps_EncryptionKey ses)
                                        (String.list_byte_of_string "PS-Msg06") b [] with
                                | Ok em => em
                                | Err _ => ([], replicate 16 Byte.x00)
                                end in
                              let p := mkPairing (enc_Identifier encData)
                                                 (Some (enc_PublicKey encData))
                                                 PermissionAdmin in
                              (TlvReply None (TlvStep6 (encrypted ++ mac6)),
                               match savePairing st p with Ok st' => st' | Err _ => st end)
                          end
                      end
                  end
            end
        end
  end.

(** The range loop of the busy check (lines 48-54): some key of the map of
    sessions is not the address of the request.  Go ranges over a map in no
    fixed order; the loop returns on the first such key, whichever it is. *)
Definition other_session (ss : gmap string session_value) (remote : string) : bool :=
  existsb (fun kv => negb (bool_decide (kv.1 = remote))) (map_to_list ss).

(** [func (srv *Server) pairSetup(res, req)]; [body] is the result of
    [tlv8.UnmarshalReader(req.Body, &data)]. *)
Definition pairSetup (st : storer) (reg : registry) (remote : string)
  (body : result pairSetupPayload) : reply * storer * registry :=
  if isPaired st then (TlvReply None (TlvError Step2 TlvErrorUnavailable), st, reg)
  else if other_session (Sessions reg) remote
  then (TlvReply None (TlvError Step2 TlvErrorBusy), st, reg)
  else
    match body with
    | Err _ => (TlvReply (Some StatusBadRequest) (TlvError Step2 TlvErrorUnknown), st, reg)
    | Ok data =>
        if bool_decide (Method data = MethodPair) then
          if bool_decide (State data = Step1) then
            let '(r, reg') := pairSetupStep1 reg remote data in (r, st, reg')
          else if bool_decide (State data = Step3) then
            let '(r, reg') := pairSetupStep3 reg remote data in (r, st, reg')
          else if bool_decide (State data = Step5) then
            let '(r, st') := pairSetupStep5 st reg remote data in (r, st', reg)
          else (TlvReply (Some StatusBadRequest) (TlvError Step2 TlvErrorUnknown), st, reg)
        else if bool_decide (Method data = MethodPairMFi) then
          (TlvReply (Some StatusBadRequest) (TlvError Step2 TlvErrorInvalidRequest), st, reg)
        else
          (TlvReply (Some StatusBadRequest) (TlvError Byte.x00 TlvErrorInvalidRequest), st, reg)
    end.

End WithCrypto.

(** The reply is [TlvError=Busy]. *)
Definition is_Busy (r : reply) : bool :=
  match r with
  | TlvReply _ (TlvError _ err) => bool_decide (err = TlvErrorBusy)
  | _ => false
  end.

End PairSetup.

(** ** pairings.go: pairings administration *)

Module PairingsAdmin.
Import Storer Registry Tlv.

(** The request, as [tlv8.UnmarshalReader] fills the anonymous struct [d]. *)
Record pairingsRequest : Type := mkPairingsRequest {
  d_Method : byte;
  d_Identifier : string;
  d_PublicKey : option (list byte);
  d_Permission : byte;
  d_State : byte;
}.

Definition set_Permission (p : Pairing) (perm : byte) : Pairing :=
  mkPairing (Name p) (PublicKey p) perm.

(** [reflect.DeepEqual] on two [[]byte]: a nil slice and an empty one differ. *)
Definition DeepEqual (a b : option (list byte)) : bool := bool_decide (a = b).

(** The first loop over [Conns()] (lines 120-123): every connection is closed. *)
Definition close_all (cs : gmap string Conn) : gmap string Conn := Close <$> cs.

(** The second loop over [Conns()] (lines 128-138): a connection is closed
    when [GetSession] finds a [Session] for its address whose pairing has the
    name of the removed pairing. *)
Definition close_controller (reg : registry) (name : string) (addr : string) (conn : Conn)
  : Conn :=
  match GetSession reg addr with
  | None => conn
  | Some ss =>
      if bool_decide (Name (Transport.s_Pairing ss) = name) then Close conn else conn
  end.

Definition close_removed (reg : registry) (name : string) : gmap string Conn :=
  map_imap (fun addr conn => Some (close_controller reg name addr conn)) (Conns reg).

(** [case MethodAddPairing] (lines 48-86) *)
Definition addPairing (st : storer) (reg : registry) (ss : Transport.Session)
  (d : pairingsRequest) : reply * storer * registry :=
  if negb (bool_decide (Permission (Transport.s_Pairing ss) = PermissionAdmin))
  then (TlvReply None (TlvError Step2 TlvErrorAuthentication), st, reg)
  else
    let decided :=
      match st_Pairing st (d_Identifier d) with
      | Err _ => Some (mkPairing (d_Identifier d) (d_PublicKey d) (d_Permission d))
      | Ok p =>
          if negb (DeepEqual (PublicKey p) (d_PublicKey d)) then None
          else Some (set_Permission p (d_Permission d))
      end in
    match decided with
    | None => (TlvReply None (TlvError Step2 TlvErrorUnknown), st, reg)
    | Some p =>
        match savePairing st p with
        | Err _ => (TlvReply None (TlvError Step2 TlvErrorUnknown), st, reg)
        | Ok st' => (TlvReply None (TlvState Step2), st', reg)
        end
    end.

(** [case MethodDeletePairing] (lines 88-138) *)
Definition removePairing (st : storer) (reg : registry) (ss : Transport.Session)
  (d : pairingsRequest) : reply * storer * registry :=
  if negb (bool_decide (Permission (Transport.s_Pairing ss) = PermissionAdmin))
  then (TlvReply None (TlvError Step2 TlvErrorAuthentication), st, reg)
  else
    match st_Pairing st (d_Identifier d) with
    | Err _ => (TlvReply None (TlvError Step2 TlvErrorUnknown), st, reg)
    | Ok p =>
        match deletePairing st p with
        | Err _ => (TlvReply None (TlvError Step2 TlvErrorUnknown), st, reg)
        | Ok st' =>
            let cs := if negb (pairedWithAdmin st') then close_all (Conns reg)
                      else close_removed reg (Name p) in
            (TlvReply None (TlvState Byte.x02), st', mkRegistry (sessions reg) cs)
        end
    end.

(** [case MethodListPairings] (lines 140-151) *)
Definition listPairings (st : storer) : list PairingPayload :=
  (fun p => mkPairingPayload (Name p) (PublicKey p) (Permission p)) <$> Pairings st.

(** [func (srv *Server) Pairings(res, req)]; [body] is the result of
    [tlv8.UnmarshalReader(req.Body, &d)].  A method that matches no case of
    the switch gets no reply from the handler. *)
Definition Pairings_handler (st : storer) (reg : registry) (remote : string)
  (body : result pairingsRequest) : reply * storer * registry :=
  if negb (isPaired st) then (JsonErrorReply JsonStatusInsufficientPrivileges, st, reg)
  else
    match GetSession reg remote with
    | None =>
        (TlvReply (Some StatusInternalServerError) (TlvError Step2 TlvErrorUnknown), st, reg)
    | Some ss =>
        match body with
        | Err _ => (TlvReply (Some StatusBadRequest) (TlvError Step2 TlvErrorUnknown), st, reg)
        | Ok d =>
            if bool_decide (d_Method d = MethodAddPairing) then addPairing st reg ss d
            else if bool_decide (d_Method d = MethodDeletePairing) then removePairing st reg ss d
            else if bool_decide (d_Method d = MethodListPairings)
            then (TlvReply None (TlvPairings (listPairings st)), st, reg)
            else (NoReply, st, reg)
        end
    end.

End PairingsAdmin.

(** ** Characteristics: GET and PUT *)

Module Characteristics.

(** A JSON value held in an [interface{}]; a nil interface is [None]. *)
Inductive value : Type :=
  | VBool (b : bool)
  | VInt (z : Z)
  | VString (s : string).

#[global] Instance value_eq_dec : EqDecision value.
Proof. solve_decision. Defined.

(** Modelled from the spec: the permission tags of a characteristic
    ("permissions set", "Events permission"), with the spellings of the HAP
    JSON protocol; the catalogue files only name the constants. *)
Definition PermissionRead : string := "pr".
Definition PermissionWrite : string := "pw".
Definition PermissionEvents : string := "ev".

(** Modelled from the spec: the characteristic [characteristic.C], "numeric
    instance id (iid), type tag, format tag, unit, permissions set, optional
    min/max/step/maxLen, current value, per-subscriber events map
    {remote-addr -> bool}". *)
Record C : Type := mkC {
  c_Id : Z;
  c_Type : string;
  c_Permissions : list string;
  c_Format : string;
  c_Unit : string;
  c_MaxLen : Z;
  c_MinVal : option value;
  c_MaxVal : option value;
  c_StepVal : option value;
  c_Val : option value;
  c_Events : gmap string bool;
}.

Definition set_Events (c : C) (ev : gmap string bool) : C :=
  mkC (c_Id c) (c_Type c) (c_Permissions c) (c_Format c) (c_Unit c) (c_MaxLen c)
      (c_MinVal c) (c_MaxVal c) (c_StepVal c) (c_Val c) ev.

Definition set_Val (c : C) (v : option value) : C :=
  mkC (c_Id c) (c_Type c) (c_Permissions c) (c_Format c) (c_Unit c) (c_MaxLen c)
      (c_MinVal c) (c_MaxVal c) (c_StepVal c) v (c_Events c).

(** Modelled from the spec: [C.IsObservable], "observable" meaning that the
    characteristic has the "Events permission". *)
Definition IsObservable (c : C) : bool :=
  bool_decide (PermissionEvents ∈ c_Permissions c).

(** Services hold pointers to their characteristics, [Cs []*C]: a pointer is
    a location of the heap of characteristics.  Accessories and services are
    not changed by the handlers. *)
Abbreviation heap := (gmap nat C).

(** [service.S] and [accessory.A] ([S] is taken by the successor of [nat]). *)
Record service_S : Type := mkS { s_Cs : list nat }.
Record accessory_A : Type := mkA { a_Id : Z; a_Ss : list service_S }.

(** The server's accessories: [srv.a] and the bridged ones [srv.as]. *)
Record accessories : Type := mkAccessories { srv_a : accessory_A; srv_as : list accessory_A }.

(** [type CharacteristicData struct] *)
Record CharacteristicData : Type := mkCharacteristicData {
  Aid : Z;
  Iid : Z;
  Value : option value;
  Type_ : option string;
  Permissions : list string;
  Status : option Z;
  Events : option bool;
  Format : option string;
  Unit : option string;
  MinValue : option value;
  MaxValue : option value;
  MinStep : option value;
  MaxLen : option Z;
  Remote : option bool;
  Response : option bool;
}.

(** [&CharacteristicData{Aid: aid, Iid: iid}] *)
Definition newCharacteristicData (aid iid : Z) : CharacteristicData :=
  mkCharacteristicData aid iid None None [] None None None None None None None None None None.

Definition set_Value (d : CharacteristicData) (v : option value) : CharacteristicData :=
  mkCharacteristicData (Aid d) (Iid d) v (Type_ d) (Permissions d) (Status d) (Events d)
    (Format d) (Unit d) (MinValue d) (MaxValue d) (MinStep d) (MaxLen d) (Remote d) (Response d).

Definition set_Status (d : CharacteristicData) (st : option Z) : CharacteristicData :=
  mkCharacteristicData (Aid d) (Iid d) (Value d) (Type_ d) (Permissions d) st (Events d)
    (Format d) (Unit d) (MinValue d) (MaxValue d) (MinStep d) (MaxLen d) (Remote d) (Response d).

(** The element [d] of a PUT without its [ev] field. *)
Definition without_ev (d : CharacteristicData) : CharacteristicData :=
  mkCharacteristicData (Aid d) (Iid d) (Value d) (Type_ d) (Permissions d) (Status d) None
    (Format d) (Unit d) (MinValue d) (MaxValue d) (MinStep d) (MaxLen d) (Remote d) (Response d).

(** What a handler writes: [jsonError(res, status)], [jsonOK(res, resp)],
    [jsonMultiStatus(res, resp)], or [res.WriteHeader(http.StatusNoContent)]. *)
Inductive response : Type :=
  | JsonError (status : Z)
  | JsonOK (characteristics : list CharacteristicData)
  | JsonMultiStatus (characteristics : list CharacteristicData)
  | NoContent.

(** Modelled from the spec: the HTTP status of a reply, "200 OK if every
    element succeeded; 207 multi-status otherwise", "204 No Content"; the
    status [jsonError] sends is not given. *)
Definition http_status (r : response) : option Z :=
  match r with
  | JsonOK _ => Some 200
  | JsonMultiStatus _ => Some 207
  | NoContent => Some 204
  | JsonError _ => None
  end.

(** [strings.Split(s, sep)] for a one-character separator. *)
Fixpoint Split (s : string) (sep : ascii) : list string :=
  match s with
  | EmptyString => [EmptyString]
  | String c rest =>
      if Ascii.eqb c sep then EmptyString :: Split rest sep
      else match Split rest sep with
           | [] => [String c EmptyString]
           | x :: xs => String c x :: xs
           end
  end.

(** [func (srv *Server) findC(aid, iid uint64) *characteristic.C]: the first
    characteristic with instance id [iid] in an accessory with id [aid].  A
    pointer that is not allocated cannot occur in a service; the scan skips it. *)
Fixpoint find_in_Cs (h : heap) (cs : list nat) (iid : Z) : option nat :=
  match cs with
  | [] => None
  | l :: cs' =>
      match h !! l with
      | Some c => if c_Id c =? iid then Some l else find_in_Cs h cs' iid
      | None => find_in_Cs h cs' iid
      end
  end.

Fixpoint find_in_Ss (h : heap) (ss : list service_S) (iid : Z) : option nat :=
  match ss with
  | [] => None
  | s :: ss' =>
      match find_in_Cs h (s_Cs s) iid with
      | Some l => Some l
      | None => find_in_Ss h ss' iid
      end
  end.

Fixpoint find_in_As (h : heap) (accs : list accessory_A) (aid iid : Z) : option nat :=
  match accs with
  | [] => None
  | a :: accs' =>
      if a_Id a =? aid then
        match find_in_Ss h (a_Ss a) iid with
        | Some l => Some l
        | None => find_in_As h accs' aid iid
        end
      else find_in_As h accs' aid iid
  end.

Definition findC (srv : accessories) (h : heap) (aid iid : Z) : option nat :=
  find_in_As h (srv_a srv :: srv_as srv) aid iid.

Section WithHooks.

(** The value hooks of a characteristic, [c.ValueRequest(req)] and
    [c.SetValueRequest(v, req)], and the parser [to.Uint64], taken as given.
    Of the request the hooks get the remote address. *)
Variable ValueRequest : C -> string -> option value.
Variable SetValueRequest : C -> value -> string -> C.
Variable to_Uint64 : string -> Z.

(** The four projection flags of a GET: [meta], [perms], [type], [ev]. *)
Record projection : Type := mkProjection {
  want_meta : bool; want_perms : bool; want_type : bool; want_ev : bool;
}.

(** The body of the loop of [GetCharacteristics] (lines 74-127) for one
    element of the id list: [None] when the element is skipped by [continue]
    at line 76, else the response element and whether it set [err]. *)
Definition getCharacteristic (srv : accessories) (h : heap) (remote : string)
  (pr : projection) (str : string) : option (CharacteristicData * bool) :=
  match Split str "."%char with
  | [id0; id1] =>
      let cdata := newCharacteristicData (to_Uint64 id0) (to_Uint64 id1) in
      match findC srv h (Aid cdata) (Iid cdata) ≫= (fun l => h !! l) with
      | None => Some (set_Status cdata (Some JsonStatusServiceCommunicationFailure), true)
      | Some c =>
          Some (mkCharacteristicData (Aid cdata) (Iid cdata)
                  (ValueRequest c remote)
                  (if want_type pr then Some (c_Type c) else None)
                  (if want_perms pr then c_Permissions c else [])
                  None
                  (if want_ev pr then Some (default false (c_Events c !! remote)) else None)
                  (if want_meta pr then Some (c_Format c) else None)
                  (if want_meta pr then Some (c_Unit c) else None)
                  (if want_meta pr then c_MinVal c else None)
                  (if want_meta pr then c_MaxVal c else None)
                  (if want_meta pr then c_StepVal c else None)
                  (if want_meta pr && (0 <? c_MaxLen c) then Some (c_MaxLen c) else None)
                  None None, false)
      end
  | _ => None
  end.

Fixpoint getCharacteristics_loop (srv : accessories) (h : heap) (remote : string)
  (pr : projection) (strs : list string) (arr : list CharacteristicData) (err : bool)
  : list CharacteristicData * bool :=
  match strs with
  | [] => (arr, err)
  | str :: strs' =>
      match getCharacteristic srv h remote pr str with
      | None => getCharacteristics_loop srv h remote pr strs' arr err
      | Some (cdata, e) =>
          getCharacteristics_loop srv h remote pr strs' (arr ++ [cdata]) (err || e)
      end
  end.

(** [func (srv *Server) GetCharacteristics(res, req)]; [v] is
    [req.FormValue("id")]. *)
Definition GetCharacteristics (paired : bool) (srv : accessories) (h : heap)
  (remote : string) (v : string) (pr : projection) : response :=
  if negb paired then JsonError JsonStatusInsufficientPrivileges
  else if Nat.eqb (String.length v) 0 then JsonError JsonStatusInvalidValueInRequest
  else
    let '(arr, err) :=
      getCharacteristics_loop srv h remote pr (Split v ","%char) [] false in
    if err then JsonMultiStatus arr else JsonOK arr.

(** The characteristic after the [value] field of [d] was handled. *)
Definition written (c : C) (remote : string) (d : CharacteristicData) : C :=
  match Value d with
  | Some v => SetValueRequest c v remote
  | None => c
  end.

(** The body of the loop of [PutCharacteristics] (lines 163-193) for one
    element [d]: the heap afterwards and the entries appended to [arr].
    [cdata] is a pointer: appended once for the [r] field and once more for a
    refused [ev], it is one object, and both entries show its final fields. *)
Definition putCharacteristic (srv : accessories) (h : heap) (remote : string)
  (d : CharacteristicData) : heap * list CharacteristicData :=
  let cdata := newCharacteristicData (Aid d) (Iid d) in
  match findC srv h (Aid d) (Iid d) with
  | None => (h, [set_Status cdata (Some JsonStatusServiceCommunicationFailure)])
  | Some l =>
      match h !! l with
      | None => (h, [set_Status cdata (Some JsonStatusServiceCommunicationFailure)])
      | Some c =>
          (* if d.Response != nil *)
          let '(cdata, n) :=
            match Response d with
            | Some _ => (set_Value cdata (ValueRequest c remote), 1%nat)
            | None => (cdata, 0%nat)
            end in
          (* if d.Value != nil *)
          let c := written c remote d in
          (* if d.Events != nil *)
          match Events d with
          | None => (<[l := c]> h, replicate n cdata)
          | Some ev =>
              if negb (IsObservable c)
              then (<[l := c]> h,
                    replicate (S n)
                      (set_Status cdata (Some JsonStatusNotificationNotSupported)))
              else (<[l := set_Events c (<[remote := ev]> (c_Events c))]> h,
                    replicate n cdata)
          end
      end
  end.

Fixpoint putCharacteristics_loop (srv : accessories) (h : heap) (remote : string)
  (ds : list CharacteristicData) (arr : list CharacteristicData)
  : heap * list CharacteristicData :=
  match ds with
  | [] => (h, arr)
  | d :: ds' =>
      let '(h', entries) := putCharacteristic srv h remote d in
      putCharacteristics_loop srv h' remote ds' (arr ++ entries)
  end.

(** [func (srv *Server) PutCharacteristics(res, req)]; [body] is the result of
    decoding the JSON body into [data.Cs]. *)
Definition PutCharacteristics (paired : bool) (srv : accessories) (h : heap)
  (remote : string) (body : result (list CharacteristicData)) : response * heap :=
  if negb paired then (JsonError JsonStatusInsufficientPrivileges, h)
  else
    match body with
    | Err _ => (JsonError JsonStatusInvalidValueInRequest, h)
    | Ok cs =>
        let '(h', arr) := putCharacteristics_loop srv h remote cs [] in
        if Nat.eqb (length arr) 0 then (NoContent, h') else (JsonMultiStatus arr, h')
    end.

End WithHooks.

(** An element that only subscribes or unsubscribes, with success: it has an
    [ev] field and no [r] field, and its characteristic exists and is
    observable. *)
Definition ev_update (srv : accessories) (h : heap) (d : CharacteristicData) : Prop :=
  Response d = None /\ is_Some (Events d) /\
  exists (l : nat) (c : C),
    findC srv h (Aid d) (Iid d) = Some l /\ h !! l = Some c /\ IsObservable c = true.

(** Two heaps with the same characteristics up to their values and events. *)
Definition same_shape (h h' : heap) : Prop :=
  forall l : nat,
    (fun c => (c_Id c, c_Permissions c)) <$> h !! l
    = (fun c => (c_Id c, c_Permissions c)) <$> h' !! l.

(** Modelled from the spec: the hooks of a characteristic with no callback
    installed: the read hook returns "the current value", the write hook
    stores the value. *)
Definition read_Val (c : C) (remote : string) : option value := c_Val c.
Definition write_Val (c : C) (v : value) (remote : string) : C := set_Val c (Some v).

(** An accessory (aid 1) with two characteristics: a writable, observable
    switch (iid 10, off), and a name (iid 9) that can only be read. *)
Definition switch_On : C :=
  mkC 10 "25" [PermissionRead; PermissionWrite; PermissionEvents] "bool" "" 0
      None None None (Some (VBool false)) ∅.

Definition switch_Name : C :=
  mkC 9 "23" [PermissionRead] "string" "" 0 None None None (Some (VString "lamp")) ∅.

Definition switch_heap : heap := {[ 0%nat := switch_On; 1%nat := switch_Name ]}.

Definition switch_accessories : accessories :=
  mkAccessories (mkA 1 [mkS [0%nat; 1%nat]]) [].

End Characteristics.

(** Stand-ins for the cryptographic functions, to run [pairSetup] on examples:
    every operation fails. *)
Definition no_crypto : PairSetup.crypto :=
  PairSetup.mkCrypto (Err ErrSeal) (fun _ _ => Err ErrSeal) (fun _ _ => false)
    (fun _ _ => []) (fun _ _ _ => Err ErrSeal) (fun _ _ _ _ _ => Err ErrAEAD)
    (fun _ _ _ _ => Err ErrSeal) (fun _ => Err ErrSeal) (fun _ _ _ => Err ErrSeal)
    (fun _ _ _ => false) (fun _ _ => Err ErrSeal) [] [].

(** A registry in which one controller, at another address, is in the middle
    of pair-verify, and nobody is in pair-setup. *)
Definition verifying_registry : Registry.registry :=
  Registry.mkRegistry
    {[ "192.168.0.7:51000" := Registry.VerifySession
                                (Registry.mkPairVerifySession [] [] [] [] []) ]}
    ∅.

(** A store with one admin pairing, and a registry in which its controller
    holds an established session on an open connection. *)
Definition admin_store : Storer.storer :=
  {[ "controller" := Transport.example_pairing ]}.

Definition admin_registry : Registry.registry :=
  Registry.mkRegistry
    {[ "192.168.0.5:50000" := Registry.EstablishedSession Transport.example_session ]}
    {[ "192.168.0.5:50000" := Registry.mkConn false ]}.

(** ** session.go: the rest of the registry *)

Module RegistryEvents.
Import Registry.

(** [http.ConnState] *)
Inductive ConnState : Type :=
  | StateNew | StateActive | StateIdle | StateHijacked | StateClosed.

(** [func ConnStateEvent(conn net.Conn, event http.ConnState)]; [addr] is
    [conn.RemoteAddr().String()]. *)
Definition ConnStateEvent (reg : registry) (addr : string) (event : ConnState) : registry :=
  match event with
  | StateClosed => mkRegistry (delete addr (sessions reg)) (delete addr (conns reg))
  | _ => reg
  end.

(** [GetPairVerifySession(addr string)], returning a [PairVerifySession]
    pointer or an error. *)
Definition GetPairVerifySession (reg : registry) (addr : string) : option PairVerifySession :=
  match sessions reg !! addr with
  | Some (VerifySession s) => Some s
  | _ => None
  end.

(** [func SetConn(addr string, conn *Conn)] *)
Definition SetConn (reg : registry) (addr : string) (conn : Conn) : registry :=
  mkRegistry (sessions reg) (<[addr := conn]> (conns reg)).

(** [GetConn(req)], keyed by [req.RemoteAddr]; nil when there is none. *)
Definition GetConn (reg : registry) (addr : string) : option Conn := conns reg !! addr.

End RegistryEvents.

(** ** The store of pairings on the file system store

    [storer] on top of [fsStore]: the keys of pairings and the pairing
    methods, with [json.Marshal] and [json.Unmarshal] taken as given. *)

Module FsStorer.
Import FsStore.

(** [hex.EncodeToString]: two digits of [0123456789abcdef] per byte, the high
    nibble first. *)
Definition hextable : string := "0123456789abcdef".

Definition hexdigit (n : nat) : ascii := default "0"%char (String.get n hextable).

Definition hex_byte (b : byte) : string :=
  String (hexdigit (Byte.to_nat b / 16))
    (String (hexdigit (Byte.to_nat b mod 16)) EmptyString).

Fixpoint EncodeToString (src : list byte) : string :=
  match src with
  | [] => EmptyString
  | b :: rest => String.append (hex_byte b) (EncodeToString rest)
  end.

(** [keyForPairingName]: [hex.EncodeToString([]byte(s)) + ".pairing"] *)
Definition keyForPairingName (s : string) : string :=
  String.append (EncodeToString (String.list_byte_of_string s)) ".pairing".

(** [keyForName]: [hex.EncodeToString([]byte(s)) + ".entity"] *)
Definition keyForName (s : string) : string :=
  String.append (EncodeToString (String.list_byte_of_string s)) ".entity".

(** The value of a hex digit, and the bytes of the longest prefix of a string
    made of pairs of hex digits: what [EncodeToString] is read back with. *)
Fixpoint index_of (c : ascii) (table : string) : option nat :=
  match table with
  | EmptyString => None
  | String c' rest => if Ascii.eqb c c' then Some 0%nat else Datatypes.S <$> index_of c rest
  end.

Fixpoint decode_hex (s : string) : list byte :=
  match s with
  | String c1 (String c2 rest) =>
      match index_of c1 hextable, index_of c2 hextable with
      | Some hi, Some lo =>
          match Byte.of_nat (16 * hi + lo) with
          | Some b => b :: decode_hex rest
          | None => []
          end
      | _, _ => []
      end
  | _ => []
  end.

Section WithJSON.

Variable json_Marshal : Pairing -> result (list byte).
Variable json_Unmarshal : list byte -> result Pairing.

(** The directory of the [fsStore] that the [storer] wraps. *)
Variable Path : string.

(** [func (st *storer) SetString(key, value)] and [GetString(key)] *)
Definition SetString (fs : files) (key value : string) : files :=
  fsStore_Set Path fs key (String.list_byte_of_string value).

Definition GetString (fs : files) (key : string) : result string :=
  match fsStore_Get Path fs key with
  | Ok b => Ok (String.string_of_list_byte b)
  | Err e => Err e
  end.

(** [func (st *storer) pairingForKey(key string) (p Pairing, err error)] *)
Definition pairingForKey (fs : files) (key : string) : result Pairing :=
  match fsStore_Get Path fs key with
  | Ok b => json_Unmarshal b
  | Err e => Err e
  end.

(** [func (st *storer) Pairing(name string) (Pairing, error)] *)
Definition storer_Pairing (fs : files) (name : string) : result Pairing :=
  pairingForKey fs (keyForPairingName name).

(** [func (st *storer) SavePairing(p Pairing) error] *)
Definition storer_SavePairing (fs : files) (p : Pairing) : result files :=
  match json_Marshal p with
  | Ok b => Ok (fsStore_Set Path fs (keyForPairingName (Name p)) b)
  | Err e => Err e
  end.

(** [func (st *storer) DeletePairing(name string) error] *)
Definition storer_DeletePairing (fs : files) (name : string) : result files :=
  fsStore_Delete Path fs (keyForPairingName name).

End WithJSON.

(** A stand-in for the JSON codec on one pairing, to run the definitions. *)
Definition toy_Marshal (p : Pairing) : result (list byte) :=
  Ok (String.list_byte_of_string (Name p)).

Definition toy_Unmarshal (b : list byte) : result Pairing :=
  Ok (mkPairing (String.string_of_list_byte b) None Byte.x00).

End FsStorer.

(** A registry in which a controller without admin permission holds an
    established session. *)
Definition user_session : Transport.Session :=
  Transport.mkSession (mkPairing "guest" (Some (replicate 32 Byte.x08)) Storer.PermissionUser)
    (replicate 32 Byte.x03) (replicate 32 Byte.x04) 0 0.

Definition user_registry : Registry.registry :=
  Registry.mkRegistry
    {[ "192.168.0.9:40000" := Registry.EstablishedSession user_session ]}
    {[ "192.168.0.9:40000" := Registry.mkConn false ]}.

(** Stand-ins for the cryptographic functions with which step 1 succeeds. *)
Definition example_setup_session : Registry.PairSetupSession :=
  Registry.mkPairSetupSession (String.list_byte_of_string "acc") (replicate 16 Byte.x05)
    (replicate 384 Byte.x06) [] [].

Definition step1_crypto : PairSetup.crypto :=
  PairSetup.mkCrypto (Ok example_setup_session) (fun _ _ => Err ErrSeal) (fun _ _ => false)
    (fun _ _ => []) (fun _ _ _ => Err ErrSeal) (fun _ _ _ _ _ => Err ErrAEAD)
    (fun _ _ _ _ => Err ErrSeal) (fun _ => Err ErrSeal) (fun _ _ _ => Err ErrSeal)
    (fun _ _ _ => false) (fun _ _ => Err ErrSeal) [] [].

(** A registry in which the requester is in the middle of pair-setup. *)
Definition setup_registry : Registry.registry :=
  Registry.mkRegistry
    {[ "192.168.0.5:50000" := Registry.SetupSession example_setup_session ]} ∅.

(** * Properties *)

(** ** Little-endian encodings *)

Lemma Z_of_byte_range (b : byte) : 0 <= Z_of_byte b < 256.
Proof.
  unfold Z_of_byte. pose proof (Byte.to_N_bounded b) as Hb.
  split; [apply N2Z.is_nonneg | lia].
Qed.

Lemma Z_of_byte_of_Z (z : Z) : Z_of_byte (byte_of_Z z) = z mod 256.
Proof.
  unfold Z_of_byte, byte_of_Z.
  assert (Hr : 0 <= z mod 256 < 256) by (apply Z.mod_pos_bound; lia).
  destruct (Byte.of_N (Z.to_N (z mod 256))) as [b|] eqn:E.
  - apply Byte.to_of_N in E. rewrite E. rewrite Z2N.id; lia.
  - apply Byte.of_N_None_iff in E. lia.
Qed.

Lemma length_le_bytes (n : nat) (z : Z) : length (le_bytes n z) = n.
Proof. revert z. induction n as [|n IH]; intros z; simpl; [reflexivity | now rewrite IH]. Qed.

Lemma le_value_le_bytes (n : nat) (z : Z) :
  le_value (le_bytes n z) = z mod 256 ^ Z.of_nat n.
Proof.
  revert z. induction n as [|n IH]; intros z.
  - simpl. now rewrite Z.mod_1_r.
  - cbn [le_bytes le_value]. rewrite IH, Z_of_byte_of_Z.
    rewrite Nat2Z.inj_succ, Z.pow_succ_r by lia.
    rewrite (Z.rem_mul_r z 256 (256 ^ Z.of_nat n)) by lia. reflexivity.
Qed.

Lemma Uint16_PutUint16 (z : Z) : 0 <= z < 2 ^ 16 -> Uint16 (PutUint16 z) = z.
Proof.
  intros Hz. unfold Uint16, PutUint16, wrap16. rewrite le_value_le_bytes.
  change (256 ^ Z.of_nat 2) with (2 ^ 16). rewrite Z.mod_mod by lia.
  apply Z.mod_small; lia.
Qed.

Lemma PutUint64_inj (a b : Z) :
  0 <= a < 2 ^ 64 -> 0 <= b < 2 ^ 64 -> PutUint64 a = PutUint64 b -> a = b.
Proof.
  intros Ha Hb Heq. apply (f_equal le_value) in Heq.
  unfold PutUint64 in Heq. rewrite !le_value_le_bytes in Heq.
  change (256 ^ Z.of_nat 8) with (2 ^ 64) in Heq.
  rewrite !Z.mod_small in Heq; lia.
Qed.

Lemma wrap64_range (z : Z) : 0 <= wrap64 z < 2 ^ 64.
Proof. unfold wrap64. apply Z.mod_pos_bound. lia. Qed.

(** ** Packets *)

Module TransportFacts.
Import Transport.

(** One turn of the loop of [packetsWithSizeFromBytes], in closed form. *)
Lemma packets_loop_unfold (fuel size : nat) (r : list byte) :
  (0 < size)%nat ->
  packets_loop (S fuel) size r =
    match r with
    | [] => []
    | _ => if Nat.ltb (length r) size then [mkPacket (Z.of_nat (length r)) r]
           else mkPacket (Z.of_nat size) (take size r) :: packets_loop fuel size (drop size r)
    end.
Proof.
  intros Hsize. destruct r as [|b r']; [reflexivity|].
  cbn [packets_loop Reader.Read]. set (r := b :: r').
  assert (Hlen : (0 < length r)%nat) by (subst r; simpl; lia).
  rewrite length_take. rewrite orb_false_r.
  destruct (Nat.ltb_spec (length r) size) as [Hlt|Hge].
  - rewrite Nat.min_r by lia.
    destruct (Nat.eqb_spec (length r) 0) as [?|_]; [lia|].
    rewrite take_ge by lia.
    destruct (Nat.ltb_spec (length r) size); [reflexivity | lia].
  - rewrite Nat.min_l by lia.
    destruct (Nat.eqb_spec size 0) as [?|_]; [lia|].
    rewrite Nat.ltb_irrefl. reflexivity.
Qed.

(** The packet at index [i] is the [i]-th slice of [size] bytes of the input. *)
Lemma packets_loop_lookup (fuel size : nat) (r : list byte) (i : nat) :
  (0 < size)%nat -> (length r < fuel)%nat ->
  packets_loop fuel size r !! i =
    if Nat.ltb (i * size) (length r)
    then Some (mkPacket (Z.of_nat (length (take size (drop (i * size) r))))
                        (take size (drop (i * size) r)))
    else None.
Proof.
  intros Hsize. revert r i. induction fuel as [|fuel IH]; intros r i Hfuel; [lia|].
  rewrite packets_loop_unfold by assumption.
  destruct r as [|b r']; [reflexivity|]. set (r := b :: r') in *.
  assert (Hlen : (0 < length r)%nat) by (subst r; simpl; lia).
  destruct (Nat.ltb_spec (length r) size) as [Hlt|Hge].
  - destruct i as [|i].
    + simpl Nat.mul. destruct (Nat.ltb_spec 0 (length r)); [|lia].
      rewrite drop_0, take_ge by lia. reflexivity.
    + destruct (Nat.ltb_spec (S i * size) (length r)); [nia | reflexivity].
  - destruct i as [|i].
    + simpl Nat.mul. destruct (Nat.ltb_spec 0 (length r)); [|lia].
      rewrite drop_0, length_take, Nat.min_l by lia. reflexivity.
    + cbn [lookup list_lookup]. rewrite IH by (rewrite length_drop; lia).
      rewrite length_drop, drop_drop.
      replace (size + i * size)%nat with (S i * size)%nat by lia.
      destruct (Nat.ltb_spec (i * size) (length r - size));
        destruct (Nat.ltb_spec (S i * size) (length r)); try reflexivity; lia.
Qed.

End TransportFacts.

Module TransportPackets.
Import Transport TransportFacts.

Lemma packets_loop_concat (fuel size : nat) (r : list byte) :
  (0 < size)%nat -> (length r < fuel)%nat ->
  concat (p_value <$> packets_loop fuel size r) = r.
Proof.
  intros Hsize. revert r. induction fuel as [|fuel IH]; intros r Hfuel; [lia|].
  rewrite packets_loop_unfold by assumption.
  destruct r as [|b r']; [reflexivity|].
  remember (b :: r') as r eqn:Er.
  assert (Hlen : (0 < length r)%nat) by (subst r; simpl; lia).
  clear Er b r'.
  destruct (Nat.ltb_spec (length r) size) as [Hlt|Hge].
  - simpl. apply app_nil_r.
  - rewrite fmap_cons, concat_cons. cbn [p_value].
    rewrite IH by (rewrite length_drop; lia).
    apply take_drop.
Qed.

Lemma packetsFromBytes_lookup (r : list byte) (i : nat) :
  packetsFromBytes r !! i =
    if Nat.ltb (i * 1024) (length r)
    then Some (mkPacket (Z.of_nat (length (take 1024 (drop (i * 1024) r))))
                        (take 1024 (drop (i * 1024) r)))
    else None.
Proof.
  unfold packetsFromBytes, packetsWithSizeFromBytes.
  change (Z.to_nat PacketLengthMax) with 1024%nat.
  apply packets_loop_lookup; lia.
Qed.

(** C2 (as amended): [packetsFromBytes], from which [Session.Encrypt] makes one
    frame per packet, splits every input into non-empty chunks of at most 0x400
    bytes whose concatenation is the input; every chunk but the last is exactly
    0x400 bytes long; and the terminal chunk is strictly shorter than 0x400
    exactly when the input length is not a multiple of 0x400, so that for a
    positive exact multiple of 0x400 the terminal chunk is a full one. *)
Theorem packetsFromBytes_chunks (r : list byte) :
  let ps := packetsFromBytes r in
  concat (p_value <$> ps) = r /\
  (forall (i : nat) (p : packet), ps !! i = Some p ->
     p_length p = Z.of_nat (length (p_value p)) /\
     0 < p_length p <= PacketLengthMax /\
     ((S i < length ps)%nat -> p_length p = PacketLengthMax)) /\
  (forall p : packet, last ps = Some p ->
     (p_length p < PacketLengthMax <-> Z.of_nat (length r) mod PacketLengthMax <> 0)) /\
  (r = [] -> ps = []).
Proof.
  intros ps. subst ps. split; [|split; [|split]].
  - unfold packetsFromBytes, packetsWithSizeFromBytes.
    apply packets_loop_concat; [change (Z.to_nat PacketLengthMax) with 1024%nat|]; lia.
  - intros i p Hp. rewrite packetsFromBytes_lookup in Hp.
    destruct (Nat.ltb_spec (i * 1024) (length r)) as [Hi|Hi]; [|discriminate].
    injection Hp as <-. cbn [p_length p_value]. unfold PacketLengthMax.
    rewrite length_take, length_drop. split; [reflexivity|]. split; [lia|].
    intros HS. apply lookup_lt_is_Some_2 in HS. destruct HS as [q Hq].
    rewrite packetsFromBytes_lookup in Hq.
    destruct (Nat.ltb_spec (S i * 1024) (length r)) as [Hi'|Hi']; [|discriminate].
    lia.
  - intros p Hp. rewrite last_lookup in Hp.
    remember (pred (length (packetsFromBytes r))) as i eqn:Ei.
    assert (Hnext : packetsFromBytes r !! S i = None).
    { apply lookup_ge_None_2. lia. }
    rewrite packetsFromBytes_lookup in Hp, Hnext.
    destruct (Nat.ltb_spec (i * 1024) (length r)) as [Hi|Hi]; [|discriminate].
    destruct (Nat.ltb_spec (S i * 1024) (length r)) as [Hi'|Hi']; [discriminate|].
    injection Hp as <-. cbn [p_length]. unfold PacketLengthMax.
    rewrite length_take, length_drop.
    destruct (Nat.eq_dec (length r) (S i * 1024)%nat) as [He|Hne].
    + rewrite He. rewrite Nat2Z.inj_mul, Z_mod_mult. lia.
    + assert (Hm : Z.of_nat (length r) mod 1024 = Z.of_nat (length r) - Z.of_nat i * 1024).
      { symmetry. apply (Z.mod_unique_pos _ _ (Z.of_nat i)); lia. }
      rewrite Hm. lia.
  - intros ->. reflexivity.
Qed.

(** C2, as the claim states it, fails on an input of exactly 0x400 bytes: the
    only (hence terminal) chunk is 0x400 bytes long, not strictly shorter. *)
Lemma packetsFromBytes_full_terminal_chunk :
  let r := replicate 1024 Byte.x00 in
  packetsFromBytes r = [mkPacket 0x400 r] /\
  ~ (exists p, last (packetsFromBytes r) = Some p /\ p_length p < PacketLengthMax).
Proof.
  assert (E : packetsFromBytes (replicate 1024 Byte.x00)
              = [mkPacket 0x400 (replicate 1024 Byte.x00)]) by (vm_compute; reflexivity).
  cbv zeta. split; [exact E|].
  rewrite E. intros (p & Hp & Hlt). simpl in Hp. injection Hp as <-.
  simpl in Hlt. unfold PacketLengthMax in Hlt. lia.
Qed.

End TransportPackets.

(** ** Counters *)


Lemma iter_incr64_wrap (k : nat) (c : Z) :
  0 <= c < 2 ^ 64 -> Nat.iter k incr64 c = wrap64 (c + Z.of_nat k).
Proof.
  intros Hc. induction k as [|k IH].
  - simpl. unfold wrap64. rewrite Z.add_0_r, Z.mod_small; lia.
  - rewrite Nat.iter_succ, IH. unfold incr64, wrap64.
    rewrite Zplus_mod_idemp_l. f_equal. lia.
Qed.

Module TransportCounters.
Import Transport.

Lemma ReadFull_length (r : list byte) (size : nat) (a r' : list byte) :
  Reader.ReadFull r size = Ok (a, r') ->
  length a = size /\ (length r' + size = length r)%nat.
Proof.
  unfold Reader.ReadFull. destruct (Nat.eqb_spec size 0) as [->|Hs].
  - intros [= <- <-]. simpl. lia.
  - destruct r as [|b r0]; [discriminate|].
    destruct (Nat.ltb_spec (length (b :: r0)) size) as [Hlt|Hge]; [discriminate|].
    intros [= <- <-]. rewrite length_take, length_drop. lia.
Qed.

(** A frame read in full takes at least its 2 length bytes and 16 tag bytes. *)
Lemma readFrame_length (r : list byte) (len : Z) (b mac rest : list byte) :
  readFrame r = Frame len b mac rest -> (length rest + 18 <= length r)%nat.
Proof.
  unfold readFrame.
  destruct (Reader.ReadFull r 2) as [[lenb r1]|e] eqn:E1; [|destruct e; discriminate].
  destruct (Reader.ReadFull r1 _) as [[b' r2]|e] eqn:E2; [|discriminate].
  destruct (Reader.ReadFull r2 16) as [[mac' r3]|e] eqn:E3; [|discriminate].
  intros [= <- <- <- <-].
  apply ReadFull_length in E1, E2, E3. lia.
Qed.

Section Counters.

Variable EncryptAndSeal :
  list byte -> list byte -> list byte -> list byte -> result (list byte * list byte).
Variable DecryptAndVerify :
  list byte -> list byte -> list byte -> list byte -> list byte -> result (list byte).




End Counters.


End TransportCounters.

(** ** Round trip through a peer session *)

Module TransportRoundTrip.
Import Transport TransportFacts TransportCounters.

Lemma packets_loop_chunked (fuel : nat) (r : list byte) :
  (length r < fuel)%nat -> chunked (packets_loop fuel 1024 r).
Proof.
  revert r. induction fuel as [|fuel IH]; intros r Hfuel; [lia|].
  rewrite packets_loop_unfold by lia.
  destruct r as [|b r']; [exact I|].
  remember (b :: r') as r eqn:Er.
  assert (Hlen : (0 < length r)%nat) by (subst r; simpl; lia).
  clear Er b r'. unfold PacketLengthMax in *.
  destruct (Nat.ltb_spec (length r) 1024) as [Hlt|Hge]; cbn [chunked p_length p_value].
  - unfold PacketLengthMax. repeat split; try lia. intros H; now contradiction H.
  - unfold PacketLengthMax. rewrite length_take.
    repeat split; try lia. apply IH. rewrite length_drop. lia.
Qed.

Lemma packetsFromBytes_chunked (r : list byte) : chunked (packetsFromBytes r).
Proof.
  unfold packetsFromBytes, packetsWithSizeFromBytes.
  change (Z.to_nat PacketLengthMax) with 1024%nat.
  apply packets_loop_chunked. lia.
Qed.

Lemma chunked_app_inv (ps1 ps2 : list packet) :
  chunked (ps1 ++ ps2) -> chunked ps1 /\ chunked ps2.
Proof.
  induction ps1 as [|p ps1 IH]; intros H; [split; [exact I | exact H]|].
  cbn [app chunked] in *. destruct H as (Hl & Hr & Hfull & Hrest).
  destruct (IH Hrest) as [H1 H2]. repeat split; try assumption; try lia.
  intros Hne. apply Hfull. destruct ps1; [contradiction | discriminate].
Qed.

(** Before the last packet, all packets are full. *)
Lemma chunked_full_prefix (ps1 ps2 : list packet) :
  chunked (ps1 ++ ps2) -> ps2 <> [] ->
  Forall (fun p => p_length p = PacketLengthMax) ps1.
Proof.
  induction ps1 as [|p ps1 IH]; intros H Hne; [constructor|].
  cbn [app chunked] in H. destruct H as (Hl & Hr & Hfull & Hrest). constructor.
  - apply Hfull. destruct ps1; [assumption | discriminate].
  - now apply IH.
Qed.

Lemma ReadFull_app (a rest : list byte) :
  Reader.ReadFull (a ++ rest) (length a) = Ok (a, rest).
Proof.
  unfold Reader.ReadFull. destruct a as [|x a]; [reflexivity|].
  remember (x :: a) as xa eqn:Exa.
  assert (Hn : length xa <> 0%nat) by (subst xa; discriminate).
  destruct (Nat.eqb_spec (length xa) 0) as [?|_]; [contradiction|].
  destruct (xa ++ rest) as [|y l] eqn:El.
  - apply (f_equal length) in El. rewrite length_app in El. simpl in El. lia.
  - rewrite <- El.
    destruct (Nat.ltb_spec (length (xa ++ rest)) (length xa)) as [Hlt|_].
    + rewrite length_app in Hlt. lia.
    + now rewrite take_app_length, drop_app_length.
Qed.

Lemma readFrame_frame (len : Z) (c mac rest : list byte) :
  0 <= len < 2 ^ 16 -> length c = Z.to_nat len -> length mac = 16%nat ->
  readFrame ((PutUint16 len ++ c ++ mac) ++ rest) = Frame len c mac rest.
Proof.
  intros Hlen Hc Hmac. unfold readFrame. rewrite <- !app_assoc.
  replace 2%nat with (length (PutUint16 len)) at 1 by apply length_le_bytes.
  rewrite ReadFull_app, Uint16_PutUint16 by assumption.
  rewrite <- Hc, ReadFull_app. rewrite <- Hmac, ReadFull_app. reflexivity.
Qed.

Lemma Decrypt_loop_fuel
  (DecryptAndVerify : list byte -> list byte -> list byte -> list byte -> list byte -> result (list byte))
  (f1 f2 : nat) (s : Session) (r buf : list byte) (c : nat) :
  (length r < f1)%nat -> (length r < f2)%nat ->
  Decrypt_loop DecryptAndVerify f1 s r buf c = Decrypt_loop DecryptAndVerify f2 s r buf c.
Proof.
  revert f2 s r buf c. induction f1 as [|f1 IH]; intros f2 s r buf c H1 H2; [lia|].
  destruct f2 as [|f2]; [lia|]. cbn [Decrypt_loop].
  destruct (readFrame r) as [|e|len b mac rest] eqn:Hf; try reflexivity.
  apply readFrame_length in Hf.
  destruct (DecryptAndVerify _ _ _ _ _); [|reflexivity].
  destruct (len <? PacketLengthMax); [reflexivity|]. apply IH; lia.
Qed.

Section RoundTrip.

Variable EncryptAndSeal :
  list byte -> list byte -> list byte -> list byte -> result (list byte * list byte).
Variable DecryptAndVerify :
  list byte -> list byte -> list byte -> list byte -> list byte -> result (list byte).

(** What is assumed of the AEAD, for 32-byte keys: sealing succeeds, keeps
    the length of the message and makes a 16-byte tag; opening what was
    sealed, under the same key, nonce and additional data, gives the message
    back; and opening it under another 8-byte nonce is refused. *)
Hypothesis seal_total : forall k n p a, length k = 32%nat ->
  exists c mac, EncryptAndSeal k n p a = Ok (c, mac) /\
                length c = length p /\ length mac = 16%nat.
Hypothesis open_sealed : forall k n p a c mac, length k = 32%nat ->
  EncryptAndSeal k n p a = Ok (c, mac) -> DecryptAndVerify k n c mac a = Ok p.
Hypothesis open_other_nonce : forall k n n' p a a' c mac, length k = 32%nat ->
  length n = 8%nat -> length n' = 8%nat -> n <> n' ->
  EncryptAndSeal k n p a = Ok (c, mac) -> is_Ok (DecryptAndVerify k n' c mac a') = false.

Local Abbreviation run := (Decrypt_loop DecryptAndVerify).

Lemma run_S (fuel : nat) (s : Session) (r buf : list byte) (consumed : nat) :
  run (S fuel) s r buf consumed =
    match readFrame r with
    | FrameEOF => (Ok buf, s, consumed)
    | FrameErr e => (Err e, s, consumed)
    | Frame length b mac rest =>
        match DecryptAndVerify (decryptKey (stepD s)) (PutUint64 (decryptCount s)) b mac
                               (PutUint16 (wrap16 length)) with
        | Err _ => (Err ErrAEAD, stepD s, S consumed)
        | Ok decrypted =>
            if length <? PacketLengthMax then (Ok (buf ++ decrypted), stepD s, S consumed)
            else run fuel (stepD s) rest (buf ++ decrypted) (S consumed)
        end
    end.
Proof. reflexivity. Qed.

Lemma encryptPacket_sealed (s : Session) (p : packet) :
  length (encryptKey s) = 32%nat ->
  exists c mac,
    EncryptAndSeal (encryptKey s) (PutUint64 (encryptCount s)) (p_value p)
                   (PutUint16 (wrap16 (p_length p))) = Ok (c, mac) /\
    length c = length (p_value p) /\ length mac = 16%nat /\
    encryptPacket EncryptAndSeal s p
      = (Ok (PutUint16 (wrap16 (p_length p)) ++ c ++ mac), stepE s).
Proof.
  intros Hk.
  destruct (seal_total (encryptKey s) (PutUint64 (encryptCount s)) (p_value p)
                       (PutUint16 (wrap16 (p_length p))) Hk) as (c & mac & Hs & Hc & Hm).
  exists c, mac. repeat split; try assumption.
  unfold encryptPacket. cbn [stepE set_encryptCount encryptKey]. now rewrite Hs.
Qed.

Lemma iter_stepE_key (k : nat) (s : Session) :
  encryptKey (Nat.iter k stepE s) = encryptKey s /\
  encryptCount (Nat.iter k stepE s) = Nat.iter k incr64 (encryptCount s).
Proof.
  induction k as [|k [IH1 IH2]]; [split; reflexivity|].
  rewrite !Nat.iter_succ. cbn [stepE set_encryptCount encryptKey encryptCount].
  split; [exact IH1 | now rewrite IH2].
Qed.

Lemma iter_stepD_key (k : nat) (s : Session) :
  decryptKey (Nat.iter k stepD s) = decryptKey s /\
  decryptCount (Nat.iter k stepD s) = Nat.iter k incr64 (decryptCount s).
Proof.
  induction k as [|k [IH1 IH2]]; [split; reflexivity|].
  rewrite !Nat.iter_succ. cbn [stepD set_decryptCount decryptKey decryptCount].
  split; [exact IH1 | now rewrite IH2].
Qed.

Lemma frames_from_length (ps : list packet) (s : Session) :
  length (encryptKey s) = 32%nat ->
  length (frames_from EncryptAndSeal s ps) = length ps.
Proof.
  revert s. induction ps as [|p ps IH]; intros s Hk; [reflexivity|].
  cbn [frames_from]. destruct (encryptPacket_sealed s p Hk) as (c & mac & _ & _ & _ & ->).
  simpl. now rewrite IH.
Qed.

Lemma frames_from_lookup (ps : list packet) (s : Session) (j : nat) (fj : list byte) :
  length (encryptKey s) = 32%nat ->
  frames_from EncryptAndSeal s ps !! j = Some fj ->
  exists p, ps !! j = Some p /\
            encryptPacket EncryptAndSeal (Nat.iter j stepE s) p = (Ok fj, Nat.iter (S j) stepE s).
Proof.
  revert s j. induction ps as [|p ps IH]; intros s j Hk Hj; [discriminate|].
  cbn [frames_from] in Hj.
  destruct (encryptPacket_sealed s p Hk) as (c & mac & _ & _ & _ & He). rewrite He in Hj.
  destruct j as [|j].
  - injection Hj as <-. exists p. split; [reflexivity | exact He].
  - cbn [lookup list_lookup] in Hj. destruct (IH (stepE s) j Hk Hj) as (q & Hq & Hq').
    exists q. split; [exact Hq|]. rewrite !Nat.iter_succ_r in *. exact Hq'.
Qed.

Lemma frames_from_take (ps : list packet) (s : Session) (i : nat) :
  length (encryptKey s) = 32%nat ->
  take i (frames_from EncryptAndSeal s ps) = frames_from EncryptAndSeal s (take i ps).
Proof.
  revert s i. induction ps as [|p ps IH]; intros s i Hk; [now destruct i|].
  destruct i as [|i]; [reflexivity|]. cbn [frames_from take].
  destruct (encryptPacket_sealed s p Hk) as (c & mac & _ & _ & _ & ->).
  cbn [take]. now rewrite IH.
Qed.

(** [Decrypt] on a frame sealed under the receiver's key and current counter. *)
Lemma run_frame (s peer : Session) (p : packet) (f rest buf : list byte) (c : nat) :
  length (encryptKey s) = 32%nat ->
  decryptKey peer = encryptKey s -> decryptCount peer = encryptCount s ->
  p_length p = Z.of_nat (length (p_value p)) -> 0 <= p_length p <= PacketLengthMax ->
  (encryptPacket EncryptAndSeal s p).1 = Ok f ->
  run (S (length (f ++ rest))) peer (f ++ rest) buf c =
    if p_length p <? PacketLengthMax then (Ok (buf ++ p_value p), stepD peer, S c)
    else run (S (length rest)) (stepD peer) rest (buf ++ p_value p) (S c).
Proof.
  intros Hk Hkey Hcnt Hlen Hrange Hf.
  destruct (encryptPacket_sealed s p Hk) as (ct & mac & Hs & Hct & Hm & He).
  rewrite He in Hf. cbn [fst] in Hf.
  assert (Ef : f = PutUint16 (wrap16 (p_length p)) ++ ct ++ mac) by congruence.
  clear Hf He. subst f. unfold PacketLengthMax in Hrange.
  assert (Hw : wrap16 (p_length p) = p_length p) by (unfold wrap16; apply Z.mod_small; lia).
  rewrite Hw in *. rewrite run_S.
  rewrite readFrame_frame by (try assumption; lia).
  cbn [stepD set_decryptCount decryptKey]. rewrite Hw, Hkey, Hcnt.
  rewrite (open_sealed _ _ _ _ _ _ Hk Hs).
  destruct (p_length p <? PacketLengthMax); [reflexivity|].
  apply Decrypt_loop_fuel; [|lia]. rewrite !length_app. lia.
Qed.

(** [Decrypt] on a frame that was sealed under another counter value. *)
Lemma run_stale_frame (s peer : Session) (p : packet) (f rest buf : list byte) (c fuel : nat) :
  length (encryptKey s) = 32%nat -> decryptKey peer = encryptKey s ->
  PutUint64 (decryptCount peer) <> PutUint64 (encryptCount s) ->
  p_length p = Z.of_nat (length (p_value p)) -> 0 <= p_length p <= PacketLengthMax ->
  (encryptPacket EncryptAndSeal s p).1 = Ok f ->
  run (S fuel) peer (f ++ rest) buf c = (Err ErrAEAD, stepD peer, S c).
Proof.
  intros Hk Hkey Hcnt Hlen Hrange Hf.
  destruct (encryptPacket_sealed s p Hk) as (ct & mac & Hs & Hct & Hm & He).
  rewrite He in Hf. cbn [fst] in Hf.
  assert (Ef : f = PutUint16 (wrap16 (p_length p)) ++ ct ++ mac) by congruence.
  clear Hf He. subst f. unfold PacketLengthMax in *.
  assert (Hw : wrap16 (p_length p) = p_length p) by (unfold wrap16; apply Z.mod_small; lia).
  rewrite Hw in *. cbn [Decrypt_loop].
  rewrite readFrame_frame by (try assumption; lia).
  cbn [stepD set_decryptCount decryptKey]. rewrite Hkey.
  pose proof (open_other_nonce _ _ (PutUint64 (decryptCount peer)) _ _
                (PutUint16 (wrap16 (p_length p))) _ _ Hk
                (length_le_bytes 8 _) (length_le_bytes 8 _) (not_eq_sym Hcnt) Hs) as Hno.
  destruct (DecryptAndVerify _ _ _ _ _); [discriminate | reflexivity].
Qed.

(** [Decrypt] runs through a prefix of full frames and goes on with the rest. *)
Lemma run_full_prefix (ps : list packet) (s peer : Session) (rest buf : list byte) (c : nat) :
  length (encryptKey s) = 32%nat ->
  decryptKey peer = encryptKey s -> decryptCount peer = encryptCount s ->
  chunked ps -> Forall (fun p => p_length p = PacketLengthMax) ps ->
  let stream := concat (frames_from EncryptAndSeal s ps) ++ rest in
  run (S (length stream)) peer stream buf c =
    run (S (length rest)) (Nat.iter (length ps) stepD peer) rest
        (buf ++ concat (p_value <$> ps)) (c + length ps).
Proof.
  revert s peer buf c. induction ps as [|p ps IH]; intros s peer buf c Hk Hkey Hcnt Hch Hfull.
  - cbn. now rewrite app_nil_r, Nat.add_0_r.
  - cbn [chunked] in Hch. destruct Hch as (Hlen & Hrange & _ & Hch).
    inversion Hfull as [|? ? Hp Hfull' ]; subst.
    cbn zeta. cbn [frames_from].
    destruct (encryptPacket_sealed s p Hk) as (ct & mac & Hs & Hct & Hm & He).
    rewrite He. rewrite concat_cons, <- app_assoc.
    rewrite (run_frame s peer p) by (try assumption; try lia; now rewrite He).
    rewrite Hp, Z.ltb_irrefl.
    specialize (IH (stepE s) (stepD peer) (buf ++ p_value p) (S c)).
    cbn zeta in IH. rewrite IH; try assumption.
    + rewrite fmap_cons, concat_cons, app_assoc. cbn [length].
      rewrite Nat.iter_succ_r. f_equal. lia.
    + cbn [stepE stepD set_encryptCount set_decryptCount encryptCount decryptCount].
      now rewrite Hcnt.
Qed.

Lemma Encrypt_loop_ok (ps : list packet) (s : Session) (buf : list byte) :
  length (encryptKey s) = 32%nat ->
  Encrypt_loop EncryptAndSeal s ps buf
    = (Ok (buf ++ concat (frames_from EncryptAndSeal s ps)), Nat.iter (length ps) stepE s).
Proof.
  revert s buf. induction ps as [|p ps IH]; intros s buf Hk.
  - cbn. now rewrite app_nil_r.
  - cbn [Encrypt_loop frames_from length].
    destruct (encryptPacket_sealed s p Hk) as (c & mac & _ & _ & _ & ->).
    rewrite IH by exact Hk. now rewrite concat_cons, <- !app_assoc, Nat.iter_succ_r.
Qed.

Lemma frames_from_app (ps1 ps2 : list packet) (s : Session) :
  length (encryptKey s) = 32%nat ->
  frames_from EncryptAndSeal s (ps1 ++ ps2)
    = frames_from EncryptAndSeal s ps1
      ++ frames_from EncryptAndSeal (Nat.iter (length ps1) stepE s) ps2.
Proof.
  revert s. induction ps1 as [|p ps1 IH]; intros s Hk; [reflexivity|].
  cbn [app frames_from length].
  destruct (encryptPacket_sealed s p Hk) as (c & mac & _ & _ & _ & ->).
  rewrite IH by exact Hk. now rewrite Nat.iter_succ_r.
Qed.

Lemma chunked_lookup (ps : list packet) (j : nat) (p : packet) :
  chunked ps -> ps !! j = Some p ->
  p_length p = Z.of_nat (length (p_value p)) /\ 0 <= p_length p <= PacketLengthMax.
Proof.
  revert j. induction ps as [|q ps IH]; intros j Hch Hj; [discriminate|].
  destruct Hch as (Hl & Hr & _ & Hch). destruct j as [|j].
  - injection Hj as <-. split; [exact Hl | lia].
  - exact (IH j Hch Hj).
Qed.

Lemma chunked_take_full (ps : list packet) (i : nat) :
  chunked ps -> (i < length ps)%nat ->
  chunked (take i ps) /\ Forall (fun p => p_length p = PacketLengthMax) (take i ps).
Proof.
  intros Hch Hi. rewrite <- (take_drop i ps) in Hch. split.
  - exact (proj1 (chunked_app_inv _ _ Hch)).
  - apply (chunked_full_prefix _ _ Hch). intros Hd.
    apply (f_equal length) in Hd. rewrite length_drop in Hd. simpl in Hd. lia.
Qed.

Lemma run_at_EOF (s : Session) (buf : list byte) (c : nat) :
  run 1 s [] buf c = (Ok buf, s, c).
Proof. reflexivity. Qed.

(** [Decrypt] on the frames of a whole message. *)
Lemma run_message (ps : list packet) (s peer : Session) :
  length (encryptKey s) = 32%nat ->
  decryptKey peer = encryptKey s -> decryptCount peer = encryptCount s ->
  chunked ps ->
  let stream := concat (frames_from EncryptAndSeal s ps) in
  run (S (length stream)) peer stream [] 0
    = (Ok (concat (p_value <$> ps)), Nat.iter (length ps) stepD peer, length ps).
Proof.
  intros Hk Hkey Hcnt Hch. cbn zeta.
  destruct ps as [|p0 ps0] eqn:Eps using rev_ind; [reflexivity|].
  clear IHps0.
  destruct (chunked_app_inv _ _ Hch) as [Hc0 Hlast].
  pose proof (chunked_full_prefix _ _ Hch ltac:(discriminate)) as Hfull.
  rewrite frames_from_app by exact Hk.
  set (s0 := Nat.iter (length ps0) stepE s).
  destruct (iter_stepE_key (length ps0) s) as [Hk0 Hc0'].
  destruct (iter_stepD_key (length ps0) peer) as [Hk1 Hc1'].
  assert (Hk0' : length (encryptKey s0) = 32%nat) by (subst s0; now rewrite Hk0).
  cbn [frames_from].
  destruct (encryptPacket_sealed s0 p0 Hk0') as (c & mac & _ & _ & _ & He).
  rewrite He. rewrite concat_app. cbn [concat]. rewrite (app_nil_r (_ ++ c ++ mac)).
  pose proof (run_full_prefix ps0 s peer (PutUint16 (wrap16 (p_length p0)) ++ c ++ mac)
                [] 0 Hk Hkey Hcnt Hc0 Hfull) as H.
  cbn zeta in H. rewrite H. clear H.
  destruct Hlast as (Hl & Hr & _ & _).
  pose proof (run_frame s0 (Nat.iter (length ps0) stepD peer) p0
                (PutUint16 (wrap16 (p_length p0)) ++ c ++ mac) []
                ([] ++ concat (p_value <$> ps0)) (0 + length ps0)) as Hrun.
  rewrite app_nil_r in Hrun. rewrite Hrun; clear Hrun;
    [ | exact Hk0' | subst s0; congruence | subst s0; congruence
      | exact Hl | lia | now rewrite He ].
  rewrite fmap_app, concat_app, length_app. cbn [fmap list_fmap concat length].
  rewrite !app_nil_r, Nat.add_1_r, Nat.iter_succ. cbn [app Nat.add].
  destruct (p_length p0 <? PacketLengthMax); [reflexivity|].
  now rewrite run_at_EOF.
Qed.

(** C1 (as amended): between a session and a peer with mirrored keys and
    counters in lockstep, [Decrypt] of the output of [Encrypt] gives the
    plaintext back and leaves the counters in lockstep; a frame met at a
    position whose counter differs from the one it was sealed under (any
    reordering or replay, and the loss of a frame that another frame follows)
    makes [Decrypt] fail with the AEAD error; the loss of the trailing frames
    is not noticed: [Decrypt] returns the plaintext of the frames left. *)
Theorem Encrypt_Decrypt_peer (s peer : Session) (P : list byte) :
  length (encryptKey s) = 32%nat ->
  decryptKey peer = encryptKey s ->
  decryptCount peer = encryptCount s ->
  0 <= encryptCount s < 2 ^ 64 ->
  let ps := packetsFromBytes P in
  let frames := frames_from EncryptAndSeal s ps in
  (Encrypt EncryptAndSeal s P).1 = Ok (concat frames) /\
  (Decrypt DecryptAndVerify peer (concat frames)).1 = Ok P /\
  decryptCount (Decrypt DecryptAndVerify peer (concat frames)).2
    = encryptCount (Encrypt EncryptAndSeal s P).2 /\
  (forall (i j : nat) (fj tail : list byte),
     (i < length frames)%nat -> frames !! j = Some fj ->
     wrap64 (encryptCount s + Z.of_nat j) <> wrap64 (encryptCount s + Z.of_nat i) ->
     (Decrypt DecryptAndVerify peer (concat (take i frames) ++ fj ++ tail)).1 = Err ErrAEAD) /\
  (forall i : nat, (i < length frames)%nat ->
     (Decrypt DecryptAndVerify peer (concat (take i frames))).1
       = Ok (concat (p_value <$> take i ps))).
Proof.
  intros Hk Hkey Hcnt Hrange ps frames.
  assert (Hch : chunked ps) by apply packetsFromBytes_chunked.
  assert (HP : concat (p_value <$> ps) = P).
  { apply TransportPackets.packets_loop_concat;
      [change (Z.to_nat PacketLengthMax) with 1024%nat|]; lia. }
  assert (Hlen : length frames = length ps) by (apply frames_from_length; exact Hk).
  assert (HE : Encrypt EncryptAndSeal s P
               = (Ok (concat frames), Nat.iter (length ps) stepE s)).
  { unfold Encrypt. now rewrite Encrypt_loop_ok. }
  assert (Hprefix : forall i rest, (i < length ps)%nat ->
            run (S (length (concat (take i frames) ++ rest))) peer
                (concat (take i frames) ++ rest) [] 0
            = run (S (length rest)) (Nat.iter i stepD peer) rest
                  (concat (p_value <$> take i ps)) i).
  { intros i rest Hi. destruct (chunked_take_full ps i Hch Hi) as [Hc Hf].
    subst frames. rewrite frames_from_take by exact Hk.
    pose proof (run_full_prefix (take i ps) s peer rest [] 0 Hk Hkey Hcnt Hc Hf) as H.
    cbn zeta in H. rewrite H. rewrite length_take, Nat.min_l by lia. reflexivity. }
  split; [now rewrite HE|]. rewrite HE. cbn [snd].
  split; [|split; [|split]].
  - (* round trip *)
    unfold Decrypt, Decrypt_counted. subst frames.
    rewrite (run_message ps s peer Hk Hkey Hcnt Hch). cbn [fst]. now rewrite HP.
  - (* the counters stay in lockstep *)
    unfold Decrypt, Decrypt_counted. subst frames.
    rewrite (run_message ps s peer Hk Hkey Hcnt Hch). cbn [fst snd].
    destruct (iter_stepE_key (length ps) s) as [_ ->].
    destruct (iter_stepD_key (length ps) peer) as [_ ->]. now rewrite Hcnt.
  - (* a frame sealed under another counter *)
    intros i j fj tail Hi Hj Hne. rewrite Hlen in Hi.
    unfold Decrypt, Decrypt_counted. rewrite Hprefix by exact Hi.
    destruct (frames_from_lookup ps s j fj Hk Hj) as (p & Hp & Hep).
    destruct (chunked_lookup ps j p Hch Hp) as [Hl Hr].
    destruct (iter_stepE_key j s) as [Hkj Hcj].
    destruct (iter_stepD_key i peer) as [Hki Hci].
    rewrite (run_stale_frame (Nat.iter j stepE s) (Nat.iter i stepD peer) p fj tail);
      [reflexivity | congruence | congruence | | exact Hl | exact Hr | now rewrite Hep].
    rewrite Hci, Hcj, Hcnt, !iter_incr64_wrap by exact Hrange.
    intros Heq. apply PutUint64_inj in Heq; try apply wrap64_range. congruence.
  - (* the trailing frames lost *)
    intros i Hi. rewrite Hlen in Hi. unfold Decrypt, Decrypt_counted.
    pose proof (Hprefix i [] Hi) as H. rewrite app_nil_r in H. rewrite H.
    now rewrite run_at_EOF.
Qed.

End RoundTrip.

(** The stand-in AEAD has the three assumed properties. *)
Lemma toy_seal_total (k n p a : list byte) : length k = 32%nat ->
  exists c mac, toy_seal k n p a = Ok (c, mac) /\ length c = length p /\ length mac = 16%nat.
Proof.
  intros _. exists p, (toy_tag n). repeat split. unfold toy_tag.
  rewrite length_take, length_app, length_replicate. lia.
Qed.

Lemma toy_open_sealed (k n p a c mac : list byte) : length k = 32%nat ->
  toy_seal k n p a = Ok (c, mac) -> toy_open k n c mac a = Ok p.
Proof.
  intros _ [= <- <-]. unfold toy_open. now rewrite decide_True.
Qed.

Lemma toy_tag_nonce (n : list byte) : length n = 8%nat -> take 8 (toy_tag n) = n.
Proof.
  intros Hn. unfold toy_tag. rewrite take_take. change (8 `min` 16)%nat with 8%nat.
  rewrite <- Hn. now rewrite take_app_length.
Qed.

Lemma toy_open_other_nonce (k n n' p a a' c mac : list byte) : length k = 32%nat ->
  length n = 8%nat -> length n' = 8%nat -> n <> n' ->
  toy_seal k n p a = Ok (c, mac) -> is_Ok (toy_open k n' c mac a') = false.
Proof.
  intros _ Hn Hn' Hne [= <- <-]. unfold toy_open.
  rewrite decide_False; [reflexivity|].
  intros Heq. apply Hne. rewrite <- (toy_tag_nonce n Hn), <- (toy_tag_nonce n' Hn').
  now rewrite Heq.
Qed.

(** The round trip on the example sessions with the stand-in AEAD. *)
Lemma Encrypt_Decrypt_peer_witness :
  (Decrypt toy_open example_peer
     (concat (frames_from toy_seal example_session
                (packetsFromBytes [Byte.x68; Byte.x61; Byte.x70])))).1
  = Ok [Byte.x68; Byte.x61; Byte.x70].
Proof.
  refine (proj1 (proj2 (Encrypt_Decrypt_peer toy_seal toy_open
            toy_seal_total toy_open_sealed toy_open_other_nonce
            example_session example_peer [Byte.x68; Byte.x61; Byte.x70] _ _ _ _))).
  - reflexivity.
  - reflexivity.
  - reflexivity.
  - simpl. lia.
Defined.

(** C1, as the claim states it, fails when the last chunk of a message is
    dropped: of the two frames of a 1025-byte message only the first reaches
    the peer, the keys mirror each other and the counters are in lockstep, and
    [Decrypt] returns the first 1024 bytes with no error at all. *)
Lemma Decrypt_dropped_last_frame :
  let P := replicate 1025 Byte.x00 in
  let frames := frames_from toy_seal example_session (packetsFromBytes P) in
  decryptKey example_peer = encryptKey example_session /\
  decryptCount example_peer = encryptCount example_session /\
  (Encrypt toy_seal example_session P).1 = Ok (concat frames) /\
  length frames = 2%nat /\
  (Decrypt toy_open example_peer (concat (take 1 frames))).1 = Ok (replicate 1024 Byte.x00) /\
  (Decrypt toy_open example_peer (concat (take 1 frames))).1 <> Err ErrAEAD.
Proof.
  cbv zeta.
  assert (E : (Decrypt toy_open example_peer
                 (concat (take 1 (frames_from toy_seal example_session
                                    (packetsFromBytes (replicate 1025 Byte.x00)))))).1
              = Ok (replicate 1024 Byte.x00)) by (vm_compute; reflexivity).
  split; [reflexivity|]. split; [reflexivity|].
  split; [vm_compute; reflexivity|]. split; [vm_compute; reflexivity|].
  split; [exact E|]. rewrite E. discriminate.
Qed.

End TransportRoundTrip.

(** ** The file system store *)

Module FsStoreFacts.
Import FsStore.

Lemma Get_loop_all (fuel : nat) (file b : list byte) :
  (length file < fuel)%nat -> Get_loop fuel file b = b ++ file.
Proof.
  revert file b. induction fuel as [|fuel IH]; intros file b Hfuel; [lia|].
  cbn [Get_loop]. rewrite length_take.
  destruct (Nat.ltb_spec 0 (32 `min` length file)) as [Hpos|Hzero].
  - rewrite IH by (rewrite length_drop; lia).
    now rewrite <- app_assoc, take_drop.
  - destruct file; [now rewrite app_nil_r | simpl in Hzero; lia].
Qed.

(** [Get] returns the whole file. *)
Lemma Get_content (Path : string) (fs : files) (key : string) (content : list byte) :
  fs !! filePathToFile Path key = Some content -> fsStore_Get Path fs key = Ok content.
Proof.
  intros H. unfold fsStore_Get. rewrite H. now rewrite Get_loop_all by lia.
Qed.

Lemma Get_Set (Path : string) (fs : files) (key : string) (value : list byte) :
  fsStore_Get Path (fsStore_Set Path fs key value) key
    = Ok (write_at_start (default [] (fs !! filePathToFile Path key)) value).
Proof.
  apply Get_content. unfold fsStore_Set. apply lookup_insert_eq.
Qed.

(** C9: [Set] writes without truncating.  After a key is set to [v1] and then
    to [v2], [Get] returns [v2], then the bytes of [v1] beyond the length of
    [v2], then the bytes that the file held before beyond the length of
    [v1].  When [v2] is shorter than [v1] this is never [v2] alone; it is
    [v2] followed by the trailing bytes of [v1], [len(v1)] bytes in all, when
    the file was missing or not longer than [v1] before the two writes; and
    when the file was longer than [v1], it is as long as the file was, longer
    than [v1]. *)
Theorem Set_shorter_keeps_tail (Path : string) (fs : files) (key : string)
  (v1 v2 : list byte) :
  let old := default [] (fs !! filePathToFile Path key) in
  let fs2 := fsStore_Set Path (fsStore_Set Path fs key v1) key v2 in
  fsStore_Get Path fs2 key
    = Ok (v2 ++ drop (length v2) (v1 ++ drop (length v1) old)) /\
  ((length v2 < length v1)%nat ->
   fsStore_Get Path fs2 key <> Ok v2 /\
   ((length old <= length v1)%nat ->
    fsStore_Get Path (fsStore_Set Path fs key v1) key = Ok v1 /\
    fsStore_Get Path fs2 key = Ok (v2 ++ drop (length v2) v1) /\
    length (v2 ++ drop (length v2) v1) = length v1) /\
   ((length v1 < length old)%nat ->
    exists out : list byte,
      fsStore_Get Path fs2 key = Ok out /\ length out = length old /\
      out <> v2 ++ drop (length v2) v1)).
Proof.
  intros old fs2.
  assert (H1 : fsStore_Get Path (fsStore_Set Path fs key v1) key
               = Ok (v1 ++ drop (length v1) old)) by apply Get_Set.
  assert (HG : fsStore_Get Path fs2 key
               = Ok (v2 ++ drop (length v2) (v1 ++ drop (length v1) old))).
  { unfold fs2. rewrite Get_Set. unfold fsStore_Set at 1.
    rewrite lookup_insert_eq. reflexivity. }
  split; [exact HG|]. intros Hlen. split; [|split].
  - rewrite HG. intros [= Heq]. apply (f_equal length) in Heq.
    rewrite !length_app, !length_drop, length_app, length_drop in Heq. lia.
  - intros Hold.
    assert (Hd : drop (length v1) old = []) by (apply drop_ge; lia).
    rewrite H1, HG, Hd, app_nil_r. split; [reflexivity|]. split; [reflexivity|].
    rewrite length_app, length_drop. lia.
  - intros Hold. eexists. split; [exact HG|]. split.
    + rewrite !length_app, !length_drop, length_app, length_drop. lia.
    + intros Heq. apply (f_equal length) in Heq.
      rewrite !length_app, !length_drop, length_app, length_drop in Heq. lia.
Qed.

(** A key set to [abcd] on an empty directory and then to [xy] reads [xycd]. *)
Lemma Set_shorter_keeps_tail_witness :
  fsStore_Get "db"
    (fsStore_Set "db" (fsStore_Set "db" ∅ "keypair"
                         [Byte.x61; Byte.x62; Byte.x63; Byte.x64])
       "keypair" [Byte.x78; Byte.x79]) "keypair"
  = Ok ([Byte.x78; Byte.x79]
          ++ drop (length [Byte.x78; Byte.x79]) [Byte.x61; Byte.x62; Byte.x63; Byte.x64]).
Proof.
  refine (proj1 (proj2 (proj1 (proj2 (proj2
            (Set_shorter_keeps_tail "db" ∅ "keypair"
               [Byte.x61; Byte.x62; Byte.x63; Byte.x64] [Byte.x78; Byte.x79]) _)) _))).
  - simpl. lia.
  - vm_compute. lia.
Defined.

(** A key set to [abcdef], then to [wxyz], then to [12] reads [12yzef]: six
    bytes, two more than [wxyz], the value set before [12], and not [12yz]. *)
Lemma Set_keeps_older_tail :
  fsStore_Get "db"
    (fsStore_Set "db"
       (fsStore_Set "db"
          (fsStore_Set "db" ∅ "keypair"
             [Byte.x61; Byte.x62; Byte.x63; Byte.x64; Byte.x65; Byte.x66])
          "keypair" [Byte.x77; Byte.x78; Byte.x79; Byte.x7a])
       "keypair" [Byte.x31; Byte.x32]) "keypair"
  = Ok [Byte.x31; Byte.x32; Byte.x79; Byte.x7a; Byte.x65; Byte.x66] /\
  [Byte.x31; Byte.x32; Byte.x79; Byte.x7a; Byte.x65; Byte.x66]
  <> [Byte.x31; Byte.x32]
       ++ drop (length [Byte.x31; Byte.x32]) [Byte.x77; Byte.x78; Byte.x79; Byte.x7a] /\
  length [Byte.x31; Byte.x32; Byte.x79; Byte.x7a; Byte.x65; Byte.x66]
  <> length [Byte.x77; Byte.x78; Byte.x79; Byte.x7a].
Proof.
  split; [vm_compute; reflexivity|]. split; [discriminate | simpl; lia].
Qed.

End FsStoreFacts.

(** ** Pair setup: the busy check *)

Module PairSetupFacts.
Import Storer Registry Tlv PairSetup.

Lemma other_session_spec (ss : gmap string session_value) (remote : string) :
  other_session ss remote = true <->
  exists (addr : string) (v : session_value), ss !! addr = Some v /\ addr <> remote.
Proof.
  unfold other_session. rewrite existsb_exists. split.
  - intros ([addr v] & Hin & Hne). exists addr, v. split.
    + apply elem_of_map_to_list. now apply list_elem_of_In.
    + cbn [fst] in Hne. apply negb_true_iff, bool_decide_eq_false in Hne. exact Hne.
  - intros (addr & v & Hl & Hne). exists (addr, v). split.
    + apply list_elem_of_In. now apply elem_of_map_to_list.
    + cbn [fst]. apply negb_true_iff, bool_decide_eq_false. exact Hne.
Qed.

Section Steps.

Variable cr : crypto.

Lemma pairSetupStep1_not_Busy reg remote data :
  is_Busy (pairSetupStep1 cr reg remote data).1 = false.
Proof. unfold pairSetupStep1. destruct (newPairSetupSession cr); reflexivity. Qed.

Lemma pairSetupStep3_not_Busy reg remote data :
  is_Busy (pairSetupStep3 cr reg remote data).1 = false.
Proof.
  unfold pairSetupStep3.
  destruct (GetPairSetupSession reg remote); [|reflexivity].
  destruct (SetupPrivateKeyFromClientPublicKey cr _ _); [|reflexivity].
  destruct (ProofFromClientProof cr _ _); [|reflexivity].
  destruct (SetupEncryptionKey cr _ _ _); reflexivity.
Qed.

Lemma pairSetupStep5_not_Busy st reg remote data :
  is_Busy (pairSetupStep5 cr st reg remote data).1 = false.
Proof.
  unfold pairSetupStep5.
  destruct (GetPairSetupSession reg remote); [|reflexivity].
  destruct (Nat.ltb _ _); [reflexivity|].
  destruct (chacha_DecryptAndVerify cr _ _ _ _ _); [|reflexivity].
  destruct (tlv8_Unmarshal cr _); [|reflexivity].
  destruct (negb _); [reflexivity|].
  destruct (hkdf_Sha512 cr _ _ _); [|reflexivity].
  destruct (ed25519_Signature cr _ _); [|reflexivity].
  destruct (tlv8_Marshal cr _ _ _); [|reflexivity].
  destruct (chacha_EncryptAndSeal cr _ _ _ _) as [[? ?]|]; reflexivity.
Qed.

End Steps.

(** C4 (as amended): [pairSetup] replies [TlvError=Busy] exactly when the
    accessory has no pairing yet and some remote address other than the
    requester's holds an entry in the map of sessions, of whatever kind:
    pair-setup, pair-verify or established. *)
Theorem pairSetup_Busy_iff (cr : crypto) (st : storer) (reg : registry) (remote : string)
  (body : result pairSetupPayload) :
  is_Busy (pairSetup cr st reg remote body).1.1 = true <->
  isPaired st = false /\
  exists (addr : string) (v : session_value), sessions reg !! addr = Some v /\ addr <> remote.
Proof.
  rewrite <- other_session_spec. unfold pairSetup, Sessions.
  destruct (isPaired st); [cbn; split; [discriminate | intros [? _]; discriminate]|].
  destruct (other_session (sessions reg) remote) eqn:Ho; [cbn; tauto|].
  assert (Hf : forall r : reply * storer * registry, is_Busy r.1.1 = false ->
             (is_Busy r.1.1 = true <-> false = false /\ false = true))
    by (intros r ->; split; [discriminate | intros [_ ?]; discriminate]).
  apply Hf.
  destruct body as [data|e]; [|reflexivity].
  destruct (bool_decide (Method data = MethodPair)).
  - destruct (bool_decide (State data = Step1)).
    + pose proof (pairSetupStep1_not_Busy cr reg remote data) as H.
      destruct (pairSetupStep1 cr reg remote data). exact H.
    + destruct (bool_decide (State data = Step3)).
      * pose proof (pairSetupStep3_not_Busy cr reg remote data) as H.
        destruct (pairSetupStep3 cr reg remote data). exact H.
      * destruct (bool_decide (State data = Step5)); [|reflexivity].
        pose proof (pairSetupStep5_not_Busy cr st reg remote data) as H.
        destruct (pairSetupStep5 cr st reg remote data). exact H.
  - destruct (bool_decide (Method data = MethodPairMFi)); reflexivity.
Qed.

(** C4, as the claim states it, fails: with another address in the middle of
    pair-verify and no pair-setup session anywhere, a first pair-setup
    request is refused with [TlvError=Busy]. *)
Lemma pairSetup_Busy_on_verify_session :
  let remote := "192.168.0.5:50000" in
  let data := mkPairSetupPayload MethodPair [] [] [] Step1 in
  (forall addr : string, GetPairSetupSession verifying_registry addr = None) /\
  (pairSetup no_crypto ∅ verifying_registry remote (Ok data)).1.1
    = TlvReply None (TlvError Step2 TlvErrorBusy).
Proof.
  cbv zeta. split.
  - intros addr. unfold GetPairSetupSession, verifying_registry. cbn [sessions].
    destruct (decide (addr = "192.168.0.7:51000")) as [->|Hne].
    + now rewrite lookup_singleton_eq.
    + now rewrite lookup_singleton_ne.
  - vm_compute. reflexivity.
Qed.

End PairSetupFacts.

(** ** Pairings administration *)

Module PairingsFacts.
Import Storer Registry Tlv PairingsAdmin.

Lemma Pairings_elem (st : storer) (p : Pairing) :
  In p (Pairings st) <-> exists k : string, st !! k = Some p.
Proof.
  unfold Pairings. rewrite <- list_elem_of_In, list_elem_of_fmap. split.
  - intros ([k q] & -> & Hin). exists k. now apply elem_of_map_to_list.
  - intros (k & Hk). exists (k, p). split; [reflexivity|]. now apply elem_of_map_to_list.
Qed.

Lemma pairedWithAdmin_spec (st : storer) :
  pairedWithAdmin st = true <->
  exists (k : string) (p : Pairing), st !! k = Some p /\ Permission p = PermissionAdmin.
Proof.
  unfold pairedWithAdmin. rewrite existsb_exists. split.
  - intros (p & Hin & Hp). apply Pairings_elem in Hin as [k Hk].
    exists k, p. split; [exact Hk|]. now apply bool_decide_eq_true in Hp.
  - intros (k & p & Hk & Hp). exists p. split.
    + apply Pairings_elem. now exists k.
    + now apply bool_decide_eq_true.
Qed.

(** [SavePairing] keeps every pairing under the key of its name. *)
Lemma SavePairing_wf (st st' : storer) (p : Pairing) :
  store_wf st -> SavePairing st p = Ok st' -> store_wf st'.
Proof.
  intros Hwf [= <-] k q Hq. apply lookup_insert_Some in Hq as [[<- <-]|[_ Hq]].
  - reflexivity.
  - exact (Hwf k q Hq).
Qed.

Lemma admin_store_wf : store_wf admin_store.
Proof.
  intros k p H. unfold admin_store in H.
  apply lookup_singleton_Some in H as [<- <-]. reflexivity.
Qed.

(** C7: for a [MethodAddPairing] request from an admin session, if a pairing
    with the submitted identifier exists the request succeeds (State=2) only
    when the stored public key equals the submitted one, and then only the
    permission byte of the stored pairing changes; if the keys differ the reply
    is [TlvError=Unknown] and the store is unchanged; if there is no such
    pairing, one with the submitted identifier, key and permission is created. *)
Theorem addPairing_spec (st : storer) (reg : registry) (remote : string)
  (ss : Transport.Session) (d : pairingsRequest) :
  store_wf st -> isPaired st = true -> GetSession reg remote = Some ss ->
  Permission (Transport.s_Pairing ss) = PermissionAdmin ->
  d_Method d = MethodAddPairing ->
  let out := Pairings_handler st reg remote (Ok d) in
  out.2 = reg /\
  (forall p : Pairing, st !! d_Identifier d = Some p ->
     (out.1.1 = TlvReply None (TlvState Step2) ->
      PublicKey p = d_PublicKey d /\
      out.1.2 = <[d_Identifier d := mkPairing (d_Identifier d) (PublicKey p) (d_Permission d)]> st) /\
     (PublicKey p = d_PublicKey d -> out.1.1 = TlvReply None (TlvState Step2)) /\
     (PublicKey p <> d_PublicKey d ->
      out.1.1 = TlvReply None (TlvError Step2 TlvErrorUnknown) /\ out.1.2 = st)) /\
  (st !! d_Identifier d = None ->
     out.1.1 = TlvReply None (TlvState Step2) /\
     out.1.2 = <[d_Identifier d := mkPairing (d_Identifier d) (d_PublicKey d) (d_Permission d)]> st).
Proof.
  intros Hwf Hpaired Hss Hadmin Hm out. subst out.
  unfold Pairings_handler. rewrite Hpaired, Hss. cbn [negb].
  rewrite (bool_decide_eq_true_2 _ Hm). unfold addPairing.
  rewrite (bool_decide_eq_true_2 _ Hadmin). cbn [negb]. unfold st_Pairing.
  destruct (st !! d_Identifier d) as [p|] eqn:Hp.
  - unfold DeepEqual. pose proof (Hwf _ _ Hp) as Hname.
    destruct (decide (PublicKey p = d_PublicKey d)) as [Heq|Hne].
    + rewrite (bool_decide_eq_true_2 _ Heq). cbn. rewrite Hname.
      split; [reflexivity|]. split; [|intros ?; discriminate].
      intros q [= <-]. split; [|split].
      * intros _. split; [exact Heq|]. unfold set_Permission. now rewrite Hname.
      * intros _. reflexivity.
      * intros Hne. contradiction.
    + rewrite (bool_decide_eq_false_2 _ Hne). cbn.
      split; [reflexivity|]. split; [|intros ?; discriminate].
      intros q [= <-]. split; [|split].
      * intros ?; discriminate.
      * intros Heq. contradiction.
      * intros _. split; reflexivity.
  - cbn. split; [reflexivity|]. split; [intros q ?; discriminate|].
    intros _. split; reflexivity.
Qed.

(** The admin controller resubmits its own pairing, with the stored key and
    the user permission. *)
Lemma addPairing_spec_witness :
  let d := mkPairingsRequest MethodAddPairing "controller"
             (Some (replicate 32 Byte.x07)) PermissionUser Step1 in
  (Pairings_handler admin_store admin_registry "192.168.0.5:50000" (Ok d)).1.1
    = TlvReply None (TlvState Step2).
Proof.
  cbv zeta.
  refine (proj1 (proj2 (proj1 (proj2
            (addPairing_spec admin_store admin_registry "192.168.0.5:50000"
               Transport.example_session
               (mkPairingsRequest MethodAddPairing "controller"
                  (Some (replicate 32 Byte.x07)) PermissionUser Step1) _ _ _ _ _))
            Transport.example_pairing _)) _).
  - exact admin_store_wf.
  - vm_compute. reflexivity.
  - vm_compute. reflexivity.
  - reflexivity.
  - reflexivity.
  - vm_compute. reflexivity.
  - reflexivity.
Defined.

(** Whether [GetSession] finds, for [addr], a [Session] whose pairing is named
    [name]. *)
Lemma close_controller_spec (reg : registry) (name addr : string) (c : Conn) :
  close_controller reg name addr c =
    match GetSession reg addr with
    | Some ss => if decide (Name (Transport.s_Pairing ss) = name) then Close c else c
    | None => c
    end.
Proof.
  unfold close_controller. destruct (GetSession reg addr) as [ss|]; [|reflexivity].
  destruct (decide (Name (Transport.s_Pairing ss) = name)) as [H|H].
  - now rewrite (bool_decide_eq_true_2 _ H).
  - now rewrite (bool_decide_eq_false_2 _ H).
Qed.

(** C6: after a successful [MethodDeletePairing] of identifier X (an admin
    session asks, the pairing exists): the reply is State=2 and the pairing is
    gone; if no pairing with admin permission remains in the store, every
    [Conn] of the registry is closed; otherwise the [Conn]s closed are those
    whose address has a [Session] with [Pairing.Name] equal to X, and every
    other [Conn] is left as it was. *)
Theorem removePairing_closes (st : storer) (reg : registry) (remote : string)
  (ss : Transport.Session) (d : pairingsRequest) (p : Pairing) :
  store_wf st -> isPaired st = true -> GetSession reg remote = Some ss ->
  Permission (Transport.s_Pairing ss) = PermissionAdmin ->
  d_Method d = MethodDeletePairing ->
  st !! d_Identifier d = Some p ->
  let out := Pairings_handler st reg remote (Ok d) in
  out.1.1 = TlvReply None (TlvState Step2) /\
  out.1.2 = delete (d_Identifier d) st /\
  sessions out.2 = sessions reg /\
  ((forall (k : string) (q : Pairing),
      out.1.2 !! k = Some q -> Permission q <> PermissionAdmin) ->
   forall addr : string, conns out.2 !! addr = Close <$> conns reg !! addr) /\
  ((exists (k : string) (q : Pairing),
      out.1.2 !! k = Some q /\ Permission q = PermissionAdmin) ->
   forall addr : string,
     conns out.2 !! addr =
       (fun c => match GetSession reg addr with
                 | Some s' =>
                     if decide (Name (Transport.s_Pairing s') = d_Identifier d)
                     then Close c else c
                 | None => c
                 end) <$> conns reg !! addr).
Proof.
  intros Hwf Hpaired Hss Hadmin Hm Hp out. subst out.
  unfold Pairings_handler. rewrite Hpaired, Hss. cbn [negb].
  assert (Hadd : bool_decide (d_Method d = MethodAddPairing) = false).
  { apply bool_decide_eq_false_2. rewrite Hm. discriminate. }
  rewrite Hadd, (bool_decide_eq_true_2 _ Hm). unfold removePairing.
  rewrite (bool_decide_eq_true_2 _ Hadmin). cbn [negb].
  unfold st_Pairing, deletePairing, DeletePairing. rewrite Hp.
  rewrite (Hwf _ _ Hp), Hp. cbn [fst snd sessions conns].
  split; [reflexivity|]. split; [reflexivity|]. split; [reflexivity|]. split.
  - intros Hnone addr.
    assert (Hpa : pairedWithAdmin (delete (d_Identifier d) st) = false).
    { destruct (pairedWithAdmin _) eqn:E; [|reflexivity].
      apply pairedWithAdmin_spec in E as (k & q & Hq & Hperm).
      now destruct (Hnone k q Hq). }
    rewrite Hpa. cbn [negb]. unfold close_all, Conns. apply lookup_fmap.
  - intros Hsome addr. apply pairedWithAdmin_spec in Hsome. rewrite Hsome. cbn [negb].
    unfold close_removed, Conns. rewrite map_lookup_imap.
    destruct (conns reg !! addr) as [c|]; [|reflexivity].
    cbn. now rewrite close_controller_spec.
Qed.

(** The sole admin pairing is deleted by its own controller: the store is left
    without an admin and the controller's connection is closed. *)
Lemma removePairing_closes_witness :
  let d := mkPairingsRequest MethodDeletePairing "controller" None Byte.x00 Step1 in
  (Pairings_handler admin_store admin_registry "192.168.0.5:50000" (Ok d)).1.1
    = TlvReply None (TlvState Step2).
Proof.
  cbv zeta.
  refine (proj1 (removePairing_closes admin_store admin_registry "192.168.0.5:50000"
                   Transport.example_session
                   (mkPairingsRequest MethodDeletePairing "controller" None Byte.x00 Step1)
                   Transport.example_pairing _ _ _ _ _ _)).
  - exact admin_store_wf.
  - vm_compute. reflexivity.
  - vm_compute. reflexivity.
  - reflexivity.
  - reflexivity.
  - vm_compute. reflexivity.
Defined.

End PairingsFacts.

(** ** Characteristics *)

Module CharacteristicsFacts.
Import Characteristics.

Section Get.

Variable ValueRequest : C -> string -> option value.
Variable to_Uint64 : string -> Z.

Local Abbreviation getOne := (getCharacteristic ValueRequest to_Uint64).
Local Abbreviation getLoop := (getCharacteristics_loop ValueRequest to_Uint64).

(** An element that does not split into two parts at the dots is skipped. *)
Lemma getCharacteristic_malformed srv h remote pr (str : string) :
  length (Split str "."%char) <> 2%nat -> getOne srv h remote pr str = None.
Proof.
  intros Hlen. unfold getCharacteristic.
  destruct (Split str ".") as [|id0 [|id1 [|id2 ids]]]; try reflexivity.
  now contradiction Hlen.
Qed.

Lemma getCharacteristics_loop_skip srv h remote pr (strs1 strs2 : list string)
  (str : string) (arr : list CharacteristicData) (err : bool) :
  length (Split str "."%char) <> 2%nat ->
  getLoop srv h remote pr (strs1 ++ str :: strs2) arr err
    = getLoop srv h remote pr (strs1 ++ strs2) arr err.
Proof.
  intros Hlen. revert arr err. induction strs1 as [|s1 strs1 IH]; intros arr err.
  - cbn [app getCharacteristics_loop]. now rewrite getCharacteristic_malformed.
  - cbn [app getCharacteristics_loop].
    destruct (getOne srv h remote pr s1) as [[cdata e]|]; apply IH.
Qed.

Lemma getCharacteristics_loop_all_malformed srv h remote pr (strs : list string)
  (arr : list CharacteristicData) (err : bool) :
  Forall (fun str => length (Split str "."%char) <> 2%nat) strs ->
  getLoop srv h remote pr strs arr err = (arr, err).
Proof.
  induction 1 as [|str strs Hstr _ IH]; [reflexivity|].
  cbn [getCharacteristics_loop]. now rewrite getCharacteristic_malformed.
Qed.

(** C10: in GET characteristics, an element of the comma-separated id list
    that does not split into exactly two dot-separated parts is skipped: the
    loop runs as if the element were not in the list, adding no response
    element and no error status; and a request (from a paired accessory, with a
    non-empty id) whose list holds only such elements is answered with
    [jsonOK], HTTP 200, and an empty array of characteristics. *)
Theorem GetCharacteristics_malformed_ids (srv : accessories) (h : heap)
  (remote : string) (pr : projection ) (v : string) :
  String.length v <> 0%nat ->
  Forall (fun str => length (Split str "."%char) <> 2%nat) (Split v ","%char) ->
  GetCharacteristics ValueRequest to_Uint64 true srv h remote v pr = JsonOK [] /\
  http_status (GetCharacteristics ValueRequest to_Uint64 true srv h remote v pr) = Some 200 /\
  (forall (strs1 strs2 : list string) (str : string) (arr : list CharacteristicData)
          (err : bool),
     length (Split str "."%char) <> 2%nat ->
     getCharacteristic ValueRequest to_Uint64 srv h remote pr str = None /\
     getCharacteristics_loop ValueRequest to_Uint64 srv h remote pr
       (strs1 ++ str :: strs2) arr err
     = getCharacteristics_loop ValueRequest to_Uint64 srv h remote pr
         (strs1 ++ strs2) arr err).
Proof.
  intros Hv Hall.
  assert (E : GetCharacteristics ValueRequest to_Uint64 true srv h remote v pr = JsonOK []).
  { unfold GetCharacteristics. cbn [negb].
    destruct (Nat.eqb_spec (String.length v) 0) as [?|_]; [contradiction|].
    now rewrite getCharacteristics_loop_all_malformed. }
  split; [exact E|]. split; [now rewrite E|].
  intros strs1 strs2 str arr err Hlen. split.
  - now apply getCharacteristic_malformed.
  - now apply getCharacteristics_loop_skip.
Qed.

End Get.

(** The id list [7,1.2.3,] has three elements, none of two parts. *)
Lemma GetCharacteristics_malformed_ids_witness :
  GetCharacteristics read_Val (fun _ => 0) true switch_accessories switch_heap
    "192.168.0.5:50000" "7,1.2.3," (mkProjection false false false false)
  = JsonOK [].
Proof.
  refine (proj1 (GetCharacteristics_malformed_ids read_Val (fun _ => 0)
                   switch_accessories switch_heap "192.168.0.5:50000"
                   (mkProjection false false false false) "7,1.2.3," _ _)).
  - simpl. lia.
  - vm_compute. repeat constructor; lia.
Defined.

Section Put.

Variable ValueRequest : C -> string -> option value.
Variable SetValueRequest : C -> value -> string -> C.

(** What is assumed of the write hook: it changes neither the instance id, nor
    the permissions, nor the events map of the characteristic. *)
Hypothesis SetValueRequest_frame : forall (c : C) (v : value) (remote : string),
  c_Id (SetValueRequest c v remote) = c_Id c /\
  c_Permissions (SetValueRequest c v remote) = c_Permissions c /\
  c_Events (SetValueRequest c v remote) = c_Events c.

Local Abbreviation putOne := (putCharacteristic ValueRequest SetValueRequest).
Local Abbreviation putLoop := (putCharacteristics_loop ValueRequest SetValueRequest).

Lemma written_frame (c : C) (remote : string) (d : CharacteristicData) :
  c_Id (written SetValueRequest c remote d) = c_Id c /\
  IsObservable (written SetValueRequest c remote d) = IsObservable c /\
  c_Events (written SetValueRequest c remote d) = c_Events c.
Proof.
  unfold written, IsObservable. destruct (Value d) as [v|]; [|repeat split].
  destruct (SetValueRequest_frame c v remote) as (H1 & H2 & H3).
  now rewrite H1, H2, H3.
Qed.

(** The loop only appends to [arr]. *)
Lemma putCharacteristics_loop_app srv h remote (ds : list CharacteristicData)
  (arr : list CharacteristicData) :
  (putLoop srv h remote ds arr).1 = (putLoop srv h remote ds []).1 /\
  (putLoop srv h remote ds arr).2 = arr ++ (putLoop srv h remote ds []).2.
Proof.
  revert h arr. induction ds as [|d ds IH]; intros h arr.
  - cbn. now rewrite app_nil_r.
  - cbn [putCharacteristics_loop].
    destruct (putOne srv h remote d) as [h' entries].
    destruct (IH h' (arr ++ entries)) as [H1 H2].
    destruct (IH h' ([] ++ entries)) as [H3 H4].
    rewrite H1, H2, H3, H4. cbn [app]. now rewrite app_assoc.
Qed.

Lemma putCharacteristics_loop_split srv h remote (ds1 ds2 : list CharacteristicData) :
  (putLoop srv h remote (ds1 ++ ds2) []).2
    = (putLoop srv h remote ds1 []).2
      ++ (putLoop srv (putLoop srv h remote ds1 []).1 remote ds2 []).2.
Proof.
  revert h. induction ds1 as [|d ds1 IH]; intros h; [reflexivity|].
  cbn [app putCharacteristics_loop].
  destruct (putOne srv h remote d) as [h' entries].
  change ([] ++ entries) with entries.
  destruct (putCharacteristics_loop_app srv h' remote (ds1 ++ ds2) entries) as [_ ->].
  destruct (putCharacteristics_loop_app srv h' remote ds1 entries) as [-> ->].
  rewrite IH. now rewrite app_assoc.
Qed.

(** The reply of [PutCharacteristics] is decided by the entries collected. *)
Lemma PutCharacteristics_reply srv h remote (ds : list CharacteristicData) :
  (PutCharacteristics ValueRequest SetValueRequest true srv h remote (Ok ds)).1 =
    match (putLoop srv h remote ds []).2 with
    | [] => NoContent
    | arr => JsonMultiStatus arr
    end.
Proof.
  unfold PutCharacteristics. cbn [negb].
  destruct (putLoop srv h remote ds []) as [h' arr]. now destruct arr.
Qed.

(** One element with an [ev] field, on a characteristic that was found. *)
Lemma putCharacteristic_ev srv h remote (d : CharacteristicData) (l : nat) (c : C)
  (ev : bool) :
  findC srv h (Aid d) (Iid d) = Some l -> h !! l = Some c -> Events d = Some ev ->
  if IsObservable c
  then putOne srv h remote d =
         (<[l := set_Events (written SetValueRequest c remote d) (<[remote := ev]> (c_Events c))]> h,
          match Response d with
          | Some _ => [set_Value (newCharacteristicData (Aid d) (Iid d)) (ValueRequest c remote)]
          | None => []
          end)
  else putOne srv h remote d =
         (<[l := written SetValueRequest c remote d]> h,
          replicate (match Response d with Some _ => 2 | None => 1 end)
            (set_Status (match Response d with
                         | Some _ => set_Value (newCharacteristicData (Aid d) (Iid d))
                                               (ValueRequest c remote)
                         | None => newCharacteristicData (Aid d) (Iid d)
                         end)
                        (Some JsonStatusNotificationNotSupported))).
Proof.
  intros Hfind Hc Hev. unfold putCharacteristic. rewrite Hfind, Hc, Hev.
  destruct (written_frame c remote d) as (_ & Hobs & Hevents).
  rewrite Hobs, Hevents.
  destruct (IsObservable c); destruct (Response d); reflexivity.
Qed.

Lemma same_shape_find_in_Cs (h h' : heap) (cs : list nat) (iid : Z) :
  same_shape h h' -> find_in_Cs h cs iid = find_in_Cs h' cs iid.
Proof.
  intros Hs. induction cs as [|l cs IH]; [reflexivity|].
  cbn [find_in_Cs]. specialize (Hs l).
  destruct (h !! l) as [c|], (h' !! l) as [c'|]; try discriminate; [|exact IH].
  injection Hs as Hid _. now rewrite Hid, IH.
Qed.

Lemma same_shape_findC (srv : accessories) (h h' : heap) (aid iid : Z) :
  same_shape h h' -> findC srv h aid iid = findC srv h' aid iid.
Proof.
  intros Hs. unfold findC. induction (srv_a srv :: srv_as srv) as [|a accs IH]; [reflexivity|].
  cbn [find_in_As]. rewrite IH.
  assert (E : find_in_Ss h (a_Ss a) iid = find_in_Ss h' (a_Ss a) iid).
  { induction (a_Ss a) as [|sv ss IHs]; [reflexivity|].
    cbn [find_in_Ss]. now rewrite (same_shape_find_in_Cs h h' _ _ Hs), IHs. }
  now rewrite E.
Qed.

Lemma same_shape_insert (h : heap) (l : nat) (c c' : C) :
  h !! l = Some c -> c_Id c' = c_Id c -> c_Permissions c' = c_Permissions c ->
  same_shape h (<[l := c']> h).
Proof.
  intros Hc Hid Hperm k. destruct (decide (l = k)) as [<-|Hne].
  - rewrite lookup_insert_eq, Hc. cbn. now rewrite Hid, Hperm.
  - now rewrite lookup_insert_ne.
Qed.

Lemma ev_update_same_shape (srv : accessories) (h h' : heap) (d : CharacteristicData) :
  same_shape h h' -> ev_update srv h d -> ev_update srv h' d.
Proof.
  intros Hs (Hr & He & l & c & Hf & Hc & Ho). split; [exact Hr|]. split; [exact He|].
  pose proof (Hs l) as Hl. rewrite Hc in Hl.
  destruct (h' !! l) as [c'|] eqn:Hc'; [|discriminate].
  injection Hl as _ Hperm.
  exists l, c'. rewrite <- (same_shape_findC srv h h' _ _ Hs).
  split; [exact Hf|]. split; [exact Hc'|].
  unfold IsObservable in *. now rewrite <- Hperm.
Qed.

Lemma putCharacteristic_ev_update srv h remote (d : CharacteristicData) :
  ev_update srv h d ->
  (putOne srv h remote d).2 = [] /\ same_shape h (putOne srv h remote d).1.
Proof.
  intros (Hr & [ev He] & l & c & Hf & Hc & Ho).
  pose proof (putCharacteristic_ev srv h remote d l c ev Hf Hc He) as H.
  rewrite Ho, Hr in H. rewrite H. cbn [fst snd]. split; [reflexivity|].
  destruct (written_frame c remote d) as (Hid & Hobs & _).
  apply (same_shape_insert h l c); [exact Hc | exact Hid |].
  unfold written. destruct (Value d) as [v|]; [|reflexivity].
  now destruct (SetValueRequest_frame c v remote) as (_ & ? & _).
Qed.

Lemma putCharacteristics_loop_ev_updates srv h remote (ds : list CharacteristicData) :
  Forall (ev_update srv h) ds -> (putLoop srv h remote ds []).2 = [].
Proof.
  revert h. induction ds as [|d ds IH]; intros h Hall; [reflexivity|].
  inversion Hall as [|? ? Hd Hds]; subst.
  cbn [putCharacteristics_loop].
  destruct (putCharacteristic_ev_update srv h remote d Hd) as [Hnil Hshape].
  destruct (putOne srv h remote d) as [h' entries]. cbn [fst snd] in *. subst entries.
  apply IH. eapply Forall_impl; [exact Hds|].
  intros d' Hd'. now apply (ev_update_same_shape srv h h').
Qed.

(** C8: for an element of a PUT with an [ev] field whose characteristic is
    found: if the characteristic lacks the Events permission, the response is
    multi-status (207) with an entry for the element whose status is -70406,
    and the events map of the characteristic is unchanged; otherwise the entry
    of the events map for the remote address of the request is set to the
    submitted boolean and the [ev] field adds no entry: the entries of the
    element are those of the same element without [ev], that is none when it
    has no [r] field, and one entry with the value read, which makes the
    response multi-status (207), when it has an [r] field.  So a request of
    only [ev] updates without [r] field, on characteristics that are found
    and observable, is answered 204 No Content. *)
Theorem PutCharacteristics_ev (srv : accessories) (h0 : heap) (remote : string)
  (ds1 ds2 : list CharacteristicData) (d : CharacteristicData) (l : nat) (c : C)
  (ev : bool) :
  let h := (putCharacteristics_loop ValueRequest SetValueRequest srv h0 remote ds1 []).1 in
  findC srv h (Aid d) (Iid d) = Some l -> h !! l = Some c -> Events d = Some ev ->
  let step := putCharacteristic ValueRequest SetValueRequest srv h remote d in
  let reply := (PutCharacteristics ValueRequest SetValueRequest true srv h0 remote
                  (Ok (ds1 ++ d :: ds2))).1 in
  (IsObservable c = false ->
     (exists (arr : list CharacteristicData) (e : CharacteristicData),
        reply = JsonMultiStatus arr /\ e ∈ arr /\ Aid e = Aid d /\ Iid e = Iid d /\
        Status e = Some JsonStatusNotificationNotSupported) /\
     http_status reply = Some 207 /\
     c_Events <$> step.1 !! l = Some (c_Events c)) /\
  (IsObservable c = true ->
     c_Events <$> step.1 !! l = Some (<[remote := ev]> (c_Events c)) /\
     step.2 = (putCharacteristic ValueRequest SetValueRequest srv h remote (without_ev d)).2 /\
     (Response d = None -> step.2 = []) /\
     (forall r : bool, Response d = Some r ->
        step.2 = [set_Value (newCharacteristicData (Aid d) (Iid d)) (ValueRequest c remote)] /\
        (exists arr : list CharacteristicData,
           reply = JsonMultiStatus arr /\
           set_Value (newCharacteristicData (Aid d) (Iid d)) (ValueRequest c remote) ∈ arr) /\
        http_status reply = Some 207)) /\
  (forall ds : list CharacteristicData, Forall (ev_update srv h0) ds ->
     PutCharacteristics ValueRequest SetValueRequest true srv h0 remote (Ok ds)
       = (NoContent, (putCharacteristics_loop ValueRequest SetValueRequest
                        srv h0 remote ds []).1) /\
     http_status (PutCharacteristics ValueRequest SetValueRequest true srv h0 remote
                    (Ok ds)).1 = Some 204).
Proof.
  intros h Hf Hc He step reply.
  pose proof (putCharacteristic_ev srv h remote d l c ev Hf Hc He) as Hstep.
  destruct (written_frame c remote d) as (_ & _ & Hevents).
  assert (Hentry : forall e : CharacteristicData, e ∈ step.2 ->
            exists arr, reply = JsonMultiStatus arr /\ e ∈ arr).
  { intros e He_in. subst reply.
    rewrite PutCharacteristics_reply, putCharacteristics_loop_split.
    fold h. cbn [putCharacteristics_loop]. fold step.
    destruct step as [h' entries] eqn:Es. cbn [snd] in He_in.
    change ([] ++ entries) with entries.
    destruct (putCharacteristics_loop_app srv h' remote ds2 entries) as [_ ->].
    set (arr := (putLoop srv h0 remote ds1 []).2 ++ entries ++ (putLoop srv h' remote ds2 []).2).
    assert (Hin : e ∈ arr) by (subst arr; rewrite !elem_of_app; tauto).
    destruct arr as [|x arr']; [inversion Hin|]. exists (x :: arr'). now split. }
  split; [|split].
  - intros Hno. rewrite Hno in Hstep. fold step in Hstep.
    set (e := set_Status (match Response d with
                          | Some _ => set_Value (newCharacteristicData (Aid d) (Iid d))
                                                (ValueRequest c remote)
                          | None => newCharacteristicData (Aid d) (Iid d)
                          end) (Some JsonStatusNotificationNotSupported)) in *.
    assert (He_in : e ∈ step.2).
    { rewrite Hstep. cbn [snd]. destruct (Response d); cbn; left. }
    destruct (Hentry e He_in) as (arr & Hr & Hin). split; [|split].
    + exists arr, e. repeat split; try assumption; subst e; now destruct (Response d).
    + now rewrite Hr.
    + rewrite Hstep. cbn [fst]. rewrite lookup_insert_eq. cbn. now rewrite Hevents.
  - intros Hyes. rewrite Hyes in Hstep. fold step in Hstep.
    assert (Hsnd : step.2 = match Response d with
                            | Some _ => [set_Value (newCharacteristicData (Aid d) (Iid d))
                                           (ValueRequest c remote)]
                            | None => []
                            end) by now rewrite Hstep.
    split; [|split; [|split]].
    + rewrite Hstep. cbn [fst]. now rewrite lookup_insert_eq.
    + rewrite Hsnd. unfold putCharacteristic. cbn [without_ev Aid Iid Response Value Events].
      rewrite Hf, Hc. now destruct (Response d).
    + intros Hr. now rewrite Hsnd, Hr.
    + intros r Hr. rewrite Hr in Hsnd. split; [exact Hsnd|].
      destruct (Hentry (set_Value (newCharacteristicData (Aid d) (Iid d))
                          (ValueRequest c remote))) as (arr & Harr & Hin).
      { rewrite Hsnd. left. }
      split; [now exists arr | now rewrite Harr].
  - intros ds Hall. pose proof (PutCharacteristics_reply srv h0 remote ds) as Hr.
    rewrite (putCharacteristics_loop_ev_updates srv h0 remote ds Hall) in Hr.
    split; [|now rewrite Hr].
    unfold PutCharacteristics in *. cbn [negb] in *.
    pose proof (putCharacteristics_loop_ev_updates srv h0 remote ds Hall) as Hnil.
    destruct (putLoop srv h0 remote ds []) as [h' arr]. cbn [snd fst] in *. now subst arr.
Qed.

End Put.

(** The write hook of the model keeps the id, the permissions and the events. *)
Lemma write_Val_frame (c : C) (v : value) (remote : string) :
  c_Id (write_Val c v remote) = c_Id c /\
  c_Permissions (write_Val c v remote) = c_Permissions c /\
  c_Events (write_Val c v remote) = c_Events c.
Proof. repeat split. Qed.

(** A subscription to the name of the switch, which is not observable, is
    answered 207. *)
Lemma PutCharacteristics_ev_witness :
  let d := mkCharacteristicData 1 9 None None [] None (Some true)
             None None None None None None None None in
  http_status (PutCharacteristics read_Val write_Val true switch_accessories switch_heap
                 "192.168.0.5:50000" (Ok ([] ++ d :: []))).1 = Some 207.
Proof.
  cbv zeta.
  refine (proj1 (proj2 (proj1
            (PutCharacteristics_ev read_Val write_Val write_Val_frame
               switch_accessories switch_heap "192.168.0.5:50000" [] []
               (mkCharacteristicData 1 9 None None [] None (Some true)
                  None None None None None None None None)
               1%nat switch_Name true _ _ _) _))).
  - vm_compute. reflexivity.
  - vm_compute. reflexivity.
  - reflexivity.
  - vm_compute. reflexivity.
Defined.

(** A PUT of [{aid:1, iid:10, ev:true, r:true}] on the switch, which is
    observable: the subscription is stored, and yet the element contributes
    an entry, the value read, and the reply is multi-status (207), not
    204 No Content. *)
Lemma PutCharacteristics_ev_with_r_entry :
  IsObservable switch_On = true /\
  (PutCharacteristics read_Val write_Val true switch_accessories switch_heap
     "192.168.0.5:50000"
     (Ok [mkCharacteristicData 1 10 None None [] None (Some true) None None None None
            None None None (Some true)])).1
  = JsonMultiStatus [set_Value (newCharacteristicData 1 10) (Some (VBool false))] /\
  http_status
    (PutCharacteristics read_Val write_Val true switch_accessories switch_heap
       "192.168.0.5:50000"
       (Ok [mkCharacteristicData 1 10 None None [] None (Some true) None None None None
              None None None (Some true)])).1
  = Some 207 /\
  ((PutCharacteristics read_Val write_Val true switch_accessories switch_heap
      "192.168.0.5:50000"
      (Ok [mkCharacteristicData 1 10 None None [] None (Some true) None None None None
             None None None (Some true)])).2 !! 0%nat)
    ≫= (fun c => c_Events c !! "192.168.0.5:50000")
  = Some true.
Proof.
  split; [reflexivity|]. split; [reflexivity|]. split; reflexivity.
Qed.

(** What the [r] field gets on a characteristic that was found: an entry with
    the value read before the [value] field is written, for [r] true or false. *)
Lemma putCharacteristic_response (ValueRequest : C -> string -> option value)
  (SetValueRequest : C -> value -> string -> C) srv h remote
  (d : CharacteristicData) (l : nat) (c : C) (r : bool) :
  findC srv h (Aid d) (Iid d) = Some l -> h !! l = Some c ->
  Response d = Some r -> Events d = None ->
  putCharacteristic ValueRequest SetValueRequest srv h remote d =
    (<[l := written SetValueRequest c remote d]> h,
     [set_Value (newCharacteristicData (Aid d) (Iid d)) (ValueRequest c remote)]).
Proof.
  intros Hf Hc Hr He. unfold putCharacteristic. now rewrite Hf, Hc, Hr, He.
Qed.

(** C5 on the code: a PUT of [{aid:1, iid:10, value:true, r:true}] on the
    switch, which is off: the write is applied (the switch is on afterwards)
    but the element of the response carries [false], the value before the
    write; and [{aid:1, iid:10, r:false}] gets an echo element as well. *)
Lemma PutCharacteristics_echoes_value_before_write :
  let remote := "192.168.0.5:50000" in
  let put := PutCharacteristics read_Val write_Val true switch_accessories switch_heap remote in
  let d := mkCharacteristicData 1 10 (Some (VBool true)) None [] None None
             None None None None None None None (Some true) in
  let d' := mkCharacteristicData 1 10 None None [] None None
              None None None None None None None (Some false) in
  (put (Ok [d])).1
    = JsonMultiStatus [set_Value (newCharacteristicData 1 10) (Some (VBool false))] /\
  c_Val <$> (put (Ok [d])).2 !! 0%nat = Some (Some (VBool true)) /\
  (put (Ok [d'])).1
    = JsonMultiStatus [set_Value (newCharacteristicData 1 10) (Some (VBool false))].
Proof.
  cbv zeta. split; [|split]; vm_compute; reflexivity.
Qed.

End CharacteristicsFacts.

(** * Further properties *)

(** ** Transport: chunk counts, sizes and truncated streams *)

Module TransportSizes.
Import Transport TransportFacts TransportCounters TransportRoundTrip.

(** The number of packets of the loop: the input length over [size], rounded up. *)
Lemma packets_loop_count (fuel size : nat) (r : list byte) :
  (0 < size)%nat -> (length r < fuel)%nat ->
  length (packets_loop fuel size r) = ((length r + size - 1) / size)%nat.
Proof.
  intros Hsize Hfuel.
  set (ps := packets_loop fuel size r).
  assert (Hlook : forall i, is_Some (ps !! i) <-> (i * size < length r)%nat).
  { intros i. subst ps. rewrite packets_loop_lookup by assumption.
    destruct (Nat.ltb_spec (i * size) (length r)); split; intros H';
      try lia; try (now eexists); now destruct H'. }
  assert (Hup : (length r <= length ps * size)%nat).
  { destruct (Nat.le_gt_cases (length r) (length ps * size)) as [?|Hlt]; [assumption|].
    apply Hlook, lookup_lt_is_Some in Hlt. lia. }
  assert (Hlow : (length ps = 0 \/ (length ps - 1) * size < length r)%nat).
  { destruct (length ps) as [|n] eqn:En; [now left|right].
    apply Hlook, lookup_lt_is_Some. lia. }
  apply (Nat.div_unique _ _ _ (length r + size - 1 - length ps * size)); nia.
Qed.

Lemma packetsWithSizeFromBytes_count_aux (r : list byte) :
  Z.of_nat (length (packetsFromBytes r)) = (Z.of_nat (length r) + 0x400 - 1) / 0x400 /\
  concat (p_value <$> packetsFromBytes r) = r.
Proof.
  unfold packetsFromBytes, packetsWithSizeFromBytes.
  change (Z.to_nat PacketLengthMax) with 1024%nat. split.
  - rewrite packets_loop_count by lia.
    rewrite Nat2Z.inj_div, Nat2Z.inj_sub, Nat2Z.inj_add by lia. reflexivity.
  - apply TransportPackets.packets_loop_concat; lia.
Qed.

(** X1: for a positive [size], [packetsWithSizeFromBytes] makes
    ceil(len(input) / size) packets whose values concatenate to the input; for
    [size] 0 it makes none, whatever the input. *)
Theorem packetsWithSizeFromBytes_count (size : Z) (r : list byte) :
  0 < size ->
  Z.of_nat (length (packetsWithSizeFromBytes size r))
    = (Z.of_nat (length r) + size - 1) / size /\
  concat (p_value <$> packetsWithSizeFromBytes size r) = r /\
  packetsWithSizeFromBytes 0 r = [].
Proof.
  intros Hsize. unfold packetsWithSizeFromBytes. split; [|split].
  - rewrite packets_loop_count by lia.
    rewrite Nat2Z.inj_div, Nat2Z.inj_sub, Nat2Z.inj_add, Z2Nat.id by lia.
    reflexivity.
  - apply TransportPackets.packets_loop_concat; lia.
  - change (Z.to_nat 0) with 0%nat. cbn [packets_loop Reader.Read].
    destruct r; reflexivity.
Qed.

(** Five bytes in packets of two: three packets. *)
Lemma packetsWithSizeFromBytes_count_witness :
  Z.of_nat (length (packetsWithSizeFromBytes 2 (replicate 5 Byte.x2a))) = (5 + 2 - 1) / 2.
Proof.
  refine (proj1 (packetsWithSizeFromBytes_count 2 (replicate 5 Byte.x2a) _)). lia.
Defined.

Lemma ReadFull_short (r : list byte) (size : nat) :
  (length r < size)%nat ->
  Reader.ReadFull r size = Err ErrEOF \/ Reader.ReadFull r size = Err ErrUnexpectedEOF.
Proof.
  intros Hlt. unfold Reader.ReadFull.
  destruct (Nat.eqb_spec size 0) as [?|_]; [lia|].
  destruct r as [|x r0]; [now left|].
  destruct (Nat.ltb_spec (length (x :: r0)) size); [now right | lia].
Qed.

Lemma readFrame_truncated (r : list byte) :
  r <> [] ->
  (length r < 2 \/ length r < 2 + Z.to_nat (Uint16 (take 2 r)) + 16)%nat ->
  readFrame r = FrameErr ErrEOF \/ readFrame r = FrameErr ErrUnexpectedEOF.
Proof.
  intros Hne Hshort.
  assert (H : exists e, readFrame r = FrameErr e /\ (e = ErrEOF \/ e = ErrUnexpectedEOF));
    [|destruct H as (e & -> & [-> | ->]); [now left | now right]].
  unfold readFrame.
  destruct (Reader.ReadFull r 2) as [[lenb r1]|e] eqn:E1.
  - pose proof (ReadFull_length _ _ _ _ E1) as [Hl1 Hr1].
    assert (Hlenb : lenb = take 2 r).
    { unfold Reader.ReadFull in E1. cbn [Nat.eqb] in E1. destruct r; [discriminate|].
      destruct (_ <? _)%nat; [discriminate|]. now injection E1 as <- _. }
    subst lenb. destruct Hshort as [?|Hshort]; [lia|].
    destruct (Reader.ReadFull r1 _) as [[b r2]|e] eqn:E2.
    + pose proof (ReadFull_length _ _ _ _ E2) as [Hl2 Hr2].
      destruct (ReadFull_short r2 16 ltac:(lia)) as [-> | ->]; eauto.
    + assert (Hs : (length r1 < Z.to_nat (Uint16 (take 2 r)))%nat).
      { unfold Reader.ReadFull in E2.
        destruct (Nat.eqb_spec (Z.to_nat (Uint16 (take 2 r))) 0) as [?|Hn0]; [discriminate|].
        destruct r1 as [|y r1']; [simpl; lia|].
        destruct (Nat.ltb_spec (length (y :: r1')) (Z.to_nat (Uint16 (take 2 r))));
          [assumption | discriminate]. }
      destruct (ReadFull_short r1 _ Hs) as [H' | H']; rewrite H' in E2;
        injection E2 as <-; eauto.
  - destruct r as [|x r0]; [contradiction|].
    unfold Reader.ReadFull in E1. cbn [Nat.eqb] in E1.
    destruct (_ <? _)%nat; [|discriminate]. injection E1 as <-. eauto.
Qed.

(** X3: [Decrypt] on an empty stream returns an empty plaintext and no error;
    on a stream that ends inside its first frame (after at least one byte and
    before the 2 + length + 16 bytes the frame announces) it returns the read
    error, [io.EOF] or [io.ErrUnexpectedEOF], it does not call the AEAD, and
    the session, counter included, is as before. *)
Theorem Decrypt_truncated
  (DecryptAndVerify : list byte -> list byte -> list byte -> list byte -> list byte -> result (list byte))
  (s : Session) (r : list byte) :
  r <> [] ->
  (length r < 2 \/ length r < 2 + Z.to_nat (Uint16 (take 2 r)) + 16)%nat ->
  (Decrypt DecryptAndVerify s r = (Err ErrEOF, s) \/
   Decrypt DecryptAndVerify s r = (Err ErrUnexpectedEOF, s)) /\
  Decrypt DecryptAndVerify s [] = (Ok [], s).
Proof.
  intros Hne Hshort. split; [|reflexivity].
  unfold Decrypt, Decrypt_counted. cbn [Decrypt_loop].
  destruct (readFrame_truncated r Hne Hshort) as [-> | ->]; [now left | now right].
Qed.

(** A stream cut after the length field of a frame of 3 bytes. *)
Lemma Decrypt_truncated_witness :
  Decrypt toy_open example_peer [Byte.x03; Byte.x00] = (Err ErrEOF, example_peer) \/
  Decrypt toy_open example_peer [Byte.x03; Byte.x00] = (Err ErrUnexpectedEOF, example_peer).
Proof.
  refine (proj1 (Decrypt_truncated toy_open example_peer [Byte.x03; Byte.x00] _ _)).
  - discriminate.
  - right. vm_compute. lia.
Defined.

End TransportSizes.

Module TransportMessages.
Import Transport TransportFacts TransportCounters TransportRoundTrip.

Section Messages.

Variable EncryptAndSeal :
  list byte -> list byte -> list byte -> list byte -> result (list byte * list byte).
Variable DecryptAndVerify :
  list byte -> list byte -> list byte -> list byte -> list byte -> result (list byte).

Hypothesis seal_total : forall k n p a, length k = 32%nat ->
  exists c mac, EncryptAndSeal k n p a = Ok (c, mac) /\
                length c = length p /\ length mac = 16%nat.
Hypothesis open_sealed : forall k n p a c mac, length k = 32%nat ->
  EncryptAndSeal k n p a = Ok (c, mac) -> DecryptAndVerify k n c mac a = Ok p.

Lemma frames_from_size (ps : list packet) (s : Session) :
  length (encryptKey s) = 32%nat ->
  length (concat (frames_from EncryptAndSeal s ps))
    = (length (concat (p_value <$> ps)) + 18 * length ps)%nat.
Proof.
  revert s. induction ps as [|p ps IH]; intros s Hk; [reflexivity|].
  cbn [frames_from].
  destruct (encryptPacket_sealed EncryptAndSeal seal_total s p Hk)
    as (c & mac & _ & Hc & Hm & ->).
  rewrite fmap_cons, !concat_cons, !length_app, IH by exact Hk.
  rewrite Hc, Hm. unfold PutUint16. rewrite length_le_bytes. cbn [length]. lia.
Qed.

(** X2: with an AEAD that seals under a 32-byte key, keeps the length of the
    message and makes 16-byte tags, [Encrypt] does not fail and its output is
    the input plus 18 bytes (2 of length, 16 of tag) for each of the
    ceil(len/0x400) chunks. *)
Theorem Encrypt_size (s : Session) (P : list byte) :
  length (encryptKey s) = 32%nat ->
  exists out : list byte,
    (Encrypt EncryptAndSeal s P).1 = Ok out /\
    Z.of_nat (length out)
      = Z.of_nat (length P) + 18 * ((Z.of_nat (length P) + 0x400 - 1) / 0x400).
Proof.
  intros Hk. unfold Encrypt.
  rewrite (Encrypt_loop_ok EncryptAndSeal seal_total _ s [] Hk). cbn [fst app].
  eexists. split; [reflexivity|].
  rewrite frames_from_size by exact Hk.
  destruct (TransportSizes.packetsWithSizeFromBytes_count_aux P) as [Hn Hc].
  rewrite Hc, Nat2Z.inj_add, Nat2Z.inj_mul, Hn. reflexivity.
Qed.

(** The last packet of a message whose length is no multiple of 0x400 is short. *)
Lemma last_packet_short (P : list byte) (ps0 : list packet) (p0 : packet) :
  packetsFromBytes P = ps0 ++ [p0] ->
  Z.of_nat (length P) mod 0x400 <> 0 -> p_length p0 < PacketLengthMax.
Proof.
  intros Hps Hmod.
  assert (H0 : packetsFromBytes P !! length ps0 = Some p0).
  { rewrite Hps. now rewrite lookup_app_r, Nat.sub_diag by lia. }
  assert (H1 : packetsFromBytes P !! S (length ps0) = None).
  { rewrite Hps. apply lookup_ge_None_2. rewrite length_app. simpl. lia. }
  rewrite TransportPackets.packetsFromBytes_lookup in H0, H1.
  destruct (Nat.ltb_spec (length ps0 * 1024) (length P)) as [Hi|Hi]; [|discriminate].
  destruct (Nat.ltb_spec (S (length ps0) * 1024) (length P)) as [Hi'|Hi']; [discriminate|].
  injection H0 as <-. cbn [p_length]. unfold PacketLengthMax.
  rewrite length_take, length_drop.
  destruct (Nat.eq_dec (length P) (S (length ps0) * 1024)%nat) as [He|Hne]; [|lia].
  exfalso. apply Hmod. rewrite He, Nat2Z.inj_mul. apply Z_mod_mult.
Qed.

(** X4: [Decrypt] reads one message.  When the length of [P] is not a multiple
    of 0x400 (its last chunk is short), [Decrypt] of the output of [Encrypt]
    followed by any further bytes returns exactly [P]: it stops after the
    short frame and does not touch what follows. *)
Theorem Decrypt_one_message (s peer : Session) (P rest : list byte) :
  length (encryptKey s) = 32%nat ->
  decryptKey peer = encryptKey s ->
  decryptCount peer = encryptCount s ->
  Z.of_nat (length P) mod 0x400 <> 0 ->
  exists out : list byte,
    (Encrypt EncryptAndSeal s P).1 = Ok out /\
    (Decrypt DecryptAndVerify peer (out ++ rest)).1 = Ok P /\
    decryptCount (Decrypt DecryptAndVerify peer (out ++ rest)).2
      = encryptCount (Encrypt EncryptAndSeal s P).2.
Proof.
  intros Hk Hkey Hcnt Hmod. unfold Encrypt.
  rewrite (Encrypt_loop_ok EncryptAndSeal seal_total _ s [] Hk). cbn [fst snd app].
  eexists. split; [reflexivity|].
  assert (Hch : chunked (packetsFromBytes P)) by apply packetsFromBytes_chunked.
  assert (HP : concat (p_value <$> packetsFromBytes P) = P).
  { apply TransportPackets.packets_loop_concat;
      [change (Z.to_nat PacketLengthMax) with 1024%nat|]; lia. }
  destruct (packetsFromBytes P) as [|p0 ps0] eqn:Eps using rev_ind.
  { exfalso. apply Hmod. cbn in HP. now rewrite <- HP. }
  clear IHps0.
  pose proof (last_packet_short P ps0 p0 Eps Hmod) as Hshort.
  destruct (chunked_app_inv _ _ Hch) as [Hc0 Hlast].
  pose proof (chunked_full_prefix _ _ Hch ltac:(discriminate)) as Hfull.
  rewrite (frames_from_app EncryptAndSeal seal_total) by exact Hk.
  set (s0 := Nat.iter (length ps0) stepE s).
  destruct (iter_stepE_key (length ps0) s) as [Hk0 Hc0'].
  destruct (iter_stepD_key (length ps0) peer) as [Hk1 Hc1'].
  assert (Hk0' : length (encryptKey s0) = 32%nat) by (subst s0; now rewrite Hk0).
  cbn [frames_from].
  destruct (encryptPacket_sealed EncryptAndSeal seal_total s0 p0 Hk0')
    as (c & mac & _ & _ & _ & He).
  rewrite He. rewrite concat_app. cbn [concat]. rewrite (app_nil_r (_ ++ c ++ mac)).
  rewrite <- app_assoc.
  unfold Decrypt, Decrypt_counted.
  pose proof (run_full_prefix EncryptAndSeal DecryptAndVerify seal_total open_sealed
                ps0 s peer ((PutUint16 (wrap16 (p_length p0)) ++ c ++ mac) ++ rest)
                [] 0 Hk Hkey Hcnt Hc0 Hfull) as H.
  cbn zeta in H. rewrite H. clear H.
  destruct Hlast as (Hl & Hr & _ & _).
  rewrite (run_frame EncryptAndSeal DecryptAndVerify seal_total open_sealed
             s0 (Nat.iter (length ps0) stepD peer) p0);
    [ | exact Hk0' | subst s0; congruence | subst s0; congruence
      | exact Hl | lia | now rewrite He ].
  apply Z.ltb_lt in Hshort. rewrite Hshort. cbn [fst snd].
  rewrite <- HP, fmap_app, concat_app. cbn [fmap list_fmap concat app].
  rewrite app_nil_r. split; [reflexivity|].
  rewrite length_app, Nat.add_1_r, Nat.iter_succ.
  cbn [stepD stepE set_decryptCount set_encryptCount decryptCount encryptCount].
  fold s0. subst s0. now rewrite Hc1', Hc0', Hcnt.
Qed.

End Messages.

(** The size of the frames of a 3-byte message: 3 + 18 bytes. *)
Lemma Encrypt_size_witness :
  exists out : list byte,
    (Encrypt toy_seal example_session [Byte.x68; Byte.x61; Byte.x70]).1 = Ok out /\
    Z.of_nat (length out) = 3 + 18 * ((3 + 0x400 - 1) / 0x400).
Proof.
  refine (Encrypt_size toy_seal toy_seal_total example_session
            [Byte.x68; Byte.x61; Byte.x70] _).
  reflexivity.
Defined.

(** A 3-byte message followed by two stray bytes. *)
Lemma Decrypt_one_message_witness :
  exists out : list byte,
    (Encrypt toy_seal example_session [Byte.x68; Byte.x61; Byte.x70]).1 = Ok out /\
    (Decrypt toy_open example_peer (out ++ [Byte.xff; Byte.xff])).1
      = Ok [Byte.x68; Byte.x61; Byte.x70] /\
    decryptCount (Decrypt toy_open example_peer (out ++ [Byte.xff; Byte.xff])).2
      = encryptCount (Encrypt toy_seal example_session [Byte.x68; Byte.x61; Byte.x70]).2.
Proof.
  refine (Decrypt_one_message toy_seal toy_open toy_seal_total toy_open_sealed
            example_session example_peer [Byte.x68; Byte.x61; Byte.x70]
            [Byte.xff; Byte.xff] _ _ _ _).
  - reflexivity.
  - reflexivity.
  - reflexivity.
  - vm_compute. discriminate.
Defined.

End TransportMessages.

(** ** The registry of sessions and connections *)

Module RegistryFacts.
Import Registry RegistryEvents.

(** X5: when a connection is reported closed, its session and its [Conn] are
    gone from the registry, whatever kind of session it was, and the entries
    of every other address are as before; any other connection state leaves
    the registry as it is. *)
Theorem ConnStateEvent_closed (reg : registry) (addr : string) :
  GetSession (ConnStateEvent reg addr StateClosed) addr = None /\
  GetPairSetupSession (ConnStateEvent reg addr StateClosed) addr = None /\
  GetPairVerifySession (ConnStateEvent reg addr StateClosed) addr = None /\
  GetConn (ConnStateEvent reg addr StateClosed) addr = None /\
  (forall other : string, other <> addr ->
     sessions (ConnStateEvent reg addr StateClosed) !! other = sessions reg !! other /\
     GetConn (ConnStateEvent reg addr StateClosed) other = GetConn reg other) /\
  (forall event : ConnState, event <> StateClosed -> ConnStateEvent reg addr event = reg).
Proof.
  unfold GetSession, GetPairSetupSession, GetPairVerifySession, GetConn, ConnStateEvent.
  cbn [sessions conns]. rewrite !lookup_delete_eq.
  repeat (split; [reflexivity|]). split.
  - intros other Hne. now rewrite !lookup_delete_ne by congruence.
  - intros [] H; try reflexivity. now contradiction H.
Qed.

(** X6: the map holds one session value per remote address.  After
    [SetSession], the getter of the kind that was stored returns the value, the
    getters of the two other kinds fail, whatever was stored at the address
    before is replaced, and other addresses are untouched; and for no address
    do two getters of different kinds succeed. *)
Theorem SetSession_kinds (reg : registry) (addr : string) (v : session_value) :
  let reg' := SetSession reg addr v in
  match v with
  | SetupSession s =>
      GetPairSetupSession reg' addr = Some s /\
      GetPairVerifySession reg' addr = None /\ GetSession reg' addr = None
  | VerifySession s =>
      GetPairVerifySession reg' addr = Some s /\
      GetPairSetupSession reg' addr = None /\ GetSession reg' addr = None
  | EstablishedSession s =>
      GetSession reg' addr = Some s /\
      GetPairSetupSession reg' addr = None /\ GetPairVerifySession reg' addr = None
  end /\
  (forall other : string, other <> addr ->
     GetSession reg' other = GetSession reg other /\
     GetPairSetupSession reg' other = GetPairSetupSession reg other /\
     GetPairVerifySession reg' other = GetPairVerifySession reg other) /\
  conns reg' = conns reg /\
  (forall a : string,
     (is_Some (GetSession reg a) -> GetPairSetupSession reg a = None /\
                                    GetPairVerifySession reg a = None) /\
     (is_Some (GetPairSetupSession reg a) -> GetPairVerifySession reg a = None)).
Proof.
  cbv zeta. unfold GetSession, GetPairSetupSession, GetPairVerifySession, SetSession.
  cbn [sessions conns]. split; [|split; [|split]].
  - rewrite lookup_insert_eq. destruct v; repeat split.
  - intros other Hne. now rewrite lookup_insert_ne by congruence.
  - reflexivity.
  - intros a. destruct (sessions reg !! a) as [[?|?|?]|]; split;
      intros [x Hx]; try discriminate; repeat split.
Qed.

End RegistryFacts.

(** ** The file system store: round trips, frames and file names *)

Module FsStoreMore.
Import FsStore FsStoreFacts.

(** X7: [Get] after [Set] returns the value that was set exactly when the
    file was not longer than the value before (a missing file counts as
    empty); in every case it returns the value followed by what the file held
    beyond its length. *)
Theorem Get_Set_roundtrip (Path : string) (fs : files) (key : string) (value : list byte) :
  let old := default [] (fs !! filePathToFile Path key) in
  fsStore_Get Path (fsStore_Set Path fs key value) key
    = Ok (value ++ drop (length value) old) /\
  (fsStore_Get Path (fsStore_Set Path fs key value) key = Ok value <->
   (length old <= length value)%nat).
Proof.
  cbv zeta. rewrite Get_Set. unfold write_at_start. split; [reflexivity|].
  set (old := default [] (fs !! filePathToFile Path key)). split.
  - intros [= H]. apply (f_equal length) in H.
    rewrite length_app, length_drop in H. lia.
  - intros Hle. now rewrite drop_ge, app_nil_r by lia.
Qed.

(** The examples of the documentation of [filepath.Join] and [filepath.Clean],
    and keys that the cleaning sends to one file. *)
Lemma filepath_Join_examples :
  filepath_Join "a" "b" = "a/b" /\
  filepath_Join "a" EmptyString = "a" /\
  filepath_Join EmptyString "b" = "b" /\
  filepath_Join EmptyString EmptyString = EmptyString /\
  filepath_Join "a/b" "../../../xyz" = "../xyz" /\
  filepath_Join "/" "a" = "/a" /\
  filepath_Clean "/../a//b/./c/.." = "/a/b" /\
  filepath_Clean "a/c/../.." = "." /\
  filePathToFile "db" "keypair" = "db/keypair" /\
  filePathToFile "db" "./keypair" = "db/keypair" /\
  filePathToFile "db" "keypair/" = "db/keypair" /\
  filePathToFile "db" "a/../key:pair" = "db/keypair" /\
  filePathToFile "db" "../db/keypair" = "db/keypair".
Proof. repeat split. Qed.

(** X8: [Set] and [Delete] touch one file.  For a key whose file, the cleaned
    path that [filepath.Join] makes of the directory and the sanitized key,
    is another one, [Get] returns what it returned before; and two keys with
    the same file are one entry: what is set under one is read under the
    other, and deleting one deletes the other. *)
Theorem Set_Delete_frame (Path : string) (fs : files) (key key' : string)
  (value : list byte) :
  (filePathToFile Path key <> filePathToFile Path key' ->
   fsStore_Get Path (fsStore_Set Path fs key value) key' = fsStore_Get Path fs key' /\
   (forall fs' : files, fsStore_Delete Path fs key = Ok fs' ->
      fsStore_Get Path fs' key' = fsStore_Get Path fs key')) /\
  (filePathToFile Path key = filePathToFile Path key' ->
   fsStore_Get Path (fsStore_Set Path fs key value) key'
     = fsStore_Get Path (fsStore_Set Path fs key value) key /\
   (forall fs' : files, fsStore_Delete Path fs key = Ok fs' ->
      fsStore_Get Path fs' key' = Err ErrNotExist)).
Proof.
  split.
  - intros Hne. unfold fsStore_Get, fsStore_Set, fsStore_Delete. split.
    + now rewrite lookup_insert_ne.
    + intros fs'. destruct (fs !! filePathToFile Path key); [|discriminate].
      intros [= <-]. now rewrite lookup_delete_ne.
  - intros Heq. unfold fsStore_Get, fsStore_Set, fsStore_Delete. rewrite <- Heq.
    split; [reflexivity|].
    intros fs'. destruct (fs !! filePathToFile Path key); [|discriminate].
    intros [= <-]. now rewrite lookup_delete_eq.
Qed.

(** The key pair and the schema are two files; [./keypair] is the key pair. *)
Lemma Set_Delete_frame_witness :
  (fsStore_Get "db" (fsStore_Set "db" ∅ "keypair" [Byte.x7b; Byte.x7d]) "schema"
   = fsStore_Get "db" ∅ "schema") /\
  (fsStore_Get "db" (fsStore_Set "db" ∅ "keypair" [Byte.x7b; Byte.x7d]) "./keypair"
   = fsStore_Get "db" (fsStore_Set "db" ∅ "keypair" [Byte.x7b; Byte.x7d]) "keypair").
Proof.
  split.
  - refine (proj1 (proj1 (Set_Delete_frame "db" ∅ "keypair" "schema"
                            [Byte.x7b; Byte.x7d]) _)).
    vm_compute. discriminate.
  - refine (proj1 (proj2 (Set_Delete_frame "db" ∅ "keypair" "./keypair"
                            [Byte.x7b; Byte.x7d]) _)).
    vm_compute. reflexivity.
Defined.

(** X9: [Delete] fails exactly when the key has no file, and then [Get]
    fails too; after a [Delete] that succeeded [Get] fails, and the next [Set]
    starts from an empty file: [Get] returns exactly the value set. *)
Theorem Delete_then_Set (Path : string) (fs : files) (key : string) :
  match fsStore_Delete Path fs key with
  | Err e => e = ErrNotExist /\ fsStore_Get Path fs key = Err ErrNotExist
  | Ok fs' =>
      (exists content, fsStore_Get Path fs key = Ok content) /\
      fsStore_Get Path fs' key = Err ErrNotExist /\
      fsStore_Delete Path fs' key = Err ErrNotExist /\
      forall value : list byte,
        fsStore_Get Path (fsStore_Set Path fs' key value) key = Ok value
  end.
Proof.
  unfold fsStore_Delete.
  destruct (fs !! filePathToFile Path key) as [content|] eqn:E.
  - split; [exists content; now apply Get_content|].
    assert (Hd : delete (filePathToFile Path key) fs !! filePathToFile Path key = None)
      by apply lookup_delete_eq.
    split; [unfold fsStore_Get; now rewrite Hd|].
    split; [now rewrite Hd|].
    intros value. rewrite Get_Set, Hd. unfold write_at_start. cbn [default].
    now rewrite drop_nil, app_nil_r.
  - split; [reflexivity|]. unfold fsStore_Get. now rewrite E.
Qed.

Lemma sanitizeFilename_no_colon (s : string) :
  ~ In ":"%char (list_ascii_of_string (sanitizeFilename s)).
Proof.
  induction s as [|c s IH]; [intros []|].
  cbn [sanitizeFilename]. destruct (Ascii.eqb_spec c ":"%char) as [->|Hne]; [exact IH|].
  cbn [list_ascii_of_string]. intros [H|H]; [congruence | now apply IH].
Qed.

Lemma sanitizeFilename_id (s : string) :
  ~ In ":"%char (list_ascii_of_string s) -> sanitizeFilename s = s.
Proof.
  induction s as [|c s IH]; [reflexivity|].
  cbn [list_ascii_of_string sanitizeFilename]. intros Hnot.
  destruct (Ascii.eqb_spec c ":"%char) as [->|Hne]; [exfalso; apply Hnot; now left|].
  rewrite IH; [reflexivity|]. intros H. apply Hnot. now right.
Qed.

(** X10: [sanitizeFilename] removes every colon and nothing else: its result
    has no colon, a name without colon is returned as it is, and sanitizing
    twice is sanitizing once.  Hence two keys that differ only by colons name
    one file: what is [Set] under one is what [Get] returns under the other. *)
Theorem sanitizeFilename_colons (s : string) :
  ~ In ":"%char (list_ascii_of_string (sanitizeFilename s)) /\
  (sanitizeFilename s = s <-> ~ In ":"%char (list_ascii_of_string s)) /\
  sanitizeFilename (sanitizeFilename s) = sanitizeFilename s /\
  (forall (Path : string) (fs : files) (key' : string) (value : list byte),
     sanitizeFilename key' = sanitizeFilename s ->
     fsStore_Get Path (fsStore_Set Path fs s value) key'
       = fsStore_Get Path (fsStore_Set Path fs s value) s).
Proof.
  split; [apply sanitizeFilename_no_colon|]. split; [|split].
  - split; [|apply sanitizeFilename_id].
    intros <-. apply sanitizeFilename_no_colon.
  - apply sanitizeFilename_id, sanitizeFilename_no_colon.
  - intros Path fs key' value Heq. unfold fsStore_Get, filePathToFile. now rewrite Heq.
Qed.

End FsStoreMore.

(** ** The pairings on the file system store *)

Module FsStorerFacts.
Import FsStore FsStoreFacts FsStoreMore FsStorer.

Lemma append_assoc (a b c : string) :
  String.append (String.append a b) c = String.append a (String.append b c).
Proof.
  induction a as [|x a IH]; [reflexivity|].
  change (String x (String.append (String.append a b) c)
          = String x (String.append a (String.append b c))).
  now rewrite IH.
Qed.

Lemma decode_hex_byte (b : byte) (rest : string) :
  decode_hex (String.append (hex_byte b) rest) = b :: decode_hex rest.
Proof. destruct b; reflexivity. Qed.

Lemma sanitize_hex_byte (b : byte) (rest : string) :
  sanitizeFilename (String.append (hex_byte b) rest)
    = String.append (hex_byte b) (sanitizeFilename rest).
Proof. destruct b; reflexivity. Qed.

Lemma decode_hex_Encode (bs : list byte) (suffix : string) :
  decode_hex suffix = [] ->
  decode_hex (String.append (EncodeToString bs) suffix) = bs.
Proof.
  intros Hs. induction bs as [|b bs IH]; [exact Hs|].
  cbn [EncodeToString]. rewrite append_assoc, decode_hex_byte. now rewrite IH.
Qed.

Lemma sanitize_Encode (bs : list byte) (suffix : string) :
  sanitizeFilename (String.append (EncodeToString bs) suffix)
    = String.append (EncodeToString bs) (sanitizeFilename suffix).
Proof.
  induction bs as [|b bs IH]; [reflexivity|].
  cbn [EncodeToString]. rewrite append_assoc, sanitize_hex_byte. now rewrite IH.
Qed.

Lemma decode_hex_keyForPairingName (s : string) :
  decode_hex (keyForPairingName s) = String.list_byte_of_string s.
Proof. unfold keyForPairingName. now apply decode_hex_Encode. Qed.

Lemma keyForPairingName_injective (x y : string) :
  keyForPairingName x = keyForPairingName y -> x = y.
Proof.
  intros H. apply (f_equal decode_hex) in H. rewrite !decode_hex_keyForPairingName in H.
  apply (f_equal String.string_of_list_byte) in H.
  now rewrite !String.string_of_list_byte_of_string in H.
Qed.

Lemma sanitizeFilename_keyForPairingName (s : string) :
  sanitizeFilename (keyForPairingName s) = keyForPairingName s.
Proof. unfold keyForPairingName. now rewrite sanitize_Encode. Qed.

(** *** File names that [filepath.Join] only prefixes *)

Lemma path_elements_nonempty (p : string) : path_elements p <> [].
Proof.
  induction p as [|c p IH]; [discriminate|]. cbn [path_elements].
  destruct (Ascii.eqb c "/"); [discriminate|]. now destruct (path_elements p).
Qed.

(** The elements of two paths joined by a separator. *)
Lemma path_elements_app (p q : string) :
  path_elements (String.append p (String "/" q)) = path_elements p ++ path_elements q.
Proof.
  induction p as [|c p IH]; [reflexivity|].
  change (String.append (String c p) (String "/" q))
    with (String c (String.append p (String "/" q))).
  cbn [path_elements]. rewrite IH. destruct (Ascii.eqb c "/"); [reflexivity|].
  destruct (path_elements p) as [|e es] eqn:E; [now apply path_elements_nonempty in E|].
  reflexivity.
Qed.

Lemma path_elements_cons (c : ascii) (r : string) :
  c <> "/"%char -> path_elements r = [r] -> path_elements (String c r) = [String c r].
Proof.
  intros Hc Hr. cbn [path_elements]. rewrite Hr.
  now destruct (Ascii.eqb_spec c "/"%char).
Qed.

Lemma path_elements_head (c : ascii) (r : string) :
  path_elements (String c r) = [String c r] -> Ascii.eqb c "/"%char = false.
Proof.
  cbn [path_elements]. destruct (Ascii.eqb c "/"); [discriminate | reflexivity].
Qed.

Lemma join_elements_snoc (es : list string) (k : string) :
  join_elements (es ++ [k])
  = String.append (match es with
                   | [] => EmptyString
                   | _ :: _ => String.append (join_elements es) "/"
                   end) k.
Proof.
  induction es as [|e es IH]; [reflexivity|].
  destruct es as [|e' es].
  - change (String.append e (String "/" k) = String.append (String.append e "/") k).
    now rewrite append_assoc.
  - change (String.append e (String "/" (join_elements ((e' :: es) ++ [k])))
            = String.append
                (String.append (String.append e (String "/" (join_elements (e' :: es)))) "/")
                k).
    rewrite IH, !append_assoc. reflexivity.
Qed.

Lemma append_inv_head (pre a b : string) :
  String.append pre a = String.append pre b -> a = b.
Proof.
  induction pre as [|c pre IH]; [trivial|].
  change (String c (String.append pre a) = String c (String.append pre b) -> a = b).
  intros [= H]. now apply IH.
Qed.

(** A name that is one element, and neither empty nor [.] nor [..], is
    written as it is. *)
Lemma clean_step_name (rooted : bool) (out : list string) (k : string) :
  k <> EmptyString -> k <> "." -> k <> ".." -> clean_step rooted out k = k :: out.
Proof.
  intros H0 H1 H2. unfold clean_step.
  now rewrite !bool_decide_eq_false_2 by assumption.
Qed.

Lemma filepath_Clean_name (k : string) :
  path_elements k = [k] -> k <> EmptyString -> k <> "." -> k <> ".." ->
  filepath_Clean k = k.
Proof.
  intros Hk H0 H1 H2. destruct k as [|c r]; [congruence|].
  unfold filepath_Clean. rewrite (path_elements_head c r Hk), Hk.
  cbn [fold_left]. now rewrite clean_step_name.
Qed.

(** [filepath.Join] of a directory and such a name is the name after a prefix
    that the directory alone decides. *)
Lemma filepath_Join_name (dir : string) :
  exists pre : string,
    forall k : string,
      path_elements k = [k] -> k <> EmptyString -> k <> "." -> k <> ".." ->
      filepath_Join dir k = String.append pre k.
Proof.
  destruct dir as [|c p].
  - exists EmptyString. intros k Hk H0 H1 H2. unfold filepath_Join.
    rewrite bool_decide_eq_true_2 by reflexivity.
    rewrite bool_decide_eq_false_2 by assumption.
    now apply filepath_Clean_name.
  - set (rooted := Ascii.eqb c "/"%char).
    set (out := rev (fold_left (clean_step rooted) (path_elements (String c p)) [])).
    set (pre := match out with
                | [] => EmptyString
                | _ :: _ => String.append (join_elements out) "/"
                end).
    exists (if rooted then String "/" pre else pre).
    intros k Hk H0 H1 H2. unfold filepath_Join.
    rewrite bool_decide_eq_false_2 by discriminate.
    assert (Hel : path_elements (String.append (String c p) (String "/" k))
                  = path_elements (String c p) ++ [k])
      by now rewrite path_elements_app, Hk.
    change (String.append (String c p) (String "/" k))
      with (String c (String.append p (String "/" k))) in *.
    unfold filepath_Clean. fold rooted. rewrite Hel, fold_left_app.
    cbn [fold_left]. rewrite clean_step_name by assumption.
    cbn [rev]. fold out. rewrite join_elements_snoc. fold pre.
    destruct rooted; [reflexivity|]. now destruct out.
Qed.

Lemma path_elements_hex_byte (b : byte) (rest : string) :
  path_elements rest = [rest] ->
  path_elements (String.append (hex_byte b) rest) = [String.append (hex_byte b) rest].
Proof.
  intros Hr. unfold hex_byte.
  change (path_elements
            (String (hexdigit (Byte.to_nat b / 16))
               (String (hexdigit (Byte.to_nat b mod 16)) rest))
          = [String (hexdigit (Byte.to_nat b / 16))
               (String (hexdigit (Byte.to_nat b mod 16)) rest)]).
  apply path_elements_cons; [destruct b; discriminate|].
  apply path_elements_cons; [destruct b; discriminate | exact Hr].
Qed.

Lemma path_elements_Encode (bs : list byte) (suffix : string) :
  path_elements suffix = [suffix] ->
  path_elements (String.append (EncodeToString bs) suffix)
    = [String.append (EncodeToString bs) suffix].
Proof.
  intros Hs. induction bs as [|b bs IH]; [exact Hs|].
  cbn [EncodeToString]. rewrite append_assoc. now apply path_elements_hex_byte.
Qed.

(** The key of a pairing is such a name. *)
Lemma keyForPairingName_name (s : string) :
  path_elements (keyForPairingName s) = [keyForPairingName s] /\
  keyForPairingName s <> EmptyString /\ keyForPairingName s <> "." /\
  keyForPairingName s <> "..".
Proof.
  unfold keyForPairingName. split; [now apply path_elements_Encode|].
  destruct (String.list_byte_of_string s) as [|b bs].
  - repeat split; discriminate.
  - cbn [EncodeToString]. rewrite append_assoc.
    repeat split; destruct b; discriminate.
Qed.

Lemma filePathToFile_keyForPairingName_inj (Path a b : string) :
  filePathToFile Path (keyForPairingName a) = filePathToFile Path (keyForPairingName b) ->
  a = b.
Proof.
  unfold filePathToFile. rewrite !sanitizeFilename_keyForPairingName.
  destruct (filepath_Join_name Path) as [pre Hpre].
  destruct (keyForPairingName_name a) as (Ha & Ha0 & Ha1 & Ha2).
  destruct (keyForPairingName_name b) as (Hb & Hb0 & Hb1 & Hb2).
  rewrite (Hpre _ Ha Ha0 Ha1 Ha2), (Hpre _ Hb Hb0 Hb1 Hb2).
  intros H. apply append_inv_head in H. now apply keyForPairingName_injective.
Qed.

(** X11: the file of a pairing is determined by the name of the pairing and
    determines it: [keyForPairingName] is injective, its result has no colon
    and so is left alone by [sanitizeFilename], in a store without directory
    the file is the key itself, and in every directory two names with the
    same pairing file are the same name; and no pairing key is the key of an
    old entity, the key pair or the schema. *)
Theorem keyForPairingName_inj (Path a b : string) :
  (keyForPairingName a = keyForPairingName b -> a = b) /\
  sanitizeFilename (keyForPairingName a) = keyForPairingName a /\
  filePathToFile EmptyString (keyForPairingName a) = keyForPairingName a /\
  (filePathToFile Path (keyForPairingName a) = filePathToFile Path (keyForPairingName b) ->
   a = b) /\
  decode_hex (keyForPairingName a) = String.list_byte_of_string a /\
  keyForPairingName a <> keyForName b /\
  keyForPairingName a <> "keypair" /\ keyForPairingName a <> "schema".
Proof.
  pose proof decode_hex_keyForPairingName as Hdec.
  pose proof keyForPairingName_injective as Hinj.
  assert (Hsuffix : forall (bs bs' : list byte) (s1 s2 : string),
            decode_hex s1 = [] -> decode_hex s2 = [] -> s1 <> s2 ->
            (forall b r, s1 <> String.append (hex_byte b) r) ->
            (forall b r, s2 <> String.append (hex_byte b) r) ->
            String.append (EncodeToString bs) s1 <> String.append (EncodeToString bs') s2).
  { intros bs bs' s1 s2 H1 H2 Hne Hh1 Hh2 Heq.
    assert (Hb : bs = bs').
    { apply (f_equal decode_hex) in Heq. now rewrite !decode_hex_Encode in Heq. }
    subst bs'. clear H1 H2 Hh1 Hh2. induction bs as [|x bs IH]; [now apply Hne|].
    apply IH. cbn [EncodeToString] in Heq. rewrite !append_assoc in Heq.
    unfold hex_byte in Heq. cbn [String.append] in Heq. now injection Heq. }
  split; [apply Hinj|]. split; [apply sanitizeFilename_keyForPairingName|]. split.
  { unfold filePathToFile, filepath_Join.
    rewrite sanitizeFilename_keyForPairingName.
    destruct (keyForPairingName_name a) as (Ha & Ha0 & Ha1 & Ha2).
    rewrite bool_decide_eq_true_2 by reflexivity.
    rewrite bool_decide_eq_false_2 by assumption.
    now apply filepath_Clean_name. }
  split; [apply filePathToFile_keyForPairingName_inj|].
  split; [apply Hdec|]. split.
  { unfold keyForPairingName, keyForName. apply Hsuffix; try reflexivity; try discriminate;
      intros x r; destruct x; discriminate. }
  assert (Hplain : forall s : string, decode_hex s = [] -> s <> ".pairing" ->
            (forall x r, s <> String.append (hex_byte x) r) ->
            keyForPairingName a <> s).
  { intros s Hs Hne Hh Heq. unfold keyForPairingName in Heq.
    apply (Hsuffix (String.list_byte_of_string a) [] ".pairing" s); try assumption;
      try reflexivity; try congruence.
    intros x r; destruct x; discriminate. }
  split; apply Hplain; try reflexivity; try discriminate;
    intros x r; destruct x; discriminate.
Qed.

Section Pairings.

Variable json_Marshal : Pairing -> result (list byte).
Variable json_Unmarshal : list byte -> result Pairing.
Variable Path : string.

(** X12: [SavePairing] writes the JSON of the pairing to the file of its name
    and nowhere else.  [Pairing] of that name then decodes the JSON followed by
    what the file held beyond its length, so it returns the saved pairing when
    the file was not longer than the new JSON (and the JSON decodes to the
    pairing); the pairing of any other name reads as before; and after
    [DeletePairing] of the name, [Pairing] fails. *)
Theorem storer_SavePairing_Pairing (fs : files) (p : Pairing) (b : list byte) :
  json_Marshal p = Ok b ->
  let old := default [] (fs !! filePathToFile Path (keyForPairingName (Name p))) in
  exists fs' : files,
    storer_SavePairing json_Marshal Path fs p = Ok fs' /\
    storer_Pairing json_Unmarshal Path fs' (Name p)
      = json_Unmarshal (b ++ drop (length b) old) /\
    ((length old <= length b)%nat -> json_Unmarshal b = Ok p ->
     storer_Pairing json_Unmarshal Path fs' (Name p) = Ok p) /\
    (forall name : string, name <> Name p ->
       storer_Pairing json_Unmarshal Path fs' name
       = storer_Pairing json_Unmarshal Path fs name) /\
    (exists fs'' : files,
       storer_DeletePairing Path fs' (Name p) = Ok fs'' /\
       storer_Pairing json_Unmarshal Path fs'' (Name p) = Err ErrNotExist).
Proof.
  intros Hm old. unfold storer_SavePairing. rewrite Hm. eexists. split; [reflexivity|].
  assert (Hget : fsStore_Get Path (fsStore_Set Path fs (keyForPairingName (Name p)) b)
                   (keyForPairingName (Name p)) = Ok (b ++ drop (length b) old)).
  { rewrite Get_Set. reflexivity. }
  split; [|split; [|split]].
  - unfold storer_Pairing, pairingForKey. now rewrite Hget.
  - intros Hle Hu. unfold storer_Pairing, pairingForKey. rewrite Hget.
    now rewrite drop_ge, app_nil_r by exact Hle.
  - intros name Hne. unfold storer_Pairing, pairingForKey.
    assert (Hfile : filePathToFile Path (keyForPairingName (Name p))
                    <> filePathToFile Path (keyForPairingName name)).
    { intros Heq. apply Hne. symmetry.
      now apply (filePathToFile_keyForPairingName_inj Path). }
    unfold fsStore_Get, fsStore_Set. now rewrite lookup_insert_ne.
  - unfold storer_DeletePairing, fsStore_Delete, fsStore_Set.
    rewrite lookup_insert_eq. eexists. split; [reflexivity|].
    unfold storer_Pairing, pairingForKey, fsStore_Get. now rewrite lookup_delete_eq.
Qed.

End Pairings.

(** A pairing saved on an empty directory. *)
Lemma storer_SavePairing_Pairing_witness :
  let p := mkPairing "controller" None Byte.x00 in
  exists fs' : files,
    storer_SavePairing toy_Marshal "db" ∅ p = Ok fs' /\
    storer_Pairing toy_Unmarshal "db" fs' "controller"
      = toy_Unmarshal (String.list_byte_of_string "controller"
                         ++ drop (length (String.list_byte_of_string "controller")) []) /\
    ((0 <= length (String.list_byte_of_string "controller"))%nat ->
     toy_Unmarshal (String.list_byte_of_string "controller") = Ok p ->
     storer_Pairing toy_Unmarshal "db" fs' "controller" = Ok p) /\
    (forall name : string, name <> "controller" ->
       storer_Pairing toy_Unmarshal "db" fs' name
       = storer_Pairing toy_Unmarshal "db" ∅ name) /\
    (exists fs'' : files,
       storer_DeletePairing "db" fs' "controller" = Ok fs'' /\
       storer_Pairing toy_Unmarshal "db" fs'' "controller" = Err ErrNotExist).
Proof.
  cbv zeta.
  refine (storer_SavePairing_Pairing toy_Marshal toy_Unmarshal "db" ∅
            (mkPairing "controller" None Byte.x00)
            (String.list_byte_of_string "controller") _).
  reflexivity.
Defined.

End FsStorerFacts.

(** ** Pairings administration: refusals, frames and listing *)

Module PairingsMore.
Import Storer Registry Tlv PairingsAdmin PairingsFacts.

(** The connections after the handler: each is as before or closed. *)
Lemma Pairings_handler_conns (st : storer) (reg : registry) (remote : string)
  (body : result pairingsRequest) :
  exists f : string -> Conn -> Conn,
    (forall a c, f a c = c \/ f a c = Close c) /\
    forall addr : string,
      conns (Pairings_handler st reg remote body).2 !! addr = f addr <$> conns reg !! addr.
Proof.
  assert (Hid : exists f : string -> Conn -> Conn,
            (forall a c, f a c = c \/ f a c = Close c) /\
            forall addr : string, conns reg !! addr = f addr <$> conns reg !! addr).
  { exists (fun _ c => c). split; [now left|]. intros addr.
    now destruct (conns reg !! addr). }
  unfold Pairings_handler.
  destruct (negb (isPaired st)); [exact Hid|].
  destruct (GetSession reg remote) as [ss|]; [|exact Hid].
  destruct body as [d|e]; [|exact Hid].
  destruct (bool_decide (d_Method d = MethodAddPairing)).
  { unfold addPairing. destruct (negb _); [exact Hid|].
    destruct (match st_Pairing st (d_Identifier d) with Ok _ => _ | Err _ => _ end);
      [|exact Hid].
    destruct (savePairing st _); exact Hid. }
  destruct (bool_decide (d_Method d = MethodDeletePairing)).
  { unfold removePairing. destruct (negb _); [exact Hid|].
    destruct (st_Pairing st (d_Identifier d)) as [p|]; [|exact Hid].
    destruct (deletePairing st p) as [st'|]; [|exact Hid].
    cbn [snd conns]. destruct (negb (pairedWithAdmin st')).
    - exists (fun _ c => Close c). split; [now right|].
      intros addr. unfold close_all, Conns. apply lookup_fmap.
    - exists (close_controller reg (Name p)). split.
      + intros a c. rewrite close_controller_spec.
        destruct (GetSession reg a); [|now left]. destruct (decide _); [now right | now left].
      + intros addr. unfold close_removed, Conns. rewrite map_lookup_imap.
        now destruct (conns reg !! addr). }
  destruct (bool_decide (d_Method d = MethodListPairings)); exact Hid.
Qed.

(** X14: whatever the request, the [Pairings] handler leaves the map of
    sessions as it is, adds and removes no [Conn] and reopens none that was
    closed, keeps every pairing stored under the key of its name, and changes
    the store or the connections only when it replies State=2. *)
Theorem Pairings_handler_frame (st : storer) (reg : registry) (remote : string)
  (body : result pairingsRequest) :
  let out := Pairings_handler st reg remote body in
  sessions out.2 = sessions reg /\
  (forall addr : string,
     is_Some (conns out.2 !! addr) <-> is_Some (conns reg !! addr)) /\
  (forall (addr : string) (c c' : Conn),
     conns reg !! addr = Some c -> conns out.2 !! addr = Some c' ->
     closed c = true -> closed c' = true) /\
  (out.1.1 <> TlvReply None (TlvState Step2) -> out.1.2 = st /\ out.2 = reg) /\
  (store_wf st -> store_wf out.1.2).
Proof.
  cbv zeta.
  destruct (Pairings_handler_conns st reg remote body) as (f & Hf & Hconns).
  split; [|split; [|split; [|split]]].
  - unfold Pairings_handler.
    destruct (negb (isPaired st)); [reflexivity|].
    destruct (GetSession reg remote) as [ss|]; [|reflexivity].
    destruct body as [d|e]; [|reflexivity].
    destruct (bool_decide (d_Method d = MethodAddPairing)).
    { unfold addPairing. destruct (negb _); [reflexivity|].
      destruct (match st_Pairing st (d_Identifier d) with Ok _ => _ | Err _ => _ end);
        [|reflexivity].
      destruct (savePairing st _); reflexivity. }
    destruct (bool_decide (d_Method d = MethodDeletePairing)).
    { unfold removePairing. destruct (negb _); [reflexivity|].
      destruct (st_Pairing st (d_Identifier d)) as [p|]; [|reflexivity].
      destruct (deletePairing st p); reflexivity. }
    destruct (bool_decide (d_Method d = MethodListPairings)); reflexivity.
  - intros addr. rewrite Hconns. now rewrite fmap_is_Some.
  - intros addr c c' Hc Hc' Hclosed. rewrite Hconns, Hc in Hc'. injection Hc' as <-.
    destruct (Hf addr c) as [-> | ->]; [exact Hclosed | reflexivity].
  - unfold Pairings_handler.
    destruct (negb (isPaired st)); [now split|].
    destruct (GetSession reg remote) as [ss|]; [|now split].
    destruct body as [d|e]; [|now split].
    destruct (bool_decide (d_Method d = MethodAddPairing)).
    { unfold addPairing. destruct (negb _); [now split|].
      destruct (match st_Pairing st (d_Identifier d) with Ok _ => _ | Err _ => _ end);
        [|now split].
      destruct (savePairing st _); [|now split]. intros H. now contradiction H. }
    destruct (bool_decide (d_Method d = MethodDeletePairing)).
    { unfold removePairing. destruct (negb _); [now split|].
      destruct (st_Pairing st (d_Identifier d)) as [p|]; [|now split].
      destruct (deletePairing st p); [|now split]. intros H. now contradiction H. }
    destruct (bool_decide (d_Method d = MethodListPairings)); now split.
  - intros Hwf. unfold Pairings_handler.
    destruct (negb (isPaired st)); [exact Hwf|].
    destruct (GetSession reg remote) as [ss|]; [|exact Hwf].
    destruct body as [d|e]; [|exact Hwf].
    destruct (bool_decide (d_Method d = MethodAddPairing)).
    { unfold addPairing. destruct (negb _); [exact Hwf|].
      destruct (match st_Pairing st (d_Identifier d) with Ok _ => _ | Err _ => _ end)
        as [q|]; [|exact Hwf].
      destruct (savePairing st q) as [st'|] eqn:Es; [|exact Hwf].
      cbn [fst snd]. exact (SavePairing_wf st st' q Hwf Es). }
    destruct (bool_decide (d_Method d = MethodDeletePairing)).
    { unfold removePairing. destruct (negb _); [exact Hwf|].
      destruct (st_Pairing st (d_Identifier d)) as [p|]; [|exact Hwf].
      unfold deletePairing, DeletePairing.
      destruct (st !! Name p); [|exact Hwf]. cbn [fst snd].
      intros k q Hq. apply lookup_delete_Some in Hq as [_ Hq]. exact (Hwf k q Hq). }
    destruct (bool_decide (d_Method d = MethodListPairings)); exact Hwf.
Qed.

(** X13: [MethodAddPairing] and [MethodDeletePairing] need an admin: asked by
    a controller whose session's pairing has another permission, they are
    answered [TlvError=Authentication] with State 2, and the store and the
    registry stay as they are; and a State=2 reply to either is only given to
    an established session with admin permission on a paired accessory. *)
Theorem Pairings_needs_admin (st : storer) (reg : registry) (remote : string)
  (d : pairingsRequest) :
  d_Method d = MethodAddPairing \/ d_Method d = MethodDeletePairing ->
  let out := Pairings_handler st reg remote (Ok d) in
  (forall ss : Transport.Session,
     isPaired st = true -> GetSession reg remote = Some ss ->
     Permission (Transport.s_Pairing ss) <> PermissionAdmin ->
     out = (TlvReply None (TlvError Step2 TlvErrorAuthentication), st, reg)) /\
  (out.1.1 = TlvReply None (TlvState Step2) ->
   isPaired st = true /\
   exists ss : Transport.Session,
     GetSession reg remote = Some ss /\
     Permission (Transport.s_Pairing ss) = PermissionAdmin).
Proof.
  intros Hm. cbv zeta. unfold Pairings_handler. split.
  - intros ss Hp Hs Hperm. rewrite Hp, Hs. cbn [negb].
    unfold addPairing, removePairing. rewrite (bool_decide_eq_false_2 _ Hperm). cbn [negb].
    destruct Hm as [Hm|Hm]; rewrite Hm; reflexivity.
  - destruct (isPaired st); cbn [negb]; [|discriminate].
    destruct (GetSession reg remote) as [ss|]; [|discriminate].
    intros H. split; [reflexivity|]. exists ss. split; [reflexivity|].
    destruct (decide (Permission (Transport.s_Pairing ss) = PermissionAdmin)) as [?|Hne];
      [assumption|]. exfalso. revert H.
    unfold addPairing, removePairing. rewrite (bool_decide_eq_false_2 _ Hne). cbn [negb].
    destruct Hm as [Hm|Hm]; rewrite Hm; discriminate.
Qed.

(** A guest asks for the removal of the admin pairing. *)
Lemma Pairings_needs_admin_witness :
  Pairings_handler admin_store user_registry "192.168.0.9:40000"
    (Ok (mkPairingsRequest MethodDeletePairing "controller" None Byte.x00 Step1))
  = (TlvReply None (TlvError Step2 TlvErrorAuthentication), admin_store, user_registry).
Proof.
  refine (proj1 (Pairings_needs_admin admin_store user_registry "192.168.0.9:40000"
                   (mkPairingsRequest MethodDeletePairing "controller" None Byte.x00 Step1) _)
            user_session _ _ _).
  - now right.
  - vm_compute. reflexivity.
  - vm_compute. reflexivity.
  - vm_compute. discriminate.
Defined.

(** X15: [MethodListPairings] is open to every established session on a
    paired accessory, admin or not: the reply holds one record for each stored
    pairing, with its name, public key and permission, and nothing changes. *)
Theorem Pairings_list (st : storer) (reg : registry) (remote : string)
  (ss : Transport.Session) (d : pairingsRequest) :
  isPaired st = true -> GetSession reg remote = Some ss ->
  d_Method d = MethodListPairings ->
  Pairings_handler st reg remote (Ok d)
    = (TlvReply None (TlvPairings (listPairings st)), st, reg) /\
  length (listPairings st) = size st /\
  (forall r : PairingPayload,
     In r (listPairings st) <->
     exists (k : string) (p : Pairing),
       st !! k = Some p /\ r = mkPairingPayload (Name p) (PublicKey p) (Permission p)).
Proof.
  intros Hp Hs Hm. split; [|split].
  - unfold Pairings_handler. rewrite Hp, Hs, Hm. reflexivity.
  - unfold listPairings, Pairings. rewrite !length_fmap. apply length_map_to_list.
  - intros r. unfold listPairings. rewrite <- list_elem_of_In, list_elem_of_fmap. split.
    + intros (p & -> & Hin). apply list_elem_of_In, Pairings_elem in Hin as [k Hk].
      now exists k, p.
    + intros (k & p & Hk & ->). exists p. split; [reflexivity|].
      apply list_elem_of_In, Pairings_elem. now exists k.
Qed.

(** A guest lists the pairings. *)
Lemma Pairings_list_witness :
  Pairings_handler admin_store user_registry "192.168.0.9:40000"
    (Ok (mkPairingsRequest MethodListPairings "" None Byte.x00 Step1))
  = (TlvReply None (TlvPairings (listPairings admin_store)), admin_store, user_registry).
Proof.
  refine (proj1 (Pairings_list admin_store user_registry "192.168.0.9:40000" user_session
                   (mkPairingsRequest MethodListPairings "" None Byte.x00 Step1) _ _ _)).
  - vm_compute. reflexivity.
  - vm_compute. reflexivity.
  - reflexivity.
Defined.

End PairingsMore.

(** ** Pair setup: what it stores and what it leaves alone *)

Module PairSetupMore.
Import Storer Registry Tlv PairSetup PairSetupFacts.

Lemma isPaired_insert (st : storer) (k : string) (p : Pairing) :
  isPaired (<[k := p]> st) = true.
Proof.
  unfold isPaired, Pairings. rewrite length_fmap.
  destruct (map_to_list (<[k := p]> st)) as [|x l] eqn:E; [|reflexivity].
  apply map_to_list_empty_iff in E. exfalso. now apply (insert_non_empty st k p).
Qed.

Section Steps.

Variable cr : crypto.

Lemma pairSetupStep5_store (st : storer) (reg : registry) (remote : string)
  (data : pairSetupPayload) :
  (pairSetupStep5 cr st reg remote data).2 = st \/
  exists (p : Pairing) (enc : list byte),
    (pairSetupStep5 cr st reg remote data).1 = TlvReply None (TlvStep6 enc) /\
    Permission p = PermissionAdmin /\
    (pairSetupStep5 cr st reg remote data).2 = <[Name p := p]> st.
Proof.
  unfold pairSetupStep5.
  destruct (GetPairSetupSession reg remote); [|now left].
  destruct (Nat.ltb _ _); [now left|].
  destruct (chacha_DecryptAndVerify cr _ _ _ _ _); [|now left].
  destruct (tlv8_Unmarshal cr _) as [encData|]; [|now left].
  destruct (negb _); [now left|].
  destruct (hkdf_Sha512 cr _ _ _); [|now left].
  destruct (ed25519_Signature cr _ _); [|now left].
  destruct (tlv8_Marshal cr _ _ _); [|now left].
  right. destruct (chacha_EncryptAndSeal cr _ _ _ _) as [[enc mac]|];
    eexists (mkPairing _ _ _), _; (split; [reflexivity|]); split; reflexivity.
Qed.

Lemma pairSetupStep1_registry (reg : registry) (remote : string) (data : pairSetupPayload) :
  conns (pairSetupStep1 cr reg remote data).2 = conns reg /\
  (forall addr, addr <> remote ->
     sessions (pairSetupStep1 cr reg remote data).2 !! addr = sessions reg !! addr) /\
  (forall v, sessions (pairSetupStep1 cr reg remote data).2 !! remote = Some v ->
     sessions reg !! remote = Some v \/ exists s, v = SetupSession s).
Proof.
  unfold pairSetupStep1. destruct (newPairSetupSession cr) as [ss|]; cbn [snd].
  - unfold SetSession. cbn [sessions conns]. split; [reflexivity|]. split.
    + intros addr Hne. now rewrite lookup_insert_ne by congruence.
    + intros v. rewrite lookup_insert_eq. intros [= <-]. right. now eexists.
  - split; [reflexivity|]. split; [reflexivity | now left].
Qed.

Lemma pairSetupStep3_registry (reg : registry) (remote : string) (data : pairSetupPayload) :
  conns (pairSetupStep3 cr reg remote data).2 = conns reg /\
  (forall addr, addr <> remote ->
     sessions (pairSetupStep3 cr reg remote data).2 !! addr = sessions reg !! addr) /\
  (forall v, sessions (pairSetupStep3 cr reg remote data).2 !! remote = Some v ->
     sessions reg !! remote = Some v \/ exists s, v = SetupSession s).
Proof.
  assert (Hset : forall s0,
            conns (SetSession reg remote (SetupSession s0)) = conns reg /\
            (forall addr, addr <> remote ->
               sessions (SetSession reg remote (SetupSession s0)) !! addr
               = sessions reg !! addr) /\
            (forall v, sessions (SetSession reg remote (SetupSession s0)) !! remote = Some v ->
               sessions reg !! remote = Some v \/ exists s, v = SetupSession s)).
  { intros s0. unfold SetSession. cbn [sessions conns]. split; [reflexivity|]. split.
    - intros addr Hne. now rewrite lookup_insert_ne by congruence.
    - intros v. rewrite lookup_insert_eq. intros [= <-]. right. now eexists. }
  assert (Hid : conns reg = conns reg /\
            (forall addr, addr <> remote -> sessions reg !! addr = sessions reg !! addr) /\
            (forall v, sessions reg !! remote = Some v ->
               sessions reg !! remote = Some v \/ exists s, v = SetupSession s))
    by (split; [reflexivity|]; split; [reflexivity | now left]).
  unfold pairSetupStep3.
  destruct (GetPairSetupSession reg remote); [|exact Hid].
  destruct (SetupPrivateKeyFromClientPublicKey cr _ _); [|exact Hid].
  destruct (ProofFromClientProof cr _ _); [|apply Hset].
  destruct (SetupEncryptionKey cr _ _ _); apply Hset.
Qed.

End Steps.

Lemma pairSetup_store_cases (cr : crypto) (st : storer) (reg : registry) (remote : string)
  (body : result pairSetupPayload) :
  (pairSetup cr st reg remote body).1.2 = st \/
  exists (p : Pairing) (enc : list byte),
    (pairSetup cr st reg remote body).1.1 = TlvReply None (TlvStep6 enc) /\
    Permission p = PermissionAdmin /\
    (pairSetup cr st reg remote body).1.2 = <[Name p := p]> st.
Proof.
  unfold pairSetup.
  destruct (isPaired st); [now left|].
  destruct (other_session (Sessions reg) remote); [now left|].
  destruct body as [data|]; [|now left].
  destruct (bool_decide (Method data = MethodPair)).
  - destruct (bool_decide (State data = Step1)).
    { destruct (pairSetupStep1 cr reg remote data). now left. }
    destruct (bool_decide (State data = Step3)).
    { destruct (pairSetupStep3 cr reg remote data). now left. }
    destruct (bool_decide (State data = Step5)); [|now left].
    destruct (pairSetupStep5_store cr st reg remote data) as [H|(p & enc & Hr & Hp & Hst)];
      destruct (pairSetupStep5 cr st reg remote data) as [r st']; cbn [fst snd] in *.
    + now left.
    + right. now exists p, enc.
  - destruct (bool_decide (Method data = MethodPairMFi)); now left.
Qed.

(** X16: [pairSetup] changes the store only when it replies State 6, and
    then by saving one pairing with admin permission, after which the
    accessory is paired: every later pair-setup request, from any address and
    with any body, is refused with [TlvError=Unavailable] and changes nothing. *)
Theorem pairSetup_store (cr : crypto) (st : storer) (reg : registry) (remote : string)
  (body : result pairSetupPayload) :
  let out := pairSetup cr st reg remote body in
  out.1.2 = st \/
  exists (p : Pairing) (enc : list byte),
    out.1.1 = TlvReply None (TlvStep6 enc) /\
    Permission p = PermissionAdmin /\
    out.1.2 = <[Name p := p]> st /\
    forall (cr' : crypto) (reg' : registry) (remote' : string)
           (body' : result pairSetupPayload),
      pairSetup cr' out.1.2 reg' remote' body'
        = (TlvReply None (TlvError Step2 TlvErrorUnavailable), out.1.2, reg').
Proof.
  intros out.
  pose proof (pairSetup_store_cases cr st reg remote body) as H.
  change (pairSetup cr st reg remote body) with out in H. clearbody out.
  destruct H as [H|(p & enc & Hr & Hp & Hst)].
  - now left.
  - right. exists p, enc. split; [exact Hr|]. split; [exact Hp|]. split; [exact Hst|].
    intros cr' reg' remote' body'. rewrite Hst. unfold pairSetup.
    now rewrite isPaired_insert.
Qed.

(** X17: [pairSetup] never touches the connections nor the session of another
    address; the session of the requester is either left as it was or set to
    a pair-setup session. *)
Theorem pairSetup_registry (cr : crypto) (st : storer) (reg : registry) (remote : string)
  (body : result pairSetupPayload) :
  let out := pairSetup cr st reg remote body in
  conns out.2 = conns reg /\
  (forall addr : string, addr <> remote -> sessions out.2 !! addr = sessions reg !! addr) /\
  (forall v : session_value, sessions out.2 !! remote = Some v ->
     sessions reg !! remote = Some v \/ exists s, v = SetupSession s).
Proof.
  cbv zeta.
  assert (Hid : conns reg = conns reg /\
            (forall addr, addr <> remote -> sessions reg !! addr = sessions reg !! addr) /\
            (forall v, sessions reg !! remote = Some v ->
               sessions reg !! remote = Some v \/ exists s, v = SetupSession s))
    by (split; [reflexivity|]; split; [reflexivity | now left]).
  unfold pairSetup.
  destruct (isPaired st); [exact Hid|].
  destruct (other_session (Sessions reg) remote); [exact Hid|].
  destruct body as [data|]; [|exact Hid].
  destruct (bool_decide (Method data = MethodPair)).
  - destruct (bool_decide (State data = Step1)).
    { pose proof (pairSetupStep1_registry cr reg remote data) as H.
      now destruct (pairSetupStep1 cr reg remote data). }
    destruct (bool_decide (State data = Step3)).
    { pose proof (pairSetupStep3_registry cr reg remote data) as H.
      now destruct (pairSetupStep3 cr reg remote data). }
    destruct (bool_decide (State data = Step5)); [|exact Hid].
    now destruct (pairSetupStep5 cr st reg remote data).
  - destruct (bool_decide (Method data = MethodPairMFi)); exact Hid.
Qed.

(** X18: step 1 may be repeated from the same address.  On an accessory
    without pairing where no other address holds a session, a step-1 request
    whose session is created replies State 2 with the salt and the public key
    of the new session and puts it in the registry under the address of the
    request, in place of whatever session that address held. *)
Theorem pairSetup_step1 (cr : crypto) (st : storer) (reg : registry) (remote : string)
  (data : pairSetupPayload) (ss : PairSetupSession) :
  isPaired st = false ->
  (forall (addr : string) (v : session_value), sessions reg !! addr = Some v -> addr = remote) ->
  Method data = MethodPair -> State data = Step1 ->
  newPairSetupSession cr = Ok ss ->
  let out := pairSetup cr st reg remote (Ok data) in
  out = (TlvReply None (TlvStep2 (ps_Salt ss) (ps_PublicKey ss)), st,
         SetSession reg remote (SetupSession ss)) /\
  GetPairSetupSession out.2 remote = Some ss.
Proof.
  intros Hp Hother Hm Hs Hnew. cbv zeta.
  assert (Ho : other_session (Sessions reg) remote = false).
  { destruct (other_session (Sessions reg) remote) eqn:E; [|reflexivity].
    apply other_session_spec in E as (addr & v & Hl & Hne). now destruct (Hne (Hother _ _ Hl)). }
  assert (Hout : pairSetup cr st reg remote (Ok data)
                 = (TlvReply None (TlvStep2 (ps_Salt ss) (ps_PublicKey ss)), st,
                    SetSession reg remote (SetupSession ss))).
  { unfold pairSetup. rewrite Hp, Ho, Hm, Hs. cbn. unfold pairSetupStep1. now rewrite Hnew. }
  rewrite Hout. split; [reflexivity|]. unfold GetPairSetupSession, SetSession.
  cbn [snd sessions]. now rewrite lookup_insert_eq.
Qed.

(** The requester restarts pair-setup on its connection. *)
Lemma pairSetup_step1_witness :
  pairSetup step1_crypto ∅ setup_registry "192.168.0.5:50000"
    (Ok (mkPairSetupPayload MethodPair [] [] [] Step1))
  = (TlvReply None (TlvStep2 (ps_Salt example_setup_session)
                             (ps_PublicKey example_setup_session)), ∅,
     SetSession setup_registry "192.168.0.5:50000" (SetupSession example_setup_session)).
Proof.
  refine (proj1 (pairSetup_step1 step1_crypto ∅ setup_registry "192.168.0.5:50000"
                   (mkPairSetupPayload MethodPair [] [] [] Step1)
                   example_setup_session _ _ _ _ _)).
  - vm_compute. reflexivity.
  - intros addr v H. unfold setup_registry in H. cbn [sessions] in H.
    now apply lookup_singleton_Some in H as [<- _].
  - reflexivity.
  - reflexivity.
  - reflexivity.
Defined.

(** X19: steps 3 and 5 need the session of step 1, and step 5 needs 16 bytes
    of tag.  On an accessory without pairing where no other address holds a
    session: without a pair-setup session for the address, step 3 and step 5
    reply HTTP 500 with [TlvError=Unknown]; with one, a step-5 request whose
    encrypted data is shorter than 16 bytes makes the handler panic on the
    slice bounds.  Nothing is changed in either case. *)
Theorem pairSetup_steps_need_session (cr : crypto) (st : storer) (reg : registry)
  (remote : string) (data : pairSetupPayload) :
  isPaired st = false ->
  (forall (addr : string) (v : session_value), sessions reg !! addr = Some v -> addr = remote) ->
  Method data = MethodPair ->
  let out := pairSetup cr st reg remote (Ok data) in
  (GetPairSetupSession reg remote = None -> State data = Step3 ->
   out = (TlvReply (Some StatusInternalServerError) (TlvError Step2 TlvErrorUnknown), st, reg)) /\
  (GetPairSetupSession reg remote = None -> State data = Step5 ->
   out = (TlvReply (Some StatusInternalServerError) (TlvError Step6 TlvErrorUnknown), st, reg)) /\
  (is_Some (GetPairSetupSession reg remote) -> State data = Step5 ->
   (length (EncryptedData data) < 16)%nat -> out = (Panicked, st, reg)).
Proof.
  intros Hp Hother Hm. cbv zeta.
  assert (Ho : other_session (Sessions reg) remote = false).
  { destruct (other_session (Sessions reg) remote) eqn:E; [|reflexivity].
    apply other_session_spec in E as (addr & v & Hl & Hne). now destruct (Hne (Hother _ _ Hl)). }
  unfold pairSetup. rewrite Hp, Ho, Hm. cbn [bool_decide]. split; [|split].
  - intros Hn ->. cbn. unfold pairSetupStep3. now rewrite Hn.
  - intros Hn ->. cbn. unfold pairSetupStep5. now rewrite Hn.
  - intros [ses Hses] -> Hlen. cbn. unfold pairSetupStep5. rewrite Hses.
    apply Nat.ltb_lt in Hlen. now rewrite Hlen.
Qed.

(** A step-5 request with an empty payload, in the middle of pair-setup. *)
Lemma pairSetup_steps_need_session_witness :
  pairSetup no_crypto ∅ setup_registry "192.168.0.5:50000"
    (Ok (mkPairSetupPayload MethodPair [] [] [] Step5))
  = (Panicked, ∅, setup_registry).
Proof.
  refine (proj2 (proj2 (pairSetup_steps_need_session no_crypto ∅ setup_registry
                          "192.168.0.5:50000"
                          (mkPairSetupPayload MethodPair [] [] [] Step5) _ _ _)) _ _ _).
  - vm_compute. reflexivity.
  - intros addr v H. unfold setup_registry in H. cbn [sessions] in H.
    now apply lookup_singleton_Some in H as [<- _].
  - reflexivity.
  - vm_compute. now eexists.
  - reflexivity.
  - simpl. lia.
Defined.

End PairSetupMore.

(** ** Characteristics: lookup, the GET array, and what a PUT leaves alone *)

Module CharacteristicsMore.
Import Characteristics CharacteristicsFacts.

Lemma find_in_Cs_Some (h : heap) (cs : list nat) (iid : Z) (l : nat) :
  find_in_Cs h cs iid = Some l ->
  l ∈ cs /\ exists c : C, h !! l = Some c /\ c_Id c = iid.
Proof.
  induction cs as [|l0 cs IH]; [discriminate|]. cbn [find_in_Cs].
  destruct (h !! l0) as [c0|] eqn:E.
  - destruct (Z.eqb_spec (c_Id c0) iid) as [Hid|_].
    + intros [= <-]. split; [left|]. now exists c0.
    + intros H. destruct (IH H) as [H1 H2]. split; [now right | exact H2].
  - intros H. destruct (IH H) as [H1 H2]. split; [now right | exact H2].
Qed.

Lemma find_in_Cs_None (h : heap) (cs : list nat) (iid : Z) :
  find_in_Cs h cs iid = None ->
  forall (l : nat) (c : C), l ∈ cs -> h !! l = Some c -> c_Id c <> iid.
Proof.
  induction cs as [|l0 cs IH]; intros Hf l c Hin Hl.
  - now apply elem_of_nil in Hin.
  - cbn [find_in_Cs] in Hf. apply elem_of_cons in Hin as [->|Hin].
    + rewrite Hl in Hf. now destruct (Z.eqb_spec (c_Id c) iid).
    + destruct (h !! l0) as [c0|]; [|now apply (IH Hf l c)].
      destruct (c_Id c0 =? iid); [discriminate|]. now apply (IH Hf l c).
Qed.

Lemma find_in_Ss_Some (h : heap) (ss : list service_S) (iid : Z) (l : nat) :
  find_in_Ss h ss iid = Some l ->
  exists (s : service_S) (c : C), s ∈ ss /\ l ∈ s_Cs s /\ h !! l = Some c /\ c_Id c = iid.
Proof.
  induction ss as [|s0 ss IH]; [discriminate|]. cbn [find_in_Ss].
  destruct (find_in_Cs h (s_Cs s0) iid) as [l0|] eqn:E.
  - intros [= <-]. apply find_in_Cs_Some in E as (Hin & c & Hl & Hid).
    exists s0, c. split; [left|]. now split.
  - intros H. destruct (IH H) as (s & c & Hs & Hrest). exists s, c. split; [now right|exact Hrest].
Qed.

Lemma find_in_Ss_None (h : heap) (ss : list service_S) (iid : Z) :
  find_in_Ss h ss iid = None ->
  forall (s : service_S) (l : nat) (c : C),
    s ∈ ss -> l ∈ s_Cs s -> h !! l = Some c -> c_Id c <> iid.
Proof.
  induction ss as [|s0 ss IH]; intros Hf s l c Hs Hin Hl.
  - now apply elem_of_nil in Hs.
  - cbn [find_in_Ss] in Hf.
    destruct (find_in_Cs h (s_Cs s0) iid) as [l0|] eqn:E; [discriminate|].
    apply elem_of_cons in Hs as [->|Hs].
    + now apply (find_in_Cs_None h (s_Cs s0) iid E l c).
    + now apply (IH Hf s l c).
Qed.

(** X20: [findC] finds a characteristic exactly when there is one.  The
    pointer it returns is that of a characteristic with instance id [iid] in
    a service of an accessory (the server's own or a bridged one) with id
    [aid]; and it returns nil only when no accessory with id [aid] has a
    characteristic with instance id [iid]. *)
Theorem findC_spec (srv : accessories) (h : heap) (aid iid : Z) :
  (forall l : nat, findC srv h aid iid = Some l ->
     exists (a : accessory_A) (s : service_S) (c : C),
       a ∈ srv_a srv :: srv_as srv /\ a_Id a = aid /\ s ∈ a_Ss a /\ l ∈ s_Cs s /\
       h !! l = Some c /\ c_Id c = iid) /\
  (findC srv h aid iid = None ->
     forall (a : accessory_A) (s : service_S) (l : nat) (c : C),
       a ∈ srv_a srv :: srv_as srv -> a_Id a = aid -> s ∈ a_Ss a -> l ∈ s_Cs s ->
       h !! l = Some c -> c_Id c <> iid).
Proof.
  unfold findC. generalize (srv_a srv :: srv_as srv) as accs.
  induction accs as [|a0 accs [IH1 IH2]]; split.
  - discriminate.
  - intros _ a s l c Ha. now apply elem_of_nil in Ha.
  - intros l. cbn [find_in_As]. destruct (Z.eqb_spec (a_Id a0) aid) as [Haid|Hne].
    + destruct (find_in_Ss h (a_Ss a0) iid) as [l0|] eqn:E.
      * intros [= <-]. apply find_in_Ss_Some in E as (s & c & Hs & Hin & Hl & Hid).
        exists a0, s, c. split; [left|]. now repeat split.
      * intros H. destruct (IH1 l H) as (a & s & c & Ha & Hrest).
        exists a, s, c. split; [now right | exact Hrest].
    + intros H. destruct (IH1 l H) as (a & s & c & Ha & Hrest).
      exists a, s, c. split; [now right | exact Hrest].
  - cbn [find_in_As]. intros Hf a s l c Ha Haid Hs Hin Hl.
    apply elem_of_cons in Ha as [->|Ha].
    + destruct (Z.eqb_spec (a_Id a0) aid) as [_|Hne]; [|contradiction].
      destruct (find_in_Ss h (a_Ss a0) iid) as [l0|] eqn:E; [discriminate|].
      now apply (find_in_Ss_None h (a_Ss a0) iid E s l c).
    + apply (IH2 ltac:(destruct (a_Id a0 =? aid);
                       [destruct (find_in_Ss h (a_Ss a0) iid); [discriminate|]|]; exact Hf)
               a s l c); assumption.
Qed.

Section Get.

Variable ValueRequest : C -> string -> option value.
Variable to_Uint64 : string -> Z.

Local Abbreviation getOne := (getCharacteristic ValueRequest to_Uint64).
Local Abbreviation getLoop := (getCharacteristics_loop ValueRequest to_Uint64).

(** The loop of [GetCharacteristics] collects the elements of its bodies. *)
Lemma getCharacteristics_loop_omap srv h remote pr (strs : list string)
  (arr : list CharacteristicData) (err : bool) :
  getLoop srv h remote pr strs arr err
  = (arr ++ (omap (getOne srv h remote pr) strs).*1,
     err || existsb snd (omap (getOne srv h remote pr) strs)).
Proof.
  revert arr err. induction strs as [|str strs IH]; intros arr err.
  - cbn. now rewrite app_nil_r, orb_false_r.
  - cbn [getCharacteristics_loop omap list_omap].
    destruct (getOne srv h remote pr str) as [[cdata e]|].
    + rewrite IH. cbn [fmap list_fmap existsb fst snd].
      now rewrite <- app_assoc, orb_assoc.
    + apply IH.
Qed.

(** What the body of the loop produces for one element of the id list. *)
Lemma getCharacteristic_Some srv h remote pr (str : string) (d : CharacteristicData)
  (e : bool) :
  getOne srv h remote pr str = Some (d, e) ->
  exists id0 id1 : string,
    Split str "."%char = [id0; id1] /\ Aid d = to_Uint64 id0 /\ Iid d = to_Uint64 id1 /\
    match findC srv h (Aid d) (Iid d) ≫= (fun l => h !! l) with
    | None => e = true /\ Status d = Some JsonStatusServiceCommunicationFailure /\
              Value d = None
    | Some c => e = false /\ Status d = None /\ Value d = ValueRequest c remote
    end.
Proof.
  unfold getCharacteristic.
  destruct (Split str ".") as [|id0 [|id1 [|id2 ids]]]; try discriminate.
  cbn [Aid Iid newCharacteristicData].
  destruct (findC srv h (to_Uint64 id0) (to_Uint64 id1) ≫= (fun l => h !! l)) as [c|] eqn:E;
    intros [= <- <-]; exists id0, id1;
    cbn [Aid Iid Status Value set_Status newCharacteristicData]; rewrite E;
    repeat split; reflexivity.
Qed.

Lemma getCharacteristic_wellformed srv h remote pr (str : string) :
  length (Split str "."%char) = 2%nat -> is_Some (getOne srv h remote pr str).
Proof.
  unfold getCharacteristic.
  destruct (Split str ".") as [|id0 [|id1 [|id2 ids]]]; try discriminate. intros _.
  destruct (findC srv h _ _ ≫= _); now eexists.
Qed.

(** X21: the array of a GET.  For a paired accessory and a non-empty id
    list, the reply carries one entry per element of the list that splits
    into two parts at the dot, in the order of the list, with the aid and
    iid parsed from the parts; an entry whose characteristic is found has no
    status and the value of the read hook, one whose characteristic is not
    found has status -70402 and no value; and the reply is [jsonOK] when no
    entry has a status, else [jsonMultiStatus]. *)
Theorem GetCharacteristics_entries (srv : accessories) (h : heap) (remote : string)
  (pr : projection) (v : string) :
  String.length v <> 0%nat ->
  exists arr : list CharacteristicData,
    Forall2 (fun (d : CharacteristicData) (str : string) =>
               exists id0 id1 : string,
                 Split str "."%char = [id0; id1] /\
                 Aid d = to_Uint64 id0 /\ Iid d = to_Uint64 id1)
            arr
            (List.filter (fun str => Nat.eqb (length (Split str "."%char)) 2)
                         (Split v ","%char)) /\
    Forall (fun d : CharacteristicData =>
              match findC srv h (Aid d) (Iid d) ≫= (fun l => h !! l) with
              | None => Status d = Some JsonStatusServiceCommunicationFailure /\
                        Value d = None
              | Some c => Status d = None /\ Value d = ValueRequest c remote
              end) arr /\
    ((GetCharacteristics ValueRequest to_Uint64 true srv h remote v pr = JsonOK arr /\
      Forall (fun d => Status d = None) arr) \/
     (GetCharacteristics ValueRequest to_Uint64 true srv h remote v pr = JsonMultiStatus arr /\
      Exists (fun d => Status d = Some JsonStatusServiceCommunicationFailure) arr)).
Proof.
  intros Hv. unfold GetCharacteristics. cbn [negb].
  destruct (Nat.eqb_spec (String.length v) 0) as [?|_]; [contradiction|].
  rewrite getCharacteristics_loop_omap. cbn [app orb].
  generalize (Split v ",") as strs. intros strs.
  exists ((omap (getOne srv h remote pr) strs).*1). split; [|split].
  - induction strs as [|str strs IH]; [constructor|].
    cbn [omap list_omap List.filter].
    destruct (Nat.eqb_spec (length (Split str ".")) 2) as [Hwf|Hwf].
    + destruct (getCharacteristic_wellformed srv h remote pr str Hwf) as [[d e] Hd].
      rewrite Hd. cbn [fmap list_fmap fst]. constructor; [|exact IH].
      apply getCharacteristic_Some in Hd as (id0 & id1 & H1 & H2 & H3 & _).
      now exists id0, id1.
    + now rewrite (getCharacteristic_malformed ValueRequest to_Uint64 srv h remote pr str Hwf).
  - induction strs as [|str strs IH]; [constructor|]. cbn [omap list_omap].
    destruct (getOne srv h remote pr str) as [[d e]|] eqn:Hd; [|exact IH].
    cbn [fmap list_fmap fst]. constructor; [|exact IH].
    apply getCharacteristic_Some in Hd as (id0 & id1 & _ & _ & _ & Hd).
    destruct (findC srv h (Aid d) (Iid d) ≫= (fun l => h !! l));
      destruct Hd as (_ & H1 & H2); now split.
  - induction strs as [|str strs IH]; [left; split; [reflexivity | constructor]|].
    cbn [omap list_omap].
    destruct (getOne srv h remote pr str) as [[d e]|] eqn:Hd; [|exact IH].
    cbn [fmap list_fmap fst existsb snd].
    apply getCharacteristic_Some in Hd as (id0 & id1 & _ & _ & _ & Hd).
    destruct (findC srv h (Aid d) (Iid d) ≫= (fun l => h !! l)).
    + destruct Hd as (-> & Hs & _). cbn [orb].
      destruct (existsb snd (omap (getOne srv h remote pr) strs)).
      * right. destruct IH as [[? _]|[_ IH]]; [discriminate|].
        split; [reflexivity | now right].
      * left. destruct IH as [[_ IH]|[? _]]; [|discriminate].
        split; [reflexivity | now constructor].
    + destruct Hd as (-> & Hs & _). cbn [orb]. right. split; [reflexivity | now left].
Qed.

End Get.

(** The id list [1.10,x,1.7]: the switch, a malformed element, and a
    characteristic that does not exist. *)
Lemma GetCharacteristics_entries_witness :
  exists arr : list CharacteristicData,
    length arr = 2%nat /\
    GetCharacteristics read_Val (fun s => if String.eqb s "1" then 1 else
                                          if String.eqb s "10" then 10 else 7)
      true switch_accessories switch_heap "192.168.0.5:50000" "1.10,x,1.7"
      (mkProjection false false false false) = JsonMultiStatus arr.
Proof.
  destruct (GetCharacteristics_entries read_Val
              (fun s => if String.eqb s "1" then 1 else
                        if String.eqb s "10" then 10 else 7)
              switch_accessories switch_heap "192.168.0.5:50000"
              (mkProjection false false false false) "1.10,x,1.7"
              ltac:(simpl; lia)) as (arr & Hlen & _ & H).
  exists arr. split.
  - apply Forall2_length in Hlen. exact Hlen.
  - destruct H as [[H _]|[H _]]; [|exact H].
    vm_compute in H. discriminate H.
Defined.

Section Put.

Variable ValueRequest : C -> string -> option value.
Variable SetValueRequest : C -> value -> string -> C.
Variable to_Uint64 : string -> Z.

Local Abbreviation putOne := (putCharacteristic ValueRequest SetValueRequest).
Local Abbreviation putLoop := (putCharacteristics_loop ValueRequest SetValueRequest).

Lemma PutCharacteristics_heap srv h remote (ds : list CharacteristicData) :
  (PutCharacteristics ValueRequest SetValueRequest true srv h remote (Ok ds)).2
  = (putLoop srv h remote ds []).1.
Proof.
  unfold PutCharacteristics. cbn [negb].
  destruct (putLoop srv h remote ds []) as [h' arr]. now destruct (Nat.eqb _ _).
Qed.

Lemma putCharacteristics_loop_not_found srv h remote (ds arr : list CharacteristicData) :
  Forall (fun d => findC srv h (Aid d) (Iid d) = None) ds ->
  putLoop srv h remote ds arr
  = (h, arr ++ map (fun d => set_Status (newCharacteristicData (Aid d) (Iid d))
                               (Some JsonStatusServiceCommunicationFailure)) ds).
Proof.
  intros Hall. revert arr. induction Hall as [|d ds Hd _ IH]; intros arr.
  - cbn. now rewrite app_nil_r.
  - cbn [putCharacteristics_loop map]. unfold putCharacteristic at 1. rewrite Hd.
    rewrite IH. now rewrite <- app_assoc.
Qed.

(** X22: a PUT that names only characteristics that do not exist writes
    nothing: the characteristics are as before, and the reply is
    [jsonMultiStatus] with one entry per element, in order, each with the
    element's aid and iid, status -70402 and no value. *)
Theorem PutCharacteristics_not_found (srv : accessories) (h : heap) (remote : string)
  (ds : list CharacteristicData) :
  ds <> [] ->
  Forall (fun d => findC srv h (Aid d) (Iid d) = None) ds ->
  PutCharacteristics ValueRequest SetValueRequest true srv h remote (Ok ds)
  = (JsonMultiStatus
       (map (fun d => set_Status (newCharacteristicData (Aid d) (Iid d))
                        (Some JsonStatusServiceCommunicationFailure)) ds), h).
Proof.
  intros Hne Hall. unfold PutCharacteristics. cbn [negb].
  rewrite putCharacteristics_loop_not_found by exact Hall. cbn [app].
  destruct ds as [|d ds]; [contradiction|]. reflexivity.
Qed.

(** What is assumed of the write hook: it changes neither the instance id, nor
    the permissions, nor the events map of the characteristic. *)
Hypothesis SetValueRequest_frame : forall (c : C) (v : value) (remote : string),
  c_Id (SetValueRequest c v remote) = c_Id c /\
  c_Permissions (SetValueRequest c v remote) = c_Permissions c /\
  c_Events (SetValueRequest c v remote) = c_Events c.

Lemma written_shape (c : C) (remote : string) (d : CharacteristicData) :
  c_Id (written SetValueRequest c remote d) = c_Id c /\
  c_Permissions (written SetValueRequest c remote d) = c_Permissions c.
Proof.
  unfold written. destruct (Value d) as [v|]; [|now split].
  destruct (SetValueRequest_frame c v remote) as (H1 & H2 & _). now split.
Qed.

Lemma same_shape_refl (h : heap) : same_shape h h.
Proof. intros l. reflexivity. Qed.

Lemma same_shape_trans (h1 h2 h3 : heap) :
  same_shape h1 h2 -> same_shape h2 h3 -> same_shape h1 h3.
Proof. intros H12 H23 l. now rewrite H12. Qed.

Lemma putCharacteristic_same_shape srv h remote (d : CharacteristicData) :
  same_shape h (putOne srv h remote d).1.
Proof.
  unfold putCharacteristic.
  destruct (findC srv h (Aid d) (Iid d)) as [l|]; [|apply same_shape_refl].
  destruct (h !! l) as [c|] eqn:Hl; [|apply same_shape_refl].
  destruct (written_shape c remote d) as [Hid Hperm].
  destruct (Response d); destruct (Events d) as [ev|];
    try destruct (negb (IsObservable (written SetValueRequest c remote d)));
    cbn [fst]; now apply (same_shape_insert h l c).
Qed.

Lemma putCharacteristics_loop_same_shape srv h remote (ds arr : list CharacteristicData) :
  same_shape h (putLoop srv h remote ds arr).1.
Proof.
  revert h arr. induction ds as [|d ds IH]; intros h arr; [apply same_shape_refl|].
  cbn [putCharacteristics_loop].
  pose proof (putCharacteristic_same_shape srv h remote d) as H1.
  destruct (putOne srv h remote d) as [h' entries]. cbn [fst] in H1.
  exact (same_shape_trans _ _ _ H1 (IH h' (arr ++ entries))).
Qed.

(** X23: a PUT changes values and subscriptions only.  Whatever the request,
    every pointer holds a characteristic afterwards exactly when it did
    before, with the same instance id and the same permissions; so [findC]
    resolves every (aid, iid) to the same pointer after the request as
    before it. *)
Theorem PutCharacteristics_same_shape (paired : bool) (srv : accessories) (h : heap)
  (remote : string) (body : result (list CharacteristicData)) :
  let h' := (PutCharacteristics ValueRequest SetValueRequest paired srv h remote body).2 in
  (forall l : nat,
     (fun c => (c_Id c, c_Permissions c)) <$> h' !! l
     = (fun c => (c_Id c, c_Permissions c)) <$> h !! l) /\
  (forall aid iid : Z, findC srv h' aid iid = findC srv h aid iid).
Proof.
  cbv zeta.
  assert (Hs : same_shape h
                 (PutCharacteristics ValueRequest SetValueRequest paired srv h remote body).2).
  { destruct paired; [|apply same_shape_refl].
    destruct body as [ds|e]; [|apply same_shape_refl].
    rewrite PutCharacteristics_heap. apply putCharacteristics_loop_same_shape. }
  split.
  - intros l. symmetry. apply Hs.
  - intros aid iid. symmetry. now apply same_shape_findC.
Qed.

(** X24: a subscription that a PUT stores is what a GET with [ev=1] reports.
    After a PUT of one element with [ev = b] on an observable characteristic,
    a GET of that characteristic with the [ev] projection reports [b] to the
    address that sent the PUT, and to every other address what its own entry
    of the events map said before (false without entry). *)
Theorem PutCharacteristics_then_Get_ev (srv : accessories) (h : heap)
  (remote remote' : string) (d : CharacteristicData) (l : nat) (c : C) (b : bool)
  (v id0 id1 : string) :
  findC srv h (Aid d) (Iid d) = Some l -> h !! l = Some c -> IsObservable c = true ->
  Events d = Some b ->
  Split v ","%char = [v] -> Split v "."%char = [id0; id1] ->
  to_Uint64 id0 = Aid d -> to_Uint64 id1 = Iid d ->
  let h' := (PutCharacteristics ValueRequest SetValueRequest true srv h remote (Ok [d])).2 in
  exists e : CharacteristicData,
    GetCharacteristics ValueRequest to_Uint64 true srv h' remote' v
      (mkProjection false false false true) = JsonOK [e] /\
    Aid e = Aid d /\ Iid e = Iid d /\
    Events e = Some (if bool_decide (remote' = remote) then b
                     else default false (c_Events c !! remote')).
Proof.
  intros Hf Hl Hobs Hev Hcomma Hdot H0 H1. cbv zeta.
  rewrite PutCharacteristics_heap. cbn [putCharacteristics_loop].
  pose proof (putCharacteristic_ev ValueRequest SetValueRequest SetValueRequest_frame
                srv h remote d l c b Hf Hl Hev) as Hput.
  rewrite Hobs in Hput. rewrite Hput. cbn [fst].
  destruct (written_shape c remote d) as [Hid Hperm].
  set (c' := set_Events (written SetValueRequest c remote d) (<[remote := b]> (c_Events c))).
  assert (Hshape : same_shape h (<[l := c']> h))
    by now apply (same_shape_insert h l c).
  assert (Hv : String.length v <> 0%nat) by (destruct v; [discriminate Hdot | discriminate]).
  unfold GetCharacteristics. cbn [negb].
  destruct (Nat.eqb_spec (String.length v) 0) as [?|_]; [contradiction|].
  rewrite Hcomma. cbn [getCharacteristics_loop]. unfold getCharacteristic.
  rewrite Hdot. cbn [Aid Iid newCharacteristicData]. rewrite H0, H1.
  rewrite <- (same_shape_findC srv h (<[l := c']> h) (Aid d) (Iid d) Hshape), Hf.
  cbn [mbind option_bind]. rewrite lookup_insert_eq. cbn [app orb want_ev].
  eexists. split; [reflexivity|]. cbn [Aid Iid Events].
  split; [reflexivity|]. split; [reflexivity|]. f_equal.
  subst c'. cbn [c_Events set_Events].
  destruct (bool_decide_reflect (remote' = remote)) as [->|Hne].
  - now rewrite lookup_insert_eq.
  - now rewrite lookup_insert_ne by congruence.
Qed.

End Put.

(** Writing a value keeps the shape, with the hook that stores it. *)
Lemma PutCharacteristics_same_shape_witness :
  findC switch_accessories
    (PutCharacteristics read_Val write_Val true switch_accessories switch_heap
       "192.168.0.5:50000"
       (Ok [set_Value (newCharacteristicData 1 10) (Some (VBool true))])).2 1 10
  = findC switch_accessories switch_heap 1 10.
Proof.
  exact (proj2 (PutCharacteristics_same_shape read_Val write_Val write_Val_frame true
                  switch_accessories switch_heap "192.168.0.5:50000"
                  (Ok [set_Value (newCharacteristicData 1 10) (Some (VBool true))])) 1 10).
Defined.

(** A PUT for a characteristic 1.7 that the accessory does not have. *)
Lemma PutCharacteristics_not_found_witness :
  PutCharacteristics read_Val write_Val true switch_accessories switch_heap
    "192.168.0.5:50000" (Ok [set_Value (newCharacteristicData 1 7) (Some (VBool true))])
  = (JsonMultiStatus
       [set_Status (newCharacteristicData 1 7) (Some JsonStatusServiceCommunicationFailure)],
     switch_heap).
Proof.
  refine (PutCharacteristics_not_found read_Val write_Val switch_accessories switch_heap
            "192.168.0.5:50000"
            [set_Value (newCharacteristicData 1 7) (Some (VBool true))] _ _).
  - discriminate.
  - repeat constructor.
Defined.

(** Subscribing to the switch from one address, reading from another. *)
Lemma PutCharacteristics_then_Get_ev_witness :
  exists e : CharacteristicData,
    GetCharacteristics read_Val (fun s => if String.eqb s "1" then 1 else 10) true
      switch_accessories
      (PutCharacteristics read_Val write_Val true switch_accessories switch_heap
         "192.168.0.5:50000"
         (Ok [mkCharacteristicData 1 10 None None [] None (Some true) None None None None
                None None None None])).2
      "192.168.0.9:50000" "1.10" (mkProjection false false false true) = JsonOK [e] /\
    Events e = Some false.
Proof.
  destruct (PutCharacteristics_then_Get_ev read_Val write_Val
              (fun s => if String.eqb s "1" then 1 else 10) write_Val_frame
              switch_accessories switch_heap "192.168.0.5:50000" "192.168.0.9:50000"
              (mkCharacteristicData 1 10 None None [] None (Some true) None None None None
                 None None None None)
              0%nat switch_On true "1.10" "1" "10"
              eq_refl eq_refl eq_refl eq_refl eq_refl eq_refl eq_refl eq_refl)
    as (e & H1 & _ & _ & H2).
  exists e. split; [exact H1 | exact H2].
Defined.

End CharacteristicsMore.
